(** * AstraPlay: provider aggregation and transfer resolution

    A shallow embedding of the provider pipeline of AstraPlay
    (electron/providers/base-provider.ts,
    electron/providers/scrapers/limetorrents-scraper.ts,
    electron/providers/debrid/real-debrid.ts,
    electron/providers/provider-manager.ts, electron/main/ipc-handlers.ts and
    src/types/{provider,ipc}.ts), followed by the properties of the design
    document that can be stated over it.

    Conventions.
    - A JavaScript string is a [string]: the bytes of its UTF-8 encoding
      (strings are assumed well formed, free of lone surrogates).
    - An integer-valued JavaScript number is a [Z]: a Number is a binary64
      value, and a [Z] stands for the Number nearest to it, which is the [Z]
      itself for every integer the code can hold.  A number that may carry
      a fraction is a [JSNumber]: NaN, Infinity or the rational value of a
      finite binary64 number.  What is read from text is rounded to
      binary64 as the code rounds it.
    - An [async] function is the function from its arguments to its settled
      outcome: [Ok v] for a fulfilled promise, [Err e] for a rejected one.
      The network, the remote service and the HTML parser are parameters.
    - A method of the Real-Debrid provider is a transformer of the state of
      the instance, which includes the log of the requests it has sent.
    - Thrown values are told apart by their message; the design document
      names them NotReadyError ([TorrentNotReady]), NoFilesError
      ([NoLinksAvailable]), NotAuthenticatedError ([NotAuthenticated]),
      AuthenticationError ([ApiKeyRequired], or the failure of the account
      lookup) and NoBackendsAvailableError ([NoScrapersAvailable]). *)

From Stdlib Require Import ZArith QArith Qpower List String Ascii Bool Lia Lqa.
From Stdlib Require Import Permutation Sorted.
From Stdlib Require DecimalString DecimalPos.
Import ListNotations.

Local Open Scope string_scope.
Local Open Scope Z_scope.

(** ** Outcomes and errors *)

(** The values thrown by the code.  Every one is a plain [Error] carrying a
    message; a constructor stands for one message template. *)
Inductive Exception : Type :=
| ApiKeyRequired                 (* 'API key is required for Real-Debrid authentication' *)
| NotAuthenticated               (* 'Not authenticated with Real-Debrid' *)
| TorrentNotReady (status : string) (* `Torrent not ready yet. Status: ${status}` *)
| NoLinksAvailable               (* 'No links available for this torrent' *)
| NoScrapersAvailable            (* 'No scrapers available' *)
| ValidationFailed               (* `Validation failed: ${...}` *)
| RemoteFailure (detail : string) (* a rejected HTTP request *).

Inductive result (A : Type) : Type :=
| Ok (value : A)
| Err (e : Exception).
Arguments Ok {A} value.
Arguments Err {A} e.

Definition is_ok {A} (r : result A) : bool :=
  match r with Ok _ => true | Err _ => false end.

(** ** JavaScript primitives used by the providers *)
Module JS.

(** *** Characters *)

Definition code (c : ascii) : Z := Z.of_N (N_of_ascii c).

(** The value of a decimal digit, from its code. *)
Definition digit_of (c : ascii) : option Z :=
  if (48 <=? code c) && (code c <=? 57) then Some (code c - 48) else None.

Definition is_digit (c : ascii) : bool :=
  match digit_of c with Some _ => true | None => false end.

Definition hex_digit_of (c : ascii) : option Z :=
  match c with
  | "a" | "A" => Some 10 | "b" | "B" => Some 11 | "c" | "C" => Some 12
  | "d" | "D" => Some 13 | "e" | "E" => Some 14 | "f" | "F" => Some 15
  | _ => digit_of c
  end%char.

Definition is_hex_digit (c : ascii) : bool :=
  match hex_digit_of c with Some _ => true | None => false end.

(** ASCII case mapping.  [String.prototype.toUpperCase], [toLowerCase] and
    the [i] flag of a regular expression without the [u] flag agree with it
    on the characters the providers compare against: without [u], a
    character outside ASCII never canonicalises to an ASCII letter. *)
Definition upper_char (c : ascii) : ascii :=
  if (97 <=? code c) && (code c <=? 122)
  then ascii_of_N (Z.to_N (code c - 32)) else c.

Definition lower_char (c : ascii) : ascii :=
  if (65 <=? code c) && (code c <=? 90)
  then ascii_of_N (Z.to_N (code c + 32)) else c.

Fixpoint map_string (f : ascii -> ascii) (s : string) : string :=
  match s with
  | EmptyString => EmptyString
  | String c r => String (f c) (map_string f r)
  end.

Definition toUpperCase : string -> string := map_string upper_char.
Definition toLowerCase : string -> string := map_string lower_char.

(** Equality of two characters under the [i] flag. *)
Definition eqb_ci (a b : ascii) : bool :=
  Ascii.eqb (upper_char a) (upper_char b).

(** *** Strings *)

(** [s] starts with [p], compared case-insensitively: a literal of a
    regular expression with the [i] flag matched at the head of [s]. *)
Fixpoint starts_with_ci (p s : string) : bool :=
  match p, s with
  | EmptyString, _ => true
  | String a p', String b s' => eqb_ci a b && starts_with_ci p' s'
  | String _ _, EmptyString => false
  end.

(** Case-sensitive prefix test; on success the rest of the string. *)
Fixpoint strip_prefix (p s : string) : option string :=
  match p, s with
  | EmptyString, _ => Some s
  | String a p', String b s' =>
      if Ascii.eqb a b then strip_prefix p' s' else None
  | String _ _, EmptyString => None
  end.

(** [String.prototype.includes]. *)
Fixpoint includes (s needle : string) : bool :=
  match strip_prefix needle s with
  | Some _ => true
  | None => match s with
            | EmptyString => false
            | String _ r => includes r needle
            end
  end.

(** The longest prefix whose characters satisfy [p], and what follows. *)
Fixpoint span (p : ascii -> bool) (s : string) : string * string :=
  match s with
  | EmptyString => (EmptyString, EmptyString)
  | String c r =>
      if p c then let (a, b) := span p r in (String c a, b)
      else (EmptyString, s)
  end.

Definition is_empty (s : string) : bool :=
  match s with EmptyString => true | _ => false end.

(** Truthiness of a string, and of an optional string: [undefined] and
    the empty string are falsy. *)
Definition truthy (o : option string) : bool :=
  match o with
  | Some s => negb (is_empty s)
  | None => false
  end.

(** *** White space

    [WhiteSpace] and [LineTerminator] of ECMAScript, the class [\s] of a
    regular expression and what [parseInt] skips, in UTF-8:
    U+0009..U+000D and U+0020 on one byte; U+00A0 on two; U+1680,
    U+2000..U+200A, U+2028, U+2029, U+202F, U+205F, U+3000 and U+FEFF on
    three. *)
Definition is_space1 (c : ascii) : bool :=
  ((9 <=? code c) && (code c <=? 13)) || (code c =? 32).

Definition is_space2 (c1 c2 : ascii) : bool :=
  (code c1 =? 194) && (code c2 =? 160).

Definition is_space3 (c1 c2 c3 : ascii) : bool :=
  let a := code c1 in let b := code c2 in let c := code c3 in
  ((a =? 225) && (b =? 154) && (c =? 128))
  || ((a =? 226) && (b =? 128)
      && (((128 <=? c) && (c <=? 138)) || (c =? 168) || (c =? 169) || (c =? 175)))
  || ((a =? 226) && (b =? 129) && (c =? 159))
  || ((a =? 227) && (b =? 128) && (c =? 128))
  || ((a =? 239) && (b =? 187) && (c =? 191)).

(** Drop the white space at the head of a string: [\s*], which is greedy. *)
Fixpoint skip_space (s : string) : string :=
  match s with
  | EmptyString => EmptyString
  | String c1 r1 =>
      if is_space1 c1 then skip_space r1
      else match r1 with
           | String c2 r2 =>
               if is_space2 c1 c2 then skip_space r2
               else match r2 with
                    | String c3 r3 =>
                        if is_space3 c1 c2 c3 then skip_space r3 else s
                    | EmptyString => s
                    end
           | EmptyString => s
           end
  end.

(** *** Numbers *)

(** A number that may carry a fraction: NaN, positive infinity, or the
    value of a finite Number.  The providers read no sign, so no negative
    infinity arises. *)
Inductive JSNumber : Type :=
| NaN
| Infinity
| Num (q : Q).

(** The integer nearest to [p / d], for [0 <= p] and [0 < d]; of two
    nearest integers the even one. *)
Definition nearest_even (p d : Z) : Z :=
  let f := p / d in
  match 2 * (p mod d) ?= d with
  | Lt => f
  | Gt => f + 1
  | Eq => if Z.even f then f else f + 1
  end.

(** The Number value for the rational [p / d], [0 <= p] and [0 < d]: the
    binary64 number nearest to it, ties to the even mantissa, given as
    [(m, E)] for [m * 2 ^ E] with [m <= 2 ^ 53] and [-1074 <= E]; [None]
    when the nearest is beyond the finite numbers (Infinity).  [e] is the
    exponent of the power of two at or below [p / d], and dividing by
    [2 ^ E] is multiplying the numerator or the denominator, whichever the
    sign of [E] says. *)
Definition binary64 (p d : Z) : option (Z * Z) :=
  if p =? 0 then Some (0, 0)
  else
    let e0 := Z.log2 p - Z.log2 d in
    let e := if d * 2 ^ Z.max e0 0 <=? p * 2 ^ Z.max (- e0) 0
             then e0 else e0 - 1 in
    let E := Z.max (e - 52) (-1074) in
    let m := nearest_even (p * 2 ^ Z.max (- E) 0) (d * 2 ^ Z.max E 0) in
    if (971 <? E) || ((E =? 971) && (2 ^ 53 <=? m)) then None else Some (m, E).

(** The value [m * 2 ^ E], in lowest terms. *)
Definition scaled (m E : Z) : Q :=
  Qred (Qmake (m * 2 ^ Z.max E 0) (Z.to_pos (2 ^ Z.max (- E) 0))).

Definition number_of (p d : Z) : JSNumber :=
  match binary64 p d with
  | None => Infinity
  | Some (m, E) => Num (scaled m E)
  end.

(** The integer Number nearest to the integer [a], [0 <= a]: [a] itself
    below [2 ^ 53].  (From [2 ^ 1024] on the code has Infinity, which is no
    integer: the code reads such numbers from texts of more than 308
    digits.) *)
Definition nearest64 (a : Z) : Z :=
  if a <? 2 ^ 53 then a
  else let E := Z.log2 a - 52 in nearest_even a (2 ^ E) * 2 ^ E.

(** The value of a run of digits in the given radix, read left to right
    from the accumulator [acc]. *)
Fixpoint digits_value (digit : ascii -> option Z) (radix : Z)
         (s : string) (acc : Z) : Z :=
  match s with
  | EmptyString => acc
  | String c r =>
      match digit c with
      | Some d => digits_value digit radix r (radix * acc + d)
      | None => acc
      end
  end.

Fixpoint pow10 (n : nat) : positive :=
  match n with
  | O => 1%positive
  | S k => (10 * pow10 k)%positive
  end.

(** [parseInt(s)] without a radix: leading white space is skipped, a sign
    and a [0x] prefix are honoured, the longest run of digits is read and
    rounded to a Number, and [None] (NaN) is returned when that run is
    empty. *)
Definition parseInt (s : string) : option Z :=
  let s1 := skip_space s in
  let '(sign, s2) :=
    match s1 with
    | String "-" r => (-1, r)
    | String "+" r => (1, r)
    | _ => (1, s1)
    end in
  let '(digit, radix, s3) :=
    match s2 with
    | String "0" (String "x" r) | String "0" (String "X" r) =>
        (hex_digit_of, 16, r)
    | _ => (digit_of, 10, s2)
    end in
  match s3 with
  | EmptyString => None
  | String c _ =>
      match digit c with
      | Some _ => Some (sign * nearest64 (digits_value digit radix s3 0))
      | None => None
      end
  end.

(** [parseFloat] on a string made of digits and dots only, which is all
    the size expression can capture: the longest prefix that is a decimal
    literal ([12], [12.], [12.5], [.5]) is read and rounded to the nearest
    Number, whatever the count of its digits; there is none in a string that
    starts with a dot not followed by a digit. *)
Definition parseFloat (s : string) : JSNumber :=
  let (ip, r) := span is_digit s in
  let fp := match r with
            | String c r' =>
                if Ascii.eqb c "." then fst (span is_digit r') else EmptyString
            | EmptyString => EmptyString
            end in
  if is_empty ip && is_empty fp then NaN
  else number_of (digits_value digit_of 10 (ip ++ fp) 0)
                 (Z.pos (pow10 (String.length fp))).

(** *** Number::toString on integers *)

Definition digit_char (d : Z) : ascii := ascii_of_N (Z.to_N (48 + d)).

Fixpoint decimal_digits (fuel : nat) (n : Z) (acc : string) : string :=
  match fuel with
  | O => acc
  | S k =>
      let acc' := String (digit_char (n mod 10)) acc in
      if n <? 10 then acc' else decimal_digits k (n / 10) acc'
  end.

Definition decimal (n : Z) : string :=
  decimal_digits (S (Z.to_nat (Z.log2 n))) n EmptyString.

(** The digits Number::toString writes for the integer Number [x],
    [2 ^ 53 <= x]: the integer [s] of fewest digits, and the power [e] of
    ten, with [s * 10 ^ e] a value that rounds to [x]; of several such [s]
    the one nearest to [x], and of two nearest the even one.  The values
    that round to [x] lie between [lo4 / 4] and [hi4 / 4], the ends included
    when the mantissa of [x] is even; fewest digits means the greatest power
    of ten, and the candidates at a power are the multiples next to [x] on
    either side.  The search starts at a power no candidate can exceed
    ([10 ^ e <= 4 * x] gives [e <= (log2 x + 2) * 0.30103]). *)
Fixpoint shortest_digits (e : nat) (x lo4 hi4 : Z) (inclusive : bool)
  : Z * nat :=
  let P := 10 ^ Z.of_nat e in
  let rounds v := if inclusive then (lo4 <=? 4 * v) && (4 * v <=? hi4)
                  else (lo4 <? 4 * v) && (4 * v <? hi4) in
  let below := x / P in
  let above := below + 1 in
  let below_ok := (1 <=? below) && rounds (below * P) in
  let above_ok := rounds (above * P) in
  let found :=
    if below_ok && above_ok then
      match x - below * P ?= above * P - x with
      | Lt => Some below
      | Gt => Some above
      | Eq => Some (if Z.even below then below else above)
      end
    else if below_ok then Some below
    else if above_ok then Some above
    else None in
  match found, e with
  | Some s, _ => (s, e)
  | None, S e' => shortest_digits e' x lo4 hi4 inclusive
  | None, O => (x, O)
  end.

Fixpoint zeros (n : nat) : string :=
  match n with
  | O => EmptyString
  | S k => String "0" (zeros k)
  end.

(** [String(x)] for the integer Number [x], [2 ^ 53 <= x]: the digits and
    as many zeros as the power says while the number has at most 21 digits,
    and from there on the digits with a dot after the first one, [e+] and
    the exponent. *)
Definition large_decimal (x : Z) : string :=
  let E := Z.log2 x - 52 in
  let m := x / 2 ^ E in
  let hi4 := 4 * x + 2 ^ (E + 1) in
  let lo4 := 4 * x - (if m =? 2 ^ 52 then 2 ^ E else 2 ^ (E + 1)) in
  let top := Z.to_nat ((Z.log2 x + 2) * 30103 / 100000 + 1) in
  let (s, e) := shortest_digits top x lo4 hi4 (Z.even m) in
  let ds := decimal s in
  let n := (String.length ds + e)%nat in
  if (n <=? 21)%nat then ds ++ zeros e
  else
    match ds with
    | String d EmptyString =>
        String d ("e+" ++ decimal (Z.of_nat n - 1))
    | String d rest =>
        String d (String "." rest) ++ "e+" ++ decimal (Z.of_nat n - 1)
    | EmptyString => EmptyString
    end.

(** [String(a)] for [0 <= a]: plain decimal digits for a safe integer; a
    greater one is first rounded to a Number. *)
Definition unsigned_toString (a : Z) : string :=
  if a <? 2 ^ 53 then decimal a
  else match binary64 a 1 with
       | Some (m, E) => large_decimal (m * 2 ^ E)
       | None => "Infinity"
       end.

(** [String(n)] and [n.toString()]. *)
Definition Number_toString (n : Z) : string :=
  if n <? 0 then String "-" (unsigned_toString (- n)) else unsigned_toString n.

(** [s.padStart(targetLength, padString)]; lengths are counted on ASCII
    strings, where bytes and UTF-16 code units coincide. *)
Fixpoint pad_fill (n : nat) (pad cur : string) : string :=
  match n with
  | O => EmptyString
  | S k =>
      match cur with
      | String c r => String c (pad_fill k pad r)
      | EmptyString =>
          match pad with
          | String c r => String c (pad_fill k pad r)
          | EmptyString => EmptyString
          end
      end
  end.

Definition padStart (s : string) (targetLength : nat) (padString : string)
  : string :=
  if (targetLength <=? String.length s)%nat || is_empty padString then s
  else pad_fill (targetLength - String.length s) padString padString ++ s.

(** *** encodeURIComponent

    Every byte of the UTF-8 encoding is written [%XX] in upper-case
    hexadecimal, except the unreserved characters: letters, digits and
    [- _ . ! ~ * ' ( )]. *)
Definition is_alpha (c : ascii) : bool :=
  ((65 <=? code c) && (code c <=? 90)) || ((97 <=? code c) && (code c <=? 122)).

Definition is_unreserved (c : ascii) : bool :=
  is_alpha c || is_digit c
  || match c with
     | "-" | "_" | "." | "!" | "~" | "*" | "'" | "(" | ")" => true
     | _ => false
     end%char.

Definition hex_char (d : Z) : ascii :=
  if d <? 10 then digit_char d else ascii_of_N (Z.to_N (55 + d)).

Fixpoint encodeURIComponent (s : string) : string :=
  match s with
  | EmptyString => EmptyString
  | String c r =>
      if is_unreserved c then String c (encodeURIComponent r)
      else String "%" (String (hex_char (code c / 16))
                         (String (hex_char (code c mod 16))
                                 (encodeURIComponent r)))
  end.

(** *** Array.prototype.sort

    [l.sort(compareFn)], for a consistent comparison function.  The sort is
    stable (ECMAScript 2019), which fixes its result: the arrangement of [l]
    ordered by [compareFn] in which elements that compare equal keep their
    relative order.  [sort] computes it by inserting each element, from the
    last to the first, in front of the first element it does not have to
    follow. *)
Section ArraySort.
Context {A : Type} (compareFn : A -> A -> Z).

Fixpoint insert (x : A) (l : list A) : list A :=
  match l with
  | [] => [x]
  | y :: r => if 0 <? compareFn x y then y :: insert x r else x :: l
  end.

Fixpoint sort (l : list A) : list A :=
  match l with
  | [] => []
  | x :: r => insert x (sort r)
  end.

End ArraySort.

(** [l.findIndex(p)]; [None] stands for -1. *)
Fixpoint findIndex {A : Type} (p : A -> bool) (l : list A) : option nat :=
  match l with
  | [] => None
  | x :: r => if p x then Some O else option_map S (findIndex p r)
  end.

(** *** Property reads on an object literal

    [obj[key]] on an object written as a literal, whose prototype is
    Object.prototype: an own property is found first, then a member of
    Object.prototype, and the read is [undefined] otherwise. *)
Definition Object_prototype_members : list string :=
  [ "constructor"; "__defineGetter__"; "__defineSetter__"; "hasOwnProperty";
    "__lookupGetter__"; "__lookupSetter__"; "isPrototypeOf";
    "propertyIsEnumerable"; "toString"; "valueOf"; "__proto__";
    "toLocaleString" ].

Inductive property (A : Type) : Type :=
| Own (value : A)
| Inherited (member : string)
| Undefined.
Arguments Own {A} value.
Arguments Inherited {A} member.
Arguments Undefined {A}.

Fixpoint own_property {A : Type} (obj : list (string * A)) (key : string)
  : option A :=
  match obj with
  | [] => None
  | (k, v) :: r => if String.eqb k key then Some v else own_property r key
  end.

Definition get {A : Type} (obj : list (string * A)) (key : string)
  : property A :=
  match own_property obj key with
  | Some v => Own v
  | None =>
      if existsb (String.eqb key) Object_prototype_members
      then Inherited key else Undefined
  end.

End JS.

(** ** src/types/provider.ts and src/types/ipc.ts *)

Inductive MediaType : Type := movie | series | anime.

Module TorrentResult.
Record t : Type := {
  id : string;
  name : string;
  size : JS.JSNumber;
  seeders : Z;
  leechers : Z;
  magnetUri : string;
  infoHash : string;
  uploadDate : option string;   (* the text the Date is built from *)
  quality : option string;
  source : option string;
  providerId : string
}.
End TorrentResult.

Module ProviderAccount.
Record t : Type := {
  id : string;
  providerId : string;
  username : option string;
  email : option string;
  premium : bool;
  expiresAt : option string;    (* the text the Date is built from *)
  createdAt : string;
  updatedAt : string
}.
End ProviderAccount.

Module DebridCredentials.
Record t : Type := {
  apiKey : option string;
  accessToken : option string;
  refreshToken : option string
}.
End DebridCredentials.

Module ProviderStatus.
Record t : Type := {
  online : bool;
  premium : bool;
  expiresAt : option string
}.
End ProviderStatus.

Module DebridFile.
Record t : Type := {
  id : string;
  name : string;
  size : Z;
  streamUrl : option string
}.
End DebridFile.

(** The five statuses of [DebridTransfer['status']]. *)
Inductive TransferStatus : Type :=
| queued | downloading | processing | ready | error.

(** What the [status] field holds at run time: one of the five statuses, or
    whatever else the expression that fills it evaluated to (a member of
    Object.prototype, see [JS.get]). *)
Inductive StatusValue : Type :=
| Status (s : TransferStatus)
| PrototypeMember (member : string).

Module DebridTransfer.
Record t : Type := {
  id : string;
  magnetUri : string;
  name : string;
  status : StatusValue;
  progress : Z;
  files : list DebridFile.t;
  error : option string
}.
End DebridTransfer.

(** The interface [ScraperProvider]: an implementation supplies its two
    searches, each the function from its arguments to the settled outcome of
    the promise it returns. *)
Module ScraperProvider.
Record t : Type := {
  id : string;
  name : string;
  enabled : bool;
  search : string -> MediaType -> result (list TorrentResult.t);
  searchEpisode : string -> Z -> Z -> result (list TorrentResult.t)
}.
End ScraperProvider.

(** ** electron/providers/base-provider.ts *)
Module BaseProvider.

(** [handleError] logs and throws its argument again. *)
Definition handleError {A : Type} (e : Exception) (context : string) : result A :=
  Err e.

End BaseProvider.

(** ** electron/providers/scrapers/limetorrents-scraper.ts *)
Module LimeTorrents.

Definition id : string := "limetorrents".
Definition baseUrl : string := "https://www.limetorrents.lol".

(** One row of the result table, as the cheerio selectors of
    [parseSearchResults] read it: every text already trimmed, the [href]
    attribute absent when the anchor has none. *)
Record Row : Type := {
  row_name : string;                (* .tt-name a, second anchor *)
  row_torrentLink : option string;  (* .tt-name a, first anchor, href *)
  row_sizeText : string;            (* .tdnormal, second cell *)
  row_seedersText : string;         (* .tdseed *)
  row_leechersText : string;        (* .tdleech *)
  row_dateText : string             (* .tdnormal, first cell *)
}.

(** Exactly [n] hexadecimal digits at the head of [s]: [[A-F0-9]{n}] under
    the [i] flag.  Returns the digits and what follows. *)
Fixpoint take_hex (n : nat) (s : string) : option (string * string) :=
  match n with
  | O => Some (EmptyString, s)
  | S k =>
      match s with
      | String c r =>
          if JS.is_hex_digit c then
            match take_hex k r with
            | Some (h, rest) => Some (String c h, rest)
            | None => None
            end
          else None
      | EmptyString => None
      end
  end.

(** [/\/([A-F0-9]{40})\//i] matched at the head of [s]; the capture. *)
Definition hash_at_head (s : string) : option string :=
  match s with
  | String c r =>
      if Ascii.eqb c "/" then
        match take_hex 40 r with
        | Some (h, String c' _) => if Ascii.eqb c' "/" then Some h else None
        | _ => None
        end
      else None
  | EmptyString => None
  end.

(** [link.match(/\/([A-F0-9]{40})\//i)]: the leftmost match. *)
Fixpoint match_hash (link : string) : option string :=
  match hash_at_head link with
  | Some h => Some h
  | None =>
      match link with
      | EmptyString => None
      | String _ r => match_hash r
      end
  end.

Definition extractInfoHashFromLink (link : option string) : option string :=
  if negb (JS.truthy link) then None
  else match link with
       | Some l => option_map JS.toLowerCase (match_hash l)
       | None => None
       end.

Definition trackers : list string :=
  [ "udp://tracker.opentrackr.org:1337/announce";
    "udp://open.stealth.si:80/announce";
    "udp://tracker.torrent.eu.org:451/announce";
    "udp://tracker.bittor.pw:1337/announce";
    "udp://public.popcorn-tracker.org:6969/announce" ].

Definition buildMagnetUri (infoHash name : string) : string :=
  let encodedName := JS.encodeURIComponent name in
  let trackerString :=
    String.concat EmptyString
      (map (fun t => "&tr=" ++ JS.encodeURIComponent t) trackers) in
  "magnet:?xt=urn:btih:" ++ infoHash ++ "&dn=" ++ encodedName ++ trackerString.

(** The characters of [[\d.]]. *)
Definition is_size_char (c : ascii) : bool :=
  JS.is_digit c || Ascii.eqb c ".".

(** [(GB|MB|KB|TB)] under the [i] flag at the head of [s]; the text matched. *)
Definition unit_at_head (s : string) : option string :=
  match s with
  | String a (String b _) =>
      if existsb (fun u => JS.starts_with_ci u s) ["GB"; "MB"; "KB"; "TB"]
      then Some (String a (String b EmptyString)) else None
  | _ => None
  end.

(** [/([\d.]+)\s*(GB|MB|KB|TB)/i] matched at the head of [s]; the two
    captures.  Both quantifiers are greedy and giving characters back cannot
    help: after a shorter run of [[\d.]] comes a character of [[\d.]], after
    less white space comes white space, and neither starts a unit. *)
Definition size_at_head (s : string) : option (string * string) :=
  let (num, rest) := JS.span is_size_char s in
  if JS.is_empty num then None
  else match unit_at_head (JS.skip_space rest) with
       | Some u => Some (num, u)
       | None => None
       end.

(** [sizeText.match(/([\d.]+)\s*(GB|MB|KB|TB)/i)]: the leftmost match. *)
Fixpoint match_size (sizeText : string) : option (string * string) :=
  match size_at_head sizeText with
  | Some m => Some m
  | None =>
      match sizeText with
      | EmptyString => None
      | String _ r => match_size r
      end
  end.

Definition multipliers : list (string * Z) :=
  [ ("TB", 1024 ^ 4); ("GB", 1024 ^ 3); ("MB", 1024 ^ 2); ("KB", 1024) ].

(** [value * m] where [m] is what [multipliers[unit] || 0] evaluates to:
    the product of two Numbers is the Number nearest to their product.  The
    value read is not negative and the multipliers are positive. *)
Definition times (value : JS.JSNumber) (m : JS.property Z) : JS.JSNumber :=
  match m with
  | JS.Own k =>
      match value with
      | JS.Num q => JS.number_of (Qnum q * k) (Z.pos (Qden q))
      | JS.Infinity => JS.Infinity
      | JS.NaN => JS.NaN
      end
  | JS.Inherited _ => JS.NaN   (* a number times a function *)
  | JS.Undefined =>
      match value with
      | JS.Num q => JS.Num (inject_Z 0)
      | JS.Infinity => JS.NaN  (* Infinity * 0 *)
      | JS.NaN => JS.NaN
      end
  end.

Definition parseSize (sizeText : string) : JS.JSNumber :=
  match match_size sizeText with
  | None => JS.Num (inject_Z 0)
  | Some (number, unit_text) =>
      let value := JS.parseFloat number in
      let unit := JS.toUpperCase unit_text in
      times value (JS.get multipliers unit)
  end.

Definition parseDate (dateText : string) : option string :=
  if JS.is_empty dateText || String.eqb dateText "-" then None
  else Some dateText.

Definition qualities : list string :=
  ["2160p"; "1080p"; "720p"; "480p"; "360p"].

Definition extractQuality (name : string) : option string :=
  let nameUpper := JS.toUpperCase name in
  match find (fun q => JS.includes nameUpper (JS.toUpperCase q)) qualities with
  | Some q => Some q
  | None =>
      if JS.includes nameUpper "4K" || JS.includes nameUpper "UHD"
      then Some "2160p" else None
  end.

(** [parseInt(text) || 0]. *)
Definition count_of (text : string) : Z :=
  match JS.parseInt text with
  | Some n => n
  | None => 0
  end.

(** The body of the callback of [.each]: the result it pushes, if any. *)
Definition parseRow (row : Row) : option TorrentResult.t :=
  if JS.is_empty (row_name row) then None
  else match extractInfoHashFromLink (row_torrentLink row) with
       | None => None
       | Some hash =>
           Some {| TorrentResult.id := hash;
                   TorrentResult.name := row_name row;
                   TorrentResult.size := parseSize (row_sizeText row);
                   TorrentResult.seeders := count_of (row_seedersText row);
                   TorrentResult.leechers := count_of (row_leechersText row);
                   TorrentResult.magnetUri := buildMagnetUri hash (row_name row);
                   TorrentResult.infoHash := hash;
                   TorrentResult.uploadDate := parseDate (row_dateText row);
                   TorrentResult.quality := extractQuality (row_name row);
                   TorrentResult.source := Some "limetorrents";
                   TorrentResult.providerId := id |}
       end.

(** [(a, b) => b.seeders - a.seeders]. *)
Definition bySeeders (a b : TorrentResult.t) : Z :=
  TorrentResult.seeders b - TorrentResult.seeders a.

Fixpoint pushed (rows : list Row) : list TorrentResult.t :=
  match rows with
  | [] => []
  | row :: rest =>
      match parseRow row with
      | Some r => r :: pushed rest
      | None => pushed rest
      end
  end.

Section Scraper.

(** The network and the HTML parser: [axios.get(url)] settles to the page
    or is rejected; [$('.table2 tbody tr')] enumerates the rows of a page. *)
Variable http_get : string -> result string.
Variable table_rows : string -> list Row.

Definition parseSearchResults (html : string) : list TorrentResult.t :=
  JS.sort bySeeders (pushed (table_rows html)).

Definition search (query : string) (_mediaType : MediaType)
  : result (list TorrentResult.t) :=
  let searchQuery := JS.encodeURIComponent query in
  let url := baseUrl ++ "/search/all/" ++ searchQuery ++ "/seeds/1/" in
  match http_get url with
  | Ok data => Ok (parseSearchResults data)
  | Err e => BaseProvider.handleError e "search"
  end.

Definition searchEpisode (seriesName : string) (season episode : Z)
  : result (list TorrentResult.t) :=
  let query :=
    seriesName ++ " S" ++ JS.padStart (JS.Number_toString season) 2 "0"
               ++ "E" ++ JS.padStart (JS.Number_toString episode) 2 "0" in
  (* the promise of [search] is returned without [await]: its outcome is
     the outcome of [searchEpisode], and building the query cannot throw *)
  search query series.

(** The provider as the registry holds it. *)
Definition provider (enabled : bool) : ScraperProvider.t :=
  {| ScraperProvider.id := id;
     ScraperProvider.name := "LimeTorrents";
     ScraperProvider.enabled := enabled;
     ScraperProvider.search := search;
     ScraperProvider.searchEpisode := searchEpisode |}.

End Scraper.

End LimeTorrents.

(** ** electron/providers/debrid/real-debrid.ts *)
Module RealDebrid.

Module RealDebridUser.
Record t : Type := {
  id : Z;
  username : string;
  email : string;
  premium : Z;
  expiration : string
}.
End RealDebridUser.

(** An entry of [RealDebridTorrent.files]. *)
Module TorrentFile.
Record t : Type := {
  id : Z;
  path : string;
  bytes : Z;
  selected : Z
}.
End TorrentFile.

Module RealDebridTorrent.
Record t : Type := {
  id : string;
  filename : string;
  hash : string;
  bytes : Z;
  status : string;
  added : string;
  links : list string;          (* absent is the empty list *)
  ended : option string;
  progress : Z;
  files : option (list TorrentFile.t)
}.
End RealDebridTorrent.

Module RealDebridUnrestrict.
Record t : Type := {
  id : string;
  filename : string;
  download : string;
  streamable : Z
}.
End RealDebridUnrestrict.

(** *** The remote service

    The requests the provider issues through [this.client], and the service
    that answers them.  An answer may depend on everything sent before (the
    service has a state of its own) and on the Authorization header the
    client attaches. *)
Inductive Request : Type :=
| GetUser                                       (* GET /user *)
| PostAddMagnet (magnet : string)               (* POST /torrents/addMagnet *)
| GetTorrentInfo (id : string)                  (* GET /torrents/info/:id *)
| PostSelectFiles (id : string) (files : string) (* POST /torrents/selectFiles/:id *)
| PostUnrestrictLink (link : string)            (* POST /unrestrict/link *)
| DeleteTorrent (id : string)                   (* DELETE /torrents/delete/:id *).

Record Sent : Type := {
  sent_authorization : option string;
  sent_request : Request
}.

Record Remote : Type := {
  user : list Sent -> option string -> result RealDebridUser.t;
  addMagnetId : list Sent -> option string -> string -> result string;
  torrentInfo : list Sent -> option string -> string -> result RealDebridTorrent.t;
  selectFiles : list Sent -> option string -> string -> string -> result unit;
  unrestrictLink : list Sent -> option string -> string -> result RealDebridUnrestrict.t;
  deleteTorrent : list Sent -> option string -> string -> result unit;
  now : string                                  (* new Date() *)
}.

(** *** The provider instance

    Its mutable fields, the Authorization header stored in the defaults of
    its HTTP client, and the log of the requests issued so far. *)
Record State : Type := {
  enabled : bool;
  apiKey : option string;
  authorization : option string;
  account : option ProviderAccount.t;
  log : list Sent
}.

Definition set_enabled (b : bool) (s : State) : State :=
  {| enabled := b; apiKey := apiKey s; authorization := authorization s;
     account := account s; log := log s |}.

Definition set_apiKey (k : option string) (s : State) : State :=
  {| enabled := enabled s; apiKey := k; authorization := authorization s;
     account := account s; log := log s |}.

Definition set_authorization (h : option string) (s : State) : State :=
  {| enabled := enabled s; apiKey := apiKey s; authorization := h;
     account := account s; log := log s |}.

Definition set_account (a : option ProviderAccount.t) (s : State) : State :=
  {| enabled := enabled s; apiKey := apiKey s; authorization := authorization s;
     account := a; log := log s |}.

Definition set_log (l : list Sent) (s : State) : State :=
  {| enabled := enabled s; apiKey := apiKey s; authorization := authorization s;
     account := account s; log := l |}.

(** The state of [new RealDebridProvider()]. *)
Definition initial : State :=
  {| enabled := false; apiKey := None; authorization := None;
     account := None; log := [] |}.

(** *** Methods as state transformers that may throw

    A method maps the state it starts in to its outcome and the state it
    leaves; what was assigned before a [throw] stays assigned. *)
Definition M (A : Type) : Type := State -> result A * State.

Definition ret {A : Type} (a : A) : M A := fun s => (Ok a, s).

Definition throw {A : Type} (e : Exception) : M A := fun s => (Err e, s).

Definition bind {A B : Type} (m : M A) (k : A -> M B) : M B :=
  fun s => match m s with
           | (Ok a, s') => k a s'
           | (Err e, s') => (Err e, s')
           end.

Definition try_catch {A : Type} (body : M A) (handler : Exception -> M A)
  : M A :=
  fun s => match body s with
           | (Ok a, s') => (Ok a, s')
           | (Err e, s') => handler e s'
           end.

Definition modify (f : State -> State) : M unit := fun s => (Ok tt, f s).

Definition read {A : Type} (f : State -> A) : M A := fun s => (Ok (f s), s).

Definition handleError {A : Type} (e : Exception) (context : string) : M A :=
  fun s => (BaseProvider.handleError e context, s).

Declare Scope rd_scope.
Delimit Scope rd_scope with rd.
Notation "x <- m ;; k" := (bind m (fun x => k))
  (at level 61, m at next level, right associativity) : rd_scope.
Notation "m ;; k" := (bind m (fun _ => k))
  (at level 61, right associativity) : rd_scope.

(** One request: it is logged with the header in force, and answered. *)
Definition send {A : Type} (r : Request)
           (answer : list Sent -> option string -> result A) : M A :=
  fun s =>
    (answer (log s) (authorization s),
     set_log (log s ++ [ {| sent_authorization := authorization s;
                            sent_request := r |} ]) s).

Definition statusMap : list (string * TransferStatus) :=
  [ ("magnet_error", error);
    ("magnet_conversion", queued);
    ("waiting_files_selection", queued);
    ("queued", queued);
    ("downloading", downloading);
    ("downloaded", ready);
    ("error", error);
    ("virus", error);
    ("dead", error) ].

Definition mapTorrentToTransfer (torrent : RealDebridTorrent.t)
  : DebridTransfer.t :=
  let files :=
    match RealDebridTorrent.files torrent with
    | Some fs =>
        map (fun f => {| DebridFile.id := JS.Number_toString (TorrentFile.id f);
                         DebridFile.name := TorrentFile.path f;
                         DebridFile.size := TorrentFile.bytes f;
                         DebridFile.streamUrl := None |}) fs
    | None => []
    end in
  {| DebridTransfer.id := RealDebridTorrent.id torrent;
     DebridTransfer.magnetUri :=
       "magnet:?xt=urn:btih:" ++ RealDebridTorrent.hash torrent;
     DebridTransfer.name := RealDebridTorrent.filename torrent;
     DebridTransfer.status :=
       (* statusMap[torrent.status] || 'queued' *)
       match JS.get statusMap (RealDebridTorrent.status torrent) with
       | JS.Own s => Status s
       | JS.Inherited m => PrototypeMember m
       | JS.Undefined => Status queued
       end;
     DebridTransfer.progress := RealDebridTorrent.progress torrent;
     DebridTransfer.files := files;
     DebridTransfer.error := None |}.

Definition video_extensions : list string :=
  ["mp4"; "mkv"; "avi"; "mov"; "wmv"; "flv"; "webm"].

(** [s] is [p] up to the case of ASCII letters. *)
Fixpoint equal_ci (p s : string) : bool :=
  match p, s with
  | EmptyString, EmptyString => true
  | String a p', String b s' => JS.eqb_ci a b && equal_ci p' s'
  | _, _ => false
  end.

(** [/\.(mp4|mkv|avi|mov|wmv|flv|webm)$/i] matched at the head of [s]: a
    dot, one of the extensions, and the end of the string. *)
Definition video_at_head (s : string) : bool :=
  match s with
  | String c r =>
      Ascii.eqb c "." && existsb (fun e => equal_ci e r) video_extensions
  | EmptyString => false
  end.

(** [/\.(mp4|mkv|avi|mov|wmv|flv|webm)$/i.test(path)]. *)
Fixpoint test_video (path : string) : bool :=
  video_at_head path
  || match path with
     | EmptyString => false
     | String _ r => test_video r
     end.

(** The objects of an array with their positions.  Objects are references:
    [files.indexOf(f)] is the position [f] was taken from, whatever the other
    entries contain. *)
Definition indexed {A : Type} (l : list A) : list (nat * A) :=
  combine (seq 0 (List.length l)) l.

(** [(prev, current) => current.bytes > prev.bytes ? current : prev]. *)
Definition larger (prev current : nat * TorrentFile.t) : nat * TorrentFile.t :=
  if TorrentFile.bytes (snd prev) <? TorrentFile.bytes (snd current)
  then current else prev.

(** The value of [linkToUnrestrict] when the unrestrict request is built
    (lines 197-218); [first] is [torrent.links[0]]. *)
Definition linkToUnrestrict (torrent : RealDebridTorrent.t)
           (fileId : option string) (first : string) : string :=
  let links := RealDebridTorrent.links torrent in
  match JS.truthy fileId, fileId, RealDebridTorrent.files torrent with
  | true, Some fid, Some files =>
      match JS.findIndex
              (fun f => match JS.parseInt fid with
                        | Some n => TorrentFile.id f =? n
                        | None => false
                        end) files with
      | Some fileIndex =>
          if (fileIndex <? List.length links)%nat
          then nth fileIndex links first else first
      | None => first
      end
  | _, _, Some files =>
      if (1 <? List.length files)%nat then
        match filter (fun f => test_video (TorrentFile.path (snd f)))
                     (indexed files) with
        | [] => first
        | v :: vs =>
            let largestVideo := fold_left larger vs v in
            let videoIndex := fst largestVideo in
            if (videoIndex <? List.length links)%nat
            then nth videoIndex links first else first
        end
      else first
  | _, _, None => first
  end.

Section Provider.

Variable remote : Remote.

Local Open Scope rd_scope.

Definition initialize : M unit := modify (set_enabled true).

Definition shutdown : M unit :=
  modify (set_enabled false) ;;
  modify (set_apiKey None) ;;
  modify (set_account None).

Definition authenticate (credentials : DebridCredentials.t)
  : M ProviderAccount.t :=
  try_catch
    (match JS.truthy (DebridCredentials.apiKey credentials),
           DebridCredentials.apiKey credentials with
     | true, Some key =>
         modify (set_apiKey (Some key)) ;;
         modify (set_authorization (Some ("Bearer " ++ key))) ;;
         u <- send GetUser (user remote) ;;
         let acc :=
           {| ProviderAccount.id := JS.Number_toString (RealDebridUser.id u);
              ProviderAccount.providerId := "real-debrid";
              ProviderAccount.username := Some (RealDebridUser.username u);
              ProviderAccount.email := Some (RealDebridUser.email u);
              ProviderAccount.premium := 0 <? RealDebridUser.premium u;
              ProviderAccount.expiresAt := Some (RealDebridUser.expiration u);
              ProviderAccount.createdAt := now remote;
              ProviderAccount.updatedAt := now remote |} in
         modify (set_account (Some acc)) ;;
         ret acc
     | _, _ => throw ApiKeyRequired
     end)
    (fun e => modify (set_apiKey None) ;; handleError e "authenticate").

(** The guard every other method starts with:
    [if (!this.apiKey) throw new Error('Not authenticated ...')]. *)
Definition requireApiKey : M unit :=
  k <- read apiKey ;;
  if JS.truthy k then ret tt else throw NotAuthenticated.

Definition checkStatus : M ProviderStatus.t :=
  try_catch
    (requireApiKey ;;
     u <- send GetUser (user remote) ;;
     ret {| ProviderStatus.online := true;
            ProviderStatus.premium := 0 <? RealDebridUser.premium u;
            ProviderStatus.expiresAt := Some (RealDebridUser.expiration u) |})
    (fun e => handleError e "checkStatus").

Definition addMagnet (magnetUri : string) : M DebridTransfer.t :=
  try_catch
    (requireApiKey ;;
     torrentId <- send (PostAddMagnet magnetUri)
                       (fun l h => addMagnetId remote l h magnetUri) ;;
     torrent <- send (GetTorrentInfo torrentId)
                     (fun l h => torrentInfo remote l h torrentId) ;;
     match RealDebridTorrent.files torrent with
     | Some (f :: fs) =>
         let fileIds :=
           String.concat ","
             (map (fun f => JS.Number_toString (TorrentFile.id f)) (f :: fs)) in
         send (PostSelectFiles torrentId fileIds)
              (fun l h => selectFiles remote l h torrentId fileIds)
     | _ => ret tt
     end ;;
     ret (mapTorrentToTransfer torrent))
    (fun e => handleError e "addMagnet").

Definition getTransferStatus (transferId : string) : M DebridTransfer.t :=
  try_catch
    (requireApiKey ;;
     torrent <- send (GetTorrentInfo transferId)
                     (fun l h => torrentInfo remote l h transferId) ;;
     ret (mapTorrentToTransfer torrent))
    (fun e => handleError e "getTransferStatus").

Definition getStreamUrl (transferId : string) (fileId : option string)
  : M string :=
  try_catch
    (requireApiKey ;;
     torrent <- send (GetTorrentInfo transferId)
                     (fun l h => torrentInfo remote l h transferId) ;;
     if negb (String.eqb (RealDebridTorrent.status torrent) "downloaded")
     then throw (TorrentNotReady (RealDebridTorrent.status torrent))
     else
       match RealDebridTorrent.links torrent with
       | [] => throw NoLinksAvailable
       | first :: _ =>
           let link := linkToUnrestrict torrent fileId first in
           u <- send (PostUnrestrictLink link)
                     (fun l h => unrestrictLink remote l h link) ;;
           ret (RealDebridUnrestrict.download u)
       end)
    (fun e => handleError e "getStreamUrl").

Definition deleteTransfer (transferId : string) : M unit :=
  try_catch
    (requireApiKey ;;
     send (DeleteTorrent transferId)
          (fun l h => deleteTorrent remote l h transferId))
    (fun e => handleError e "deleteTransfer").

End Provider.

End RealDebrid.

(** ** electron/providers/provider-manager.ts *)
Module ProviderManager.

(** [Map.prototype.set] on a [Map] kept in insertion order: the value of a
    key already present is replaced where it stands, a new key goes last. *)
Fixpoint map_set {V : Type} (m : list (string * V)) (k : string) (v : V)
  : list (string * V) :=
  match m with
  | [] => [(k, v)]
  | (k', v') :: r =>
      if String.eqb k' k then (k, v) :: r else (k', v') :: map_set r k v
  end.

Fixpoint map_get {V : Type} (m : list (string * V)) (k : string) : option V :=
  match m with
  | [] => None
  | (k', v') :: r => if String.eqb k' k then Some v' else map_get r k
  end.

(** The part of the registry the search handlers read. *)
Record t : Type := {
  scrapers : list (string * ScraperProvider.t)
}.

Definition empty : t := {| scrapers := [] |}.

Definition registerProvider (pm : t) (provider : ScraperProvider.t) : t :=
  {| scrapers := map_set (scrapers pm) (ScraperProvider.id provider) provider |}.

Definition getScraper (pm : t) (id : string) : option ScraperProvider.t :=
  map_get (scrapers pm) id.

Definition getAllScrapers (pm : t) : list ScraperProvider.t :=
  map snd (scrapers pm).

End ProviderManager.

(** ** electron/main/ipc-handlers.ts *)
Module IpcHandlers.

(** The argument of a handler, of type [unknown]: an object with fields
    holding strings or numbers, or anything else. *)
Inductive Field : Type :=
| FString (s : string)
| FNumber (n : Z)
| FOther.

Inductive Data : Type :=
| DObject (fields : list (string * Field))
| DOther.

Definition field (fields : list (string * Field)) (k : string) : option Field :=
  ProviderManager.map_get fields k.

Record MediaSearch : Type := {
  ms_query : string;
  ms_year : option Z;
  ms_type : option MediaType
}.

Record EpisodeSearch : Type := {
  es_seriesName : string;
  es_season : Z;
  es_episode : Z
}.

(** [z.string().min(1)]. *)
Definition nonempty_string (f : option Field) : option string :=
  match f with
  | Some (FString s) => if JS.is_empty s then None else Some s
  | _ => None
  end.

(** [z.number().min(1)]. *)
Definition number_min1 (f : option Field) : option Z :=
  match f with
  | Some (FNumber n) => if 1 <=? n then Some n else None
  | _ => None
  end.

(** [z.number().optional()]: [None] when the field is ill-typed. *)
Definition optional_number (f : option Field) : option (option Z) :=
  match f with
  | None => Some None
  | Some (FNumber n) => Some (Some n)
  | Some _ => None
  end.

(** [z.enum(['movie', 'series', 'anime']).optional()]. *)
Definition optional_type (f : option Field) : option (option MediaType) :=
  match f with
  | None => Some None
  | Some (FString s) =>
      if String.eqb s "movie" then Some (Some movie)
      else if String.eqb s "series" then Some (Some series)
      else if String.eqb s "anime" then Some (Some anime)
      else None
  | Some _ => None
  end.

(** [schema.safeParse(data)]: the parsed value on success. *)
Definition MediaSearchSchema (data : Data) : option MediaSearch :=
  match data with
  | DObject fs =>
      match nonempty_string (field fs "query"),
            optional_number (field fs "year"),
            optional_type (field fs "type") with
      | Some q, Some y, Some t =>
          Some {| ms_query := q; ms_year := y; ms_type := t |}
      | _, _, _ => None
      end
  | DOther => None
  end.

Definition EpisodeSearchSchema (data : Data) : option EpisodeSearch :=
  match data with
  | DObject fs =>
      match nonempty_string (field fs "seriesName"),
            number_min1 (field fs "season"),
            number_min1 (field fs "episode") with
      | Some n, Some s, Some e =>
          Some {| es_seriesName := n; es_season := s; es_episode := e |}
      | _, _, _ => None
      end
  | DOther => None
  end.

Definition validateInput {T : Type} (schema : Data -> option T) (data : Data)
  : result T :=
  match schema data with
  | Some v => Ok v
  | None => Err ValidationFailed
  end.

(** [(a, b) => b.seeders - a.seeders]. *)
Definition bySeeders (a b : TorrentResult.t) : Z :=
  TorrentResult.seeders b - TorrentResult.seeders a.

(** [results.filter(r => r.status === 'fulfilled').flatMap(r => r.value)]. *)
Definition fulfilledValues {A : Type} (results : list (result (list A)))
  : list A :=
  flat_map (fun r => match r with Ok value => value | Err _ => [] end)
           (filter is_ok results).

(** The handler of ['torrent:search'].  [Promise.allSettled] collects every
    outcome and throws none; the [catch] of the handler logs and throws
    again. *)
Definition torrent_search (pm : ProviderManager.t) (data : Data)
  : result (list TorrentResult.t) :=
  match validateInput MediaSearchSchema data with
  | Err e => Err e
  | Ok validated =>
      let scrapers :=
        filter ScraperProvider.enabled (ProviderManager.getAllScrapers pm) in
      if (List.length scrapers =? 0)%nat then Err NoScrapersAvailable
      else
        let results :=
          map (fun scraper =>
                 ScraperProvider.search scraper (ms_query validated)
                   (match ms_type validated with
                    | Some t => t
                    | None => movie
                    end)) scrapers in
        let allResults := fulfilledValues results in
        Ok (JS.sort bySeeders allResults)
  end.

(** The handler of ['torrent:search-episode']. *)
Definition torrent_search_episode (pm : ProviderManager.t) (data : Data)
  : result (list TorrentResult.t) :=
  match validateInput EpisodeSearchSchema data with
  | Err e => Err e
  | Ok validated =>
      let scrapers :=
        filter ScraperProvider.enabled (ProviderManager.getAllScrapers pm) in
      if (List.length scrapers =? 0)%nat then Err NoScrapersAvailable
      else
        let results :=
          map (fun scraper =>
                 ScraperProvider.searchEpisode scraper (es_seriesName validated)
                   (es_season validated) (es_episode validated)) scrapers in
        let allResults := fulfilledValues results in
        Ok (JS.sort bySeeders allResults)
  end.

End IpcHandlers.

(** ** The vocabulary of the design document *)
Module Spec.

(** *** Ranking *)

(** Sorted descending by seeder count: for all positions [i < j],
    [result[i].seeders >= result[j].seeders]. *)
Definition sorted_by_seeders (l : list TorrentResult.t) : Prop :=
  forall i j a b,
    (i < j)%nat -> nth_error l i = Some a -> nth_error l j = Some b ->
    TorrentResult.seeders a >= TorrentResult.seeders b.

Definition has_seeders (k : Z) (r : TorrentResult.t) : bool :=
  TorrentResult.seeders r =? k.

(** [a] stands at a position of [l] before a position where [b] stands. *)
Definition precedes {A : Type} (a b : A) (l : list A) : Prop :=
  exists l1 l2 l3, l = (l1 ++ a :: l2 ++ b :: l3)%list.

(** *** Aggregation *)

Definition enabledScrapers (pm : ProviderManager.t) : list ScraperProvider.t :=
  filter ScraperProvider.enabled (ProviderManager.getAllScrapers pm).

(** The results of the backends that succeeded, in enumeration order. *)
Fixpoint successes {A : Type} (outcomes : list (result A)) : list A :=
  match outcomes with
  | [] => []
  | Ok v :: r => v :: successes r
  | Err _ :: r => successes r
  end.

(** The outcome of every enabled backend, in enumeration order, for a
    validated search and for a validated episode search. *)
Definition search_outcomes (pm : ProviderManager.t)
           (v : IpcHandlers.MediaSearch)
  : list (result (list TorrentResult.t)) :=
  map (fun scraper =>
         ScraperProvider.search scraper (IpcHandlers.ms_query v)
           (match IpcHandlers.ms_type v with Some t => t | None => movie end))
      (enabledScrapers pm).

Definition episode_outcomes (pm : ProviderManager.t)
           (v : IpcHandlers.EpisodeSearch)
  : list (result (list TorrentResult.t)) :=
  map (fun scraper =>
         ScraperProvider.searchEpisode scraper (IpcHandlers.es_seriesName v)
           (IpcHandlers.es_season v) (IpcHandlers.es_episode v))
      (enabledScrapers pm).

(** Ties are broken by input order: among the results of one seeder count
    the gathered order is kept, so a candidate of a backend enumerated
    earlier stands before an equally seeded candidate of a later one. *)
Definition ties_by_input_order (outcomes : list (result (list TorrentResult.t)))
           (results : list TorrentResult.t) : Prop :=
  (forall k, filter (has_seeders k) results
             = filter (has_seeders k) (List.concat (successes outcomes)))
  /\ (forall o1 p o2 q o3 a b,
         outcomes = (o1 ++ Ok p :: o2 ++ Ok q :: o3)%list ->
         In a p -> In b q ->
         TorrentResult.seeders a = TorrentResult.seeders b ->
         precedes a b results).

(** *** Episode queries *)

(** The conversion [%02d] of printf: the number in decimal, as the
    printer of the standard library writes an integer, with a zero in front
    when that is a single character. *)
Definition printf_02d (n : Z) : string :=
  let s := DecimalString.NilZero.string_of_int (Z.to_int n) in
  if (String.length s <? 2)%nat then String "0" s else s.

(** The episode search is the search on the padded query. *)
Definition episode_search_is_padded_search
           (http_get : string -> result string)
           (table_rows : string -> list LimeTorrents.Row)
           (seriesName : string) (season episode : Z) : Prop :=
  LimeTorrents.searchEpisode http_get table_rows seriesName season episode
  = LimeTorrents.search http_get table_rows
      (seriesName ++ " S" ++ printf_02d season ++ "E" ++ printf_02d episode)
      series.

(** *** Sizes *)

Fixpoint all_digits (s : string) : bool :=
  match s with
  | EmptyString => true
  | String c r => JS.is_digit c && all_digits r
  end.

(** A decimal number as it is written: digits, then possibly a dot and
    more digits. *)
Record Decimal : Type := {
  integer_part : string;
  fraction_part : option string
}.

Definition digits (s : string) : bool := negb (JS.is_empty s) && all_digits s.



(** The number a run of digits denotes, by the weight of each position. *)
Fixpoint denoted (s : string) : Z :=
  match s with
  | EmptyString => 0
  | String c r =>
      match JS.digit_of c with
      | Some d => d * 10 ^ Z.of_nat (String.length r) + denoted r
      | None => 0
      end
  end.








(** *** Magnet URIs *)

(** A content hash: 40 hexadecimal characters. *)
Fixpoint all_hex (s : string) : bool :=
  match s with
  | EmptyString => true
  | String c r => JS.is_hex_digit c && all_hex r
  end.

Definition content_hash (h : string) : bool :=
  (String.length h =? 40)%nat && all_hex h.

(** The pieces of [s] between the occurrences of [sep]. *)
Fixpoint split_on (sep : ascii) (s : string) : list string :=
  match s with
  | EmptyString => [EmptyString]
  | String c r =>
      if Ascii.eqb c sep then EmptyString :: split_on sep r
      else match split_on sep r with
           | h :: t => String c h :: t
           | [] => [String c EmptyString]
           end
  end.

Fixpoint first_param (key : string) (params : list string) : option string :=
  match params with
  | [] => None
  | p :: r =>
      match JS.strip_prefix (key ++ "=") p with
      | Some v => Some v
      | None => first_param key r
      end
  end.

(** Modelled from the spec: a parser of the [xt] parameter of a magnet URI,
    which the repository does not contain (it only builds magnet URIs).  The
    URI is [magnet:?] followed by [key=value] pairs separated by [&]; the
    content hash is what follows [urn:btih:] in the value of the first
    [xt]. *)
Definition parse_xt (uri : string) : option string :=
  match JS.strip_prefix "magnet:?" uri with
  | Some query =>
      match first_param "xt" (split_on "&" query) with
      | Some v => JS.strip_prefix "urn:btih:" v
      | None => None
      end
  | None => None
  end.

(** Equality of two strings up to the case of letters. *)
Definition same_ci (a b : string) : Prop :=
  JS.toLowerCase a = JS.toLowerCase b.

(** *** Stream extraction *)

(** The unrestrict requests of a log, by the link each one carries. *)
Fixpoint unrestricted (l : list RealDebrid.Sent) : list string :=
  match l with
  | [] => []
  | m :: r =>
      match RealDebrid.sent_request m with
      | RealDebrid.PostUnrestrictLink link => link :: unrestricted r
      | _ => unrestricted r
      end
  end.

Definition fails {A : Type} (run : result A * RealDebrid.State) : Prop :=
  exists e, fst run = Err e.

(** An explicit file identifier designates the file [f]. *)
Definition designates (fileId : string) (f : RealDebrid.TorrentFile.t) : Prop :=
  JS.parseInt fileId = Some (RealDebrid.TorrentFile.id f).

(** The name ends in a dot and one of the video extensions, in any case. *)
Definition video_name (path : string) : Prop :=
  exists stem ext' ext,
    In ext RealDebrid.video_extensions
    /\ path = stem ++ String "." ext'
    /\ JS.toUpperCase ext' = JS.toUpperCase ext.

(** The file at position [i] is the largest video file, the first one of
    that size. *)
Definition largest_video (files : list RealDebrid.TorrentFile.t) (i : nat)
  : Prop :=
  exists f,
    nth_error files i = Some f
    /\ video_name (RealDebrid.TorrentFile.path f)
    /\ (forall j g, nth_error files j = Some g ->
                    video_name (RealDebrid.TorrentFile.path g) ->
                    RealDebrid.TorrentFile.bytes g <= RealDebrid.TorrentFile.bytes f)
    /\ (forall j g, (j < i)%nat -> nth_error files j = Some g ->
                    video_name (RealDebrid.TorrentFile.path g) ->
                    RealDebrid.TorrentFile.bytes g < RealDebrid.TorrentFile.bytes f).

Definition no_video (files : list RealDebrid.TorrentFile.t) : Prop :=
  forall f, In f files -> ~ video_name (RealDebrid.TorrentFile.path f).

(** The file selection of the design document, for a transfer of several
    files and no explicit file identifier: [link] is the link of the largest
    video file, or the first link when no file is a video. *)
Definition selects_biggest_video (torrent : RealDebrid.RealDebridTorrent.t)
           (files : list RealDebrid.TorrentFile.t) (link : string) : Prop :=
  (exists i, largest_video files i
             /\ nth_error (RealDebrid.RealDebridTorrent.links torrent) i = Some link)
  \/ (no_video files
      /\ nth_error (RealDebrid.RealDebridTorrent.links torrent) 0 = Some link).

(** The failure contract of [getStreamUrl] in the design document, at one
    call: [run] is the outcome of the call started in state [s], for a
    transfer the service describes as [torrent]. *)
Definition stream_failure_contract (torrent : RealDebrid.RealDebridTorrent.t)
           (fileId : option string) (s : RealDebrid.State)
           (run : result string * RealDebrid.State) : Prop :=
  (DebridTransfer.status (RealDebrid.mapTorrentToTransfer torrent) <> Status ready ->
   fails run /\ unrestricted (RealDebrid.log (snd run)) = unrestricted (RealDebrid.log s))
  /\ (DebridTransfer.files (RealDebrid.mapTorrentToTransfer torrent) = [] ->
      fails run)
  /\ (forall fid files,
         fileId = Some fid -> fid <> EmptyString ->
         RealDebrid.RealDebridTorrent.files torrent = Some files ->
         (forall f, In f files -> ~ designates fid f) ->
         fails run).

(** The invariant of the design document on a transfer: an error status
    comes with a non-empty error detail. *)
Definition error_has_detail (t : DebridTransfer.t) : Prop :=
  DebridTransfer.status t = Status error ->
  JS.truthy (DebridTransfer.error t) = true.

(** The statuses this backend is meant to produce. *)
Definition produced_status (v : StatusValue) : Prop :=
  v = Status queued \/ v = Status downloading
  \/ v = Status ready \/ v = Status error.

(** *** Sessions *)

(** The backend holds no session token: no API key, and no Authorization
    header made of one in the defaults of its client. *)
Definition holds_no_token (s : RealDebrid.State) : Prop :=
  RealDebrid.apiKey s = None /\ RealDebrid.authorization s = None.

(** The contract of the design document on an [authenticate] that fails,
    at one call started in state [s]: the backend is left with no session
    token, and [checkStatus] then fails as not authenticated. *)
Definition failure_discards_token (remote : RealDebrid.Remote)
           (credentials : DebridCredentials.t) (s : RealDebrid.State) : Prop :=
  forall e,
    fst (RealDebrid.authenticate remote credentials s) = Err e ->
    holds_no_token (snd (RealDebrid.authenticate remote credentials s))
    /\ fst (RealDebrid.checkStatus remote
              (snd (RealDebrid.authenticate remote credentials s)))
       = Err NotAuthenticated.

End Spec.

(** ** Sample data *)
Module Examples.

Definition candidate (name : string) (seeders : Z) (provider : string)
  : TorrentResult.t :=
  {| TorrentResult.id := "0123456789abcdef0123456789abcdef01234567";
     TorrentResult.name := name;
     TorrentResult.size := JS.Num (inject_Z 0);
     TorrentResult.seeders := seeders;
     TorrentResult.leechers := 0;
     TorrentResult.magnetUri :=
       LimeTorrents.buildMagnetUri "0123456789abcdef0123456789abcdef01234567" name;
     TorrentResult.infoHash := "0123456789abcdef0123456789abcdef01234567";
     TorrentResult.uploadDate := None;
     TorrentResult.quality := None;
     TorrentResult.source := None;
     TorrentResult.providerId := provider |}.

Definition backend (id : string) (enabled : bool)
           (outcome : result (list TorrentResult.t)) : ScraperProvider.t :=
  {| ScraperProvider.id := id;
     ScraperProvider.name := id;
     ScraperProvider.enabled := enabled;
     ScraperProvider.search := fun _ _ => outcome;
     ScraperProvider.searchEpisode := fun _ _ _ => outcome |}.

Definition first_results : list TorrentResult.t :=
  [candidate "a1" 5 "first"; candidate "a2" 3 "first"].

Definition third_results : list TorrentResult.t :=
  [candidate "c1" 9 "third"; candidate "c2" 5 "third"].

(** Three registered backends: two succeed, the second one throws. *)
Definition three_backends : ProviderManager.t :=
  ProviderManager.registerProvider
    (ProviderManager.registerProvider
       (ProviderManager.registerProvider ProviderManager.empty
          (backend "first" true (Ok first_results)))
       (backend "second" true (Err (RemoteFailure "timeout"))))
    (backend "third" true (Ok third_results)).

(** A registry whose only backend is disabled. *)
Definition none_enabled : ProviderManager.t :=
  ProviderManager.registerProvider ProviderManager.empty
    (backend "first" false (Ok first_results)).

Definition foo_query : IpcHandlers.Data :=
  IpcHandlers.DObject [("query", IpcHandlers.FString "Foo")].

Definition foo_search : IpcHandlers.MediaSearch :=
  {| IpcHandlers.ms_query := "Foo";
     IpcHandlers.ms_year := None;
     IpcHandlers.ms_type := None |}.

Definition foo_episode_query : IpcHandlers.Data :=
  IpcHandlers.DObject
    [("seriesName", IpcHandlers.FString "Foo");
     ("season", IpcHandlers.FNumber 2);
     ("episode", IpcHandlers.FNumber 5)].

Definition foo_episode : IpcHandlers.EpisodeSearch :=
  {| IpcHandlers.es_seriesName := "Foo";
     IpcHandlers.es_season := 2;
     IpcHandlers.es_episode := 5 |}.

(** A result page of two rows, for any URL. *)
Definition two_rows : list LimeTorrents.Row :=
  [ {| LimeTorrents.row_name := "Foo S02E05 720p";
       LimeTorrents.row_torrentLink :=
         Some "http://itorrents.org/torrent/0123456789ABCDEF0123456789ABCDEF01234567/foo.torrent";
       LimeTorrents.row_sizeText := "700 MB";
       LimeTorrents.row_seedersText := "12";
       LimeTorrents.row_leechersText := "3";
       LimeTorrents.row_dateText := "-" |};
    {| LimeTorrents.row_name := "Foo S02E05 1080p";
       LimeTorrents.row_torrentLink :=
         Some "http://itorrents.org/torrent/89ABCDEF0123456789ABCDEF0123456701234567/foo.torrent";
       LimeTorrents.row_sizeText := "1.5 GB";
       LimeTorrents.row_seedersText := "40";
       LimeTorrents.row_leechersText := "x";
       LimeTorrents.row_dateText := "1 Year+" |} ].

Definition any_page (url : string) : result string := Ok "<html>".

(** A site that has one page only. *)
Definition one_page (known : string) (url : string) : result string :=
  if String.eqb url known then Ok "<html>" else Err (RemoteFailure "404").
Definition rows_of (html : string) : list LimeTorrents.Row := two_rows.

(** An account service that accepts one key, and describes every transfer
    as [t]. *)
Definition file (id : Z) (path : string) (bytes : Z)
  : RealDebrid.TorrentFile.t :=
  {| RealDebrid.TorrentFile.id := id;
     RealDebrid.TorrentFile.path := path;
     RealDebrid.TorrentFile.bytes := bytes;
     RealDebrid.TorrentFile.selected := 1 |}.

Definition torrent (status : string) (links : list string)
           (files : option (list RealDebrid.TorrentFile.t))
  : RealDebrid.RealDebridTorrent.t :=
  {| RealDebrid.RealDebridTorrent.id := "T1";
     RealDebrid.RealDebridTorrent.filename := "Foo";
     RealDebrid.RealDebridTorrent.hash := "0123456789abcdef0123456789abcdef01234567";
     RealDebrid.RealDebridTorrent.bytes := 0;
     RealDebrid.RealDebridTorrent.status := status;
     RealDebrid.RealDebridTorrent.added := "2024-01-01";
     RealDebrid.RealDebridTorrent.links := links;
     RealDebrid.RealDebridTorrent.ended := None;
     RealDebrid.RealDebridTorrent.progress := 100;
     RealDebrid.RealDebridTorrent.files := files |}.

(** The transfer of the design document: an mp4 of 500 MB, an nfo of 1 KB
    and an mkv of 1.2 GB, with one link per file. *)
Definition season_pack : RealDebrid.RealDebridTorrent.t :=
  torrent "downloaded" ["https://rd/0"; "https://rd/1"; "https://rd/2"]
    (Some [file 1 "Foo/movie.mp4" 524288000; file 2 "Foo/info.nfo" 1024;
           file 3 "Foo/movie.mkv" 1288490189]).

(** Two files behind a single link. *)
Definition one_link : RealDebrid.RealDebridTorrent.t :=
  torrent "downloaded" ["https://rd/0"]
    (Some [file 1 "Foo/info.nfo" 1024; file 2 "Foo/movie.mkv" 1288490189]).

Definition still_downloading : RealDebrid.RealDebridTorrent.t :=
  torrent "downloading" [] (Some [file 1 "Foo/movie.mkv" 1288490189]).

Definition no_links : RealDebrid.RealDebridTorrent.t :=
  torrent "downloaded" [] (Some [file 1 "Foo/movie.mkv" 1288490189]).

Definition dead_source : RealDebrid.RealDebridTorrent.t :=
  torrent "dead" [] None.

Definition holder : RealDebrid.RealDebridUser.t :=
  {| RealDebrid.RealDebridUser.id := 4242;
     RealDebrid.RealDebridUser.username := "astra";
     RealDebrid.RealDebridUser.email := "astra@example.org";
     RealDebrid.RealDebridUser.premium := 86400;
     RealDebrid.RealDebridUser.expiration := "2027-01-01T00:00:00.000Z" |}.

Definition service (t : RealDebrid.RealDebridTorrent.t) : RealDebrid.Remote :=
  {| RealDebrid.user := fun _ h =>
       match h with
       | Some header =>
           if String.eqb header "Bearer good-key" then Ok holder
           else Err (RemoteFailure "401")
       | None => Err (RemoteFailure "401")
       end;
     RealDebrid.addMagnetId := fun _ _ _ => Ok "T1";
     RealDebrid.torrentInfo := fun _ _ _ => Ok t;
     RealDebrid.selectFiles := fun _ _ _ _ => Ok tt;
     RealDebrid.unrestrictLink := fun _ _ link =>
       Ok {| RealDebrid.RealDebridUnrestrict.id := "U1";
             RealDebrid.RealDebridUnrestrict.filename := "Foo";
             RealDebrid.RealDebridUnrestrict.download := "https://cdn/" ++ link;
             RealDebrid.RealDebridUnrestrict.streamable := 1 |};
     RealDebrid.deleteTorrent := fun _ _ _ => Ok tt;
     RealDebrid.now := "2026-01-01T00:00:00.000Z" |}.

Definition signed_in : RealDebrid.State :=
  {| RealDebrid.enabled := true;
     RealDebrid.apiKey := Some "good-key";
     RealDebrid.authorization := Some "Bearer good-key";
     RealDebrid.account := None;
     RealDebrid.log := [] |}.

Definition key (k : option string) : DebridCredentials.t :=
  {| DebridCredentials.apiKey := k;
     DebridCredentials.accessToken := None;
     DebridCredentials.refreshToken := None |}.

End Examples.

(** ** electron/providers/provider-manager.ts, in full *)
Module Registry.

Inductive ProviderType : Type := scraper | debrid | metadata.

Section Objects.

(** The provider objects, with what the registry reads of one ([id],
    [type]) and what it calls on one ([initialize], [shutdown]: the outcome
    of the call and the object as the call leaves it). *)
Context {P : Type}.
Variable id_of : P -> string.
Variable type_of : P -> ProviderType.
Variable initialize_of : P -> result unit * P.
Variable shutdown_of : P -> result unit * P.

(** The three maps hold references to the same objects: [objects] is the
    store of the objects by address, and a map sends an identifier to an
    address.  Maps keep their insertion order. *)
Record t : Type := {
  objects : list P;
  providers : list (string * nat);
  scrapers : list (string * nat);
  debridProviders : list (string * nat)
}.

Definition empty : t :=
  {| objects := []; providers := []; scrapers := []; debridProviders := [] |}.

(** [registerProvider(provider)], for a provider object that enters the
    store at a fresh address. *)
Definition registerProvider (r : t) (provider : P) : t :=
  let a := List.length (objects r) in
  {| objects := objects r ++ [provider];
     providers := ProviderManager.map_set (providers r) (id_of provider) a;
     scrapers :=
       match type_of provider with
       | scraper => ProviderManager.map_set (scrapers r) (id_of provider) a
       | _ => scrapers r
       end;
     debridProviders :=
       match type_of provider with
       | debrid => ProviderManager.map_set (debridProviders r) (id_of provider) a
       | _ => debridProviders r
       end |}.

Definition lookup (r : t) (m : list (string * nat)) (id : string) : option P :=
  match ProviderManager.map_get m id with
  | Some a => nth_error (objects r) a
  | None => None
  end.

Definition getProvider (r : t) (id : string) : option P :=
  lookup r (providers r) id.

Definition getScraper (r : t) (id : string) : option P :=
  lookup r (scrapers r) id.

Definition getDebridProvider (r : t) (id : string) : option P :=
  lookup r (debridProviders r) id.

(** [Array.from(map.values())]. *)
Fixpoint values (r : t) (m : list (string * nat)) : list P :=
  match m with
  | [] => []
  | (_, a) :: rest =>
      match nth_error (objects r) a with
      | Some p => p :: values r rest
      | None => values r rest
      end
  end.

Definition getAllProviders (r : t) : list P := values r (providers r).
Definition getAllScrapers (r : t) : list P := values r (scrapers r).
Definition getAllDebridProviders (r : t) : list P := values r (debridProviders r).

(** The object at address [a] replaced. *)
Fixpoint store_at (objs : list P) (a : nat) (p : P) : list P :=
  match objs, a with
  | [], _ => []
  | _ :: rest, O => p :: rest
  | x :: rest, S k => x :: store_at rest k p
  end.

(** The callbacks of [initializeAll] and [shutdownAll], run in the order of
    the map: each calls the method of its provider inside [try]/[catch], a
    failure is logged and dropped.  The methods of the providers of the
    repository contain no [await], so each call has run to its end before
    the next one starts. *)
Fixpoint each (method : P -> result unit * P) (addresses : list nat)
         (objs : list P) : list P :=
  match addresses with
  | [] => objs
  | a :: rest =>
      match nth_error objs a with
      | Some p => each method rest (store_at objs a (snd (method p)))
      | None => each method rest objs
      end
  end.

Definition with_objects (r : t) (objs : list P) : t :=
  {| objects := objs; providers := providers r; scrapers := scrapers r;
     debridProviders := debridProviders r |}.

(** [Promise.all] of promises that never reject. *)
Definition initializeAll (r : t) : result unit * t :=
  (Ok tt, with_objects r (each initialize_of (map snd (providers r)) (objects r))).

Definition shutdownAll (r : t) : result unit * t :=
  (Ok tt, with_objects r (each shutdown_of (map snd (providers r)) (objects r))).

(** What registration keeps true of one map of a registry: its keys are
    distinct, its addresses are distinct and in the store, and the object at
    the address of a key has that key for its id. *)
Definition tidy (objs : list P) (m : list (string * nat)) : Prop :=
  NoDup (map fst m)
  /\ NoDup (map snd m)
  /\ (forall k a, In (k, a) m ->
                  exists p, nth_error objs a = Some p /\ id_of p = k).

(** The registries the code can build: the empty one, then one
    registration after another. *)
Inductive built : t -> Prop :=
| built_empty : built empty
| built_register r p : built r -> built (registerProvider r p).

End Objects.

End Registry.

(** ** The registry of the application *)
Module App.

(** The two classes of providers the repository has. *)
Inductive Instance : Type :=
| LimeTorrentsScraperProvider (enabled : bool)
| RealDebridProvider (state : RealDebrid.State).

Definition id_of (i : Instance) : string :=
  match i with
  | LimeTorrentsScraperProvider _ => "limetorrents"
  | RealDebridProvider _ => "real-debrid"
  end.

Definition type_of (i : Instance) : Registry.ProviderType :=
  match i with
  | LimeTorrentsScraperProvider _ => Registry.scraper
  | RealDebridProvider _ => Registry.debrid
  end.

(** [initialize] and [shutdown] of the two classes. *)
Definition initialize_of (i : Instance) : result unit * Instance :=
  match i with
  | LimeTorrentsScraperProvider _ => (Ok tt, LimeTorrentsScraperProvider true)
  | RealDebridProvider s =>
      (fst (RealDebrid.initialize s), RealDebridProvider (snd (RealDebrid.initialize s)))
  end.

Definition shutdown_of (i : Instance) : result unit * Instance :=
  match i with
  | LimeTorrentsScraperProvider _ => (Ok tt, LimeTorrentsScraperProvider false)
  | RealDebridProvider s =>
      (fst (RealDebrid.shutdown s), RealDebridProvider (snd (RealDebrid.shutdown s)))
  end.

(** [registerDefaultProviders], on the registry of the constructor; a
    provider is born disabled ([BaseProvider.enabled = false]). *)
Definition registerDefaultProviders : Registry.t :=
  Registry.registerProvider id_of type_of
    (Registry.registerProvider id_of type_of Registry.empty
       (LimeTorrentsScraperProvider false))
    (RealDebridProvider RealDebrid.initial).

Section Handlers.

Variable http_get : string -> result string.
Variable table_rows : string -> list LimeTorrents.Row.

(** A scraper object as the search handlers use it. *)
Definition as_scraper (i : Instance) : option ScraperProvider.t :=
  match i with
  | LimeTorrentsScraperProvider enabled =>
      Some (LimeTorrents.provider http_get table_rows enabled)
  | RealDebridProvider _ => None
  end.

Fixpoint scraper_entries (r : Registry.t) (m : list (string * nat))
  : list (string * ScraperProvider.t) :=
  match m with
  | [] => []
  | (k, a) :: rest =>
      match nth_error (Registry.objects r) a with
      | Some i =>
          match as_scraper i with
          | Some s => (k, s) :: scraper_entries r rest
          | None => scraper_entries r rest
          end
      | None => scraper_entries r rest
      end
  end.

(** The scrapers of the registry, as [ProviderManager.getAllScrapers] hands
    them to the handlers. *)
Definition manager (r : Registry.t) : ProviderManager.t :=
  {| ProviderManager.scrapers := scraper_entries r (Registry.scrapers r) |}.

End Handlers.

End App.

(** ** Sessions of the Real-Debrid provider *)
Module Session.

(** A call of a method of the provider, with its arguments. *)
Inductive Call : Type :=
| Initialize
| Shutdown
| Authenticate (credentials : DebridCredentials.t)
| CheckStatus
| AddMagnet (magnetUri : string)
| GetTransferStatus (transferId : string)
| GetStreamUrl (transferId : string) (fileId : option string)
| DeleteTransfer (transferId : string).

Section Calls.

Variable remote : RealDebrid.Remote.

(** The state the call leaves, whether it returned or threw. *)
Definition perform (c : Call) (s : RealDebrid.State) : RealDebrid.State :=
  match c with
  | Initialize => snd (RealDebrid.initialize s)
  | Shutdown => snd (RealDebrid.shutdown s)
  | Authenticate credentials => snd (RealDebrid.authenticate remote credentials s)
  | CheckStatus => snd (RealDebrid.checkStatus remote s)
  | AddMagnet magnetUri => snd (RealDebrid.addMagnet remote magnetUri s)
  | GetTransferStatus transferId =>
      snd (RealDebrid.getTransferStatus remote transferId s)
  | GetStreamUrl transferId fileId =>
      snd (RealDebrid.getStreamUrl remote transferId fileId s)
  | DeleteTransfer transferId =>
      snd (RealDebrid.deleteTransfer remote transferId s)
  end.

(** The state of a new provider after a series of calls. *)
Definition after (calls : list Call) : RealDebrid.State :=
  fold_left (fun s c => perform c s) calls RealDebrid.initial.

End Calls.

(** The request went out with the header [Bearer k] of a non-empty key. *)
Definition bearer (k : string) (m : RealDebrid.Sent) : Prop :=
  k <> EmptyString
  /\ RealDebrid.sent_authorization m = Some ("Bearer " ++ k)%string.

(** The requests of a log, in order. *)
Definition requests (l : list RealDebrid.Sent) : list RealDebrid.Request :=
  map RealDebrid.sent_request l.

(** [s'] is [s] with more requests in its log, each sent with the header
    [s] has: the fields of the provider are the same. *)
Definition continues (s s' : RealDebrid.State) : Prop :=
  RealDebrid.enabled s' = RealDebrid.enabled s
  /\ RealDebrid.apiKey s' = RealDebrid.apiKey s
  /\ RealDebrid.authorization s' = RealDebrid.authorization s
  /\ RealDebrid.account s' = RealDebrid.account s
  /\ exists more,
      RealDebrid.log s' = (RealDebrid.log s ++ more)%list
      /\ Forall (fun m => RealDebrid.sent_authorization m = RealDebrid.authorization s)
                more.

(** A computation that only sends requests. *)
Definition keeps {A : Type} (m : RealDebrid.M A) : Prop :=
  forall s, continues s (snd (m s)).

(** A computation that does not look at the [enabled] flag: started with
    another flag it has the same outcome and leaves the same state, the flag
    apart. *)
Definition unaware {A : Type} (m : RealDebrid.M A) : Prop :=
  forall b s,
    m (RealDebrid.set_enabled b s)
    = (fst (m s), RealDebrid.set_enabled b (snd (m s))).

(** What holds of the provider whatever was called on it: a key in force
    is not empty and the client carries its header, and every request of the
    log went out with the header of some non-empty key. *)
Definition sound (s : RealDebrid.State) : Prop :=
  (forall k, RealDebrid.apiKey s = Some k ->
             k <> EmptyString
             /\ RealDebrid.authorization s = Some ("Bearer " ++ k)%string)
  /\ (forall m, In m (RealDebrid.log s) -> exists k, bearer k m).

End Session.

(** ** The handlers of the debrid channels that take a validated request *)
Module DebridHandlers.

(** What a handler throws: the error of the handler itself, the
    [TypeError] of calling a method its object does not have, or what
    validation or the provider threw. *)
Inductive Thrown : Type :=
| ProviderNotFound (providerId : string)
| NotAFunction
| Raised (e : Exception).

Inductive Reply (A : Type) : Type :=
| Returned (value : A)
| Failed (thrown : Thrown).
Arguments Returned {A} value.
Arguments Failed {A} thrown.

Definition settled {A : Type} (r : result A) : Reply A :=
  match r with
  | Ok value => Returned value
  | Err e => Failed (Raised e)
  end.

Record MagnetResolve : Type := {
  mr_magnetUri : string;
  mr_providerId : string
}.

Record StreamUrl : Type := {
  su_transferId : string;
  su_fileId : option string;
  su_providerId : string
}.

(** [z.string()]. *)
Definition any_string (f : option IpcHandlers.Field) : option string :=
  match f with
  | Some (IpcHandlers.FString s) => Some s
  | _ => None
  end.

(** [z.string().optional()]. *)
Definition optional_string (f : option IpcHandlers.Field)
  : option (option string) :=
  match f with
  | None => Some None
  | Some (IpcHandlers.FString s) => Some (Some s)
  | Some _ => None
  end.

(** [z.string().startsWith('magnet:')]. *)
Definition magnet_string (f : option IpcHandlers.Field) : option string :=
  match f with
  | Some (IpcHandlers.FString s) =>
      match JS.strip_prefix "magnet:" s with
      | Some _ => Some s
      | None => None
      end
  | _ => None
  end.

Definition MagnetResolveSchema (data : IpcHandlers.Data) : option MagnetResolve :=
  match data with
  | IpcHandlers.DObject fs =>
      match magnet_string (IpcHandlers.field fs "magnetUri"),
            any_string (IpcHandlers.field fs "providerId") with
      | Some m, Some p => Some {| mr_magnetUri := m; mr_providerId := p |}
      | _, _ => None
      end
  | IpcHandlers.DOther => None
  end.

Definition StreamUrlSchema (data : IpcHandlers.Data) : option StreamUrl :=
  match data with
  | IpcHandlers.DObject fs =>
      match any_string (IpcHandlers.field fs "transferId"),
            optional_string (IpcHandlers.field fs "fileId"),
            any_string (IpcHandlers.field fs "providerId") with
      | Some t, Some f, Some p =>
          Some {| su_transferId := t; su_fileId := f; su_providerId := p |}
      | _, _, _ => None
      end
  | IpcHandlers.DOther => None
  end.

Section Handlers.

Variable remote : RealDebrid.Remote.

(** [providerManager.getDebridProvider(id)], the test [if (!provider)], and
    the call of a method on the provider found: the method works on the
    object of the registry, which keeps what the call did to it. *)
Definition on_provider {A : Type} (r : Registry.t (P := App.Instance))
           (providerId : string) (method : RealDebrid.M A)
  : Reply A * Registry.t (P := App.Instance) :=
  match Registry.getDebridProvider r providerId,
        ProviderManager.map_get (Registry.debridProviders r) providerId with
  | Some (App.RealDebridProvider s), Some a =>
      (settled (fst (method s)),
       Registry.with_objects r
         (Registry.store_at (Registry.objects r) a
            (App.RealDebridProvider (snd (method s)))))
  | Some (App.LimeTorrentsScraperProvider _), _ => (Failed NotAFunction, r)
  | _, _ => (Failed (ProviderNotFound providerId), r)
  end.

(** The handler of ['debrid:resolve-magnet']. *)
Definition debrid_resolve_magnet (r : Registry.t (P := App.Instance))
           (data : IpcHandlers.Data)
  : Reply DebridTransfer.t * Registry.t (P := App.Instance) :=
  match IpcHandlers.validateInput MagnetResolveSchema data with
  | Err e => (Failed (Raised e), r)
  | Ok validated =>
      on_provider r (mr_providerId validated)
        (RealDebrid.addMagnet remote (mr_magnetUri validated))
  end.

(** The handler of ['debrid:get-stream-url']. *)
Definition debrid_get_stream_url (r : Registry.t (P := App.Instance))
           (data : IpcHandlers.Data)
  : Reply string * Registry.t (P := App.Instance) :=
  match IpcHandlers.validateInput StreamUrlSchema data with
  | Err e => (Failed (Raised e), r)
  | Ok validated =>
      on_provider r (su_providerId validated)
        (RealDebrid.getStreamUrl remote (su_transferId validated)
           (su_fileId validated))
  end.

End Handlers.

End DebridHandlers.

(** ** The handler of ['settings:update'], up to the statement it prepares *)
Module Settings.

(** A value of an entry of the request. *)
Inductive Value : Type :=
| VBoolean (b : bool)
| VNumber (n : Z)
| VString (s : string)
| VOther.

(** [[A-Z]]. *)
Definition is_capital (c : ascii) : bool :=
  (65 <=? JS.code c) && (JS.code c <=? 90).

(** [key.replace(/[A-Z]/g, letter => `_${letter.toLowerCase()}`)]. *)
Fixpoint dbKey (key : string) : string :=
  match key with
  | EmptyString => EmptyString
  | String c r =>
      if is_capital c then String "_" (String (JS.lower_char c) (dbKey r))
      else String c (dbKey r)
  end.

(** [typeof value === 'boolean' ? (value ? 1 : 0) : value]. *)
Definition bound (value : Value) : Value :=
  match value with
  | VBoolean b => VNumber (if b then 1 else 0)
  | _ => value
  end.

(** [updates] and [values] after the loop over [Object.entries(data)]. *)
Definition updates (entries : list (string * Value)) : list string :=
  map (fun e => (dbKey (fst e) ++ " = ?")%string) entries.

Definition values (entries : list (string * Value)) : list Value :=
  map (fun e => bound (snd e)) entries.

Definition line_break : string := String (ascii_of_nat 10) EmptyString.

(** The text handed to [db.prepare]. *)
Definition update_text (updates : list string) : string :=
  (line_break ++ "          UPDATE user_settings "
   ++ line_break ++ "          SET " ++ String.concat ", " updates
   ++ ", updated_at = CURRENT_TIMESTAMP"
   ++ line_break ++ "          WHERE id = ?"
   ++ line_break ++ "        ")%string.

(** The statement the handler prepares and the values it runs it with, if
    it prepares one. *)
Definition update_statement (entries : list (string * Value))
  : option (string * list Value) :=
  if (0 <? List.length (updates entries))%nat
  then Some (update_text (updates entries),
             (values entries ++ [VString "default"])%list)
  else None.

(** The fields of the settings the handlers answer, each with the column
    of [user_settings] it is read from. *)
Definition answered_fields : list (string * string) :=
  [ ("id", "id"); ("theme", "theme"); ("language", "language");
    ("autoPlay", "auto_play"); ("autoPlayNext", "auto_play_next");
    ("skipIntro", "skip_intro"); ("skipOutro", "skip_outro");
    ("defaultQuality", "default_quality");
    ("subtitleLanguage", "subtitle_language");
    ("subtitleSize", "subtitle_size"); ("volume", "volume");
    ("downloadPath", "download_path");
    ("enableNotifications", "enable_notifications");
    ("hardwareAcceleration", "hardware_acceleration");
    ("createdAt", "created_at"); ("updatedAt", "updated_at") ]%string.

End Settings.

(** ** Further vocabulary *)
Module Vocabulary.

(** The number of occurrences of a character. *)
Fixpoint count_char (c : ascii) (s : string) : nat :=
  match s with
  | EmptyString => O
  | String x r => if Ascii.eqb x c then S (count_char c r) else count_char c r
  end.

(** The characters of a string. *)
Definition chars (s : string) : list ascii := list_ascii_of_string s.

(** The link has a segment of 40 hexadecimal characters between two
    slashes, which reads [h] in lower case. *)
Definition holds_hash (link h : string) : Prop :=
  exists pre H post,
    link = (pre ++ String "/" (H ++ String "/" post))%string
    /\ Spec.content_hash H = true
    /\ JS.toLowerCase H = h.

(** The row has a name and a link with a hash segment. *)
Definition usable (row : LimeTorrents.Row) : Prop :=
  LimeTorrents.row_name row <> EmptyString
  /\ exists link h,
      LimeTorrents.row_torrentLink row = Some link /\ holds_hash link h.

(** A search URL of the site: the path [/search/all/Q/seeds/1/] under the
    base URL, with a segment [Q] that holds no slash, question mark, hash
    sign, ampersand or space. *)
Definition search_url (u : string) : Prop :=
  exists q,
    u = (LimeTorrents.baseUrl ++ "/search/all/" ++ q ++ "/seeds/1/")%string
    /\ count_char "/" q = O
    /\ count_char "?" q = O
    /\ count_char "#" q = O
    /\ count_char "&" q = O
    /\ count_char " " q = O.

(** A request to resolve the magnet of a search candidate. *)
Definition resolve_request (c : TorrentResult.t) (providerId : string)
  : IpcHandlers.Data :=
  IpcHandlers.DObject
    [ ("magnetUri", IpcHandlers.FString (TorrentResult.magnetUri c));
      ("providerId", IpcHandlers.FString providerId) ].

(** [[A-Za-z0-9_]], the characters of the field names of the settings. *)
Definition is_word_char (c : ascii) : bool :=
  JS.is_digit c
  || ((65 <=? JS.code c) && (JS.code c <=? 90))
  || ((97 <=? JS.code c) && (JS.code c <=? 122))
  || Ascii.eqb c "_".

(** The key is made of such characters only. *)
Definition identifier (key : string) : bool :=
  forallb is_word_char (chars key).

(** The characters that open a string, a quoted name or a comment in SQL:
    the two quotes, the back quote, the bracket, the dash and the slash. *)
Definition opens_quote (c : ascii) : bool :=
  existsb (Ascii.eqb c)
          ["'"%char; ascii_of_nat 34; "`"%char; "["%char; "-"%char; "/"%char].

(** No character of the text opens one. *)
Definition unquoted (text : string) : bool :=
  forallb (fun c => negb (opens_quote c)) (chars text).

End Vocabulary.

(** ** More sample data *)
Module Samples.

(** The better seeded of the two rows of [Examples.two_rows], parsed. *)
Definition best_candidate : TorrentResult.t :=
  {| TorrentResult.id := "89abcdef0123456789abcdef0123456701234567";
     TorrentResult.name := "Foo S02E05 1080p";
     TorrentResult.size := LimeTorrents.parseSize "1.5 GB";
     TorrentResult.seeders := 40;
     TorrentResult.leechers := 0;
     TorrentResult.magnetUri :=
       LimeTorrents.buildMagnetUri "89abcdef0123456789abcdef0123456701234567"
         "Foo S02E05 1080p";
     TorrentResult.infoHash := "89abcdef0123456789abcdef0123456701234567";
     TorrentResult.uploadDate := Some "1 Year+"%string;
     TorrentResult.quality := Some "1080p"%string;
     TorrentResult.source := Some "limetorrents"%string;
     TorrentResult.providerId := "limetorrents" |}.

(** A row whose link has no hash segment, and a page with it. *)
Definition unlinked_row : LimeTorrents.Row :=
  {| LimeTorrents.row_name := "Foo S02E05 480p";
     LimeTorrents.row_torrentLink := Some "http://itorrents.org/torrent/foo.torrent"%string;
     LimeTorrents.row_sizeText := "350 MB";
     LimeTorrents.row_seedersText := "99";
     LimeTorrents.row_leechersText := "1";
     LimeTorrents.row_dateText := "-" |}.

Definition good_row : LimeTorrents.Row :=
  {| LimeTorrents.row_name := "Foo S02E05 720p";
     LimeTorrents.row_torrentLink :=
       Some "http://itorrents.org/torrent/0123456789ABCDEF0123456789ABCDEF01234567/foo.torrent"%string;
     LimeTorrents.row_sizeText := "700 MB";
     LimeTorrents.row_seedersText := "12";
     LimeTorrents.row_leechersText := "3";
     LimeTorrents.row_dateText := "-" |}.

Definition mixed_rows (html : string) : list LimeTorrents.Row :=
  [unlinked_row; good_row].

(** Providers as plain data: an id, a type and a flag that [initialize]
    sets and [shutdown] clears; a provider named [broken] throws in both. *)
Record Plain : Type := {
  plain_id : string;
  plain_type : Registry.ProviderType;
  plain_on : bool
}.

Definition plain_set (b : bool) (p : Plain) : result unit * Plain :=
  if String.eqb (plain_id p) "broken" then (Err (RemoteFailure "broken"), p)
  else (Ok tt, {| plain_id := plain_id p; plain_type := plain_type p;
                  plain_on := b |}).

Definition lime : Plain :=
  {| plain_id := "limetorrents"; plain_type := Registry.scraper;
     plain_on := false |}.

Definition impostor : Plain :=
  {| plain_id := "limetorrents"; plain_type := Registry.debrid;
     plain_on := false |}.

Definition broken : Plain :=
  {| plain_id := "broken"; plain_type := Registry.metadata;
     plain_on := false |}.

Definition plain_registry : Registry.t :=
  Registry.registerProvider plain_id plain_type
    (Registry.registerProvider plain_id plain_type Registry.empty broken)
    lime.

(** The registry of the application while it runs, with a session open. *)
Definition running : Registry.t :=
  Registry.registerProvider App.id_of App.type_of
    (Registry.registerProvider App.id_of App.type_of Registry.empty
       (App.LimeTorrentsScraperProvider true))
    (App.RealDebridProvider Examples.signed_in).

(** The network lets through the URLs with eight slashes only. *)
Definition strict_network (url : string) : result string :=
  if (Vocabulary.count_char "/" url =? 8)%nat then Ok "<html>"%string
  else Err (RemoteFailure "blocked").

(** A registry whose two backends both fail. *)
Definition all_down : ProviderManager.t :=
  ProviderManager.registerProvider
    (ProviderManager.registerProvider ProviderManager.empty
       (Examples.backend "first" true (Err (RemoteFailure "timeout"))))
    (Examples.backend "second" true (Err (RemoteFailure "blocked"))).

End Samples.

(** * Properties *)

Local Open Scope list_scope.

(** ** Array.prototype.sort on a key compared in descending order *)
Section SortFacts.

Context {A : Type} (key : A -> Z).

Lemma insert_permutation (x : A) (l : list A) :
  Permutation (JS.insert (fun a b => key b - key a) x l) (x :: l).
Proof.
  induction l as [|y r IH]; simpl.
  - apply Permutation_refl.
  - destruct (0 <? key y - key x).
    + apply perm_trans with (y :: x :: r).
      * apply perm_skip, IH.
      * apply perm_swap.
    + apply Permutation_refl.
Qed.

Lemma sort_permutation (l : list A) :
  Permutation (JS.sort (fun a b => key b - key a) l) l.
Proof.
  induction l as [|x r IH]; simpl.
  - constructor.
  - apply perm_trans with (x :: JS.sort (fun a b => key b - key a) r).
    + apply insert_permutation.
    + apply perm_skip, IH.
Qed.

(** Every element is at least as large as those behind it. *)
Lemma insert_descending (x : A) (l : list A) :
  StronglySorted (fun a b => key b <= key a) l ->
  StronglySorted (fun a b => key b <= key a)
                 (JS.insert (fun a b => key b - key a) x l).
Proof.
  induction 1 as [|y r Hr IH Hy]; simpl.
  - constructor; constructor.
  - destruct (0 <? key y - key x) eqn:E.
    + apply Z.ltb_lt in E. constructor; [exact IH|].
      rewrite Forall_forall in Hy |- *.
      intros z Hz.
      apply (Permutation_in _ (insert_permutation x r)) in Hz.
      destruct Hz as [<-|Hz]; [lia|auto].
    + apply Z.ltb_ge in E. constructor.
      * constructor; assumption.
      * rewrite Forall_forall in Hy.
        constructor; [lia|]. rewrite Forall_forall.
        intros z Hz. specialize (Hy z Hz). lia.
Qed.

Lemma sort_descending (l : list A) :
  StronglySorted (fun a b => key b <= key a)
                 (JS.sort (fun a b => key b - key a) l).
Proof.
  induction l as [|x r IH]; simpl.
  - constructor.
  - apply insert_descending, IH.
Qed.

Lemma descending_positions (l : list A) :
  StronglySorted (fun a b => key b <= key a) l ->
  forall i j a b,
    (i < j)%nat -> nth_error l i = Some a -> nth_error l j = Some b ->
    key a >= key b.
Proof.
  induction 1 as [|x r Hr IH Hx]; intros i j a b Hij Ha Hb.
  - destruct i; discriminate.
  - destruct j as [|j]; [lia|].
    destruct i as [|i]; simpl in Ha, Hb.
    + injection Ha as <-. apply nth_error_In in Hb.
      rewrite Forall_forall in Hx. specialize (Hx b Hb). lia.
    + apply (IH i j); [lia|assumption|assumption].
Qed.

(** The sort is stable: the elements of any one key keep their order. *)
Lemma insert_stable (k : Z) (x : A) (l : list A) :
  filter (fun a => key a =? k) (JS.insert (fun a b => key b - key a) x l)
  = filter (fun a => key a =? k) (x :: l).
Proof.
  induction l as [|y r IH]; [reflexivity|].
  simpl JS.insert.
  destruct (0 <? key y - key x) eqn:E; [|reflexivity].
  apply Z.ltb_lt in E.
  simpl filter at 1. rewrite IH. simpl.
  destruct (key y =? k) eqn:Ey; destruct (key x =? k) eqn:Ex; try reflexivity.
  apply Z.eqb_eq in Ey, Ex. lia.
Qed.

Lemma sort_stable (k : Z) (l : list A) :
  filter (fun a => key a =? k) (JS.sort (fun a b => key b - key a) l)
  = filter (fun a => key a =? k) l.
Proof.
  induction l as [|x r IH]; [reflexivity|].
  simpl JS.sort. rewrite insert_stable. simpl. rewrite IH. reflexivity.
Qed.

(** An order seen after filtering is an order of the list itself. *)
Lemma filter_precedes (p : A -> bool) (a b : A) (l u v w : list A) :
  filter p l = u ++ a :: v ++ b :: w -> Spec.precedes a b l.
Proof.
  revert u. induction l as [|x r IH]; intros u H.
  - destruct u; discriminate.
  - simpl in H. destruct (p x) eqn:E.
    + destruct u as [|u0 u'].
      * simpl in H. injection H as -> Hr.
        assert (In b (filter p r)) as Hb.
        { rewrite Hr. apply in_or_app. right. left. reflexivity. }
        apply filter_In in Hb. destruct Hb as [Hb _].
        apply in_split in Hb. destruct Hb as (r1 & r2 & ->).
        exists [], r1, r2. reflexivity.
      * simpl in H. injection H as -> Hr.
        destruct (IH u' Hr) as (l1 & l2 & l3 & ->).
        exists (u0 :: l1), l2, l3. reflexivity.
    + destruct (IH u H) as (l1 & l2 & l3 & ->).
      exists (x :: l1), l2, l3. reflexivity.
Qed.

End SortFacts.

(** ** Ranking of search results *)

Lemma fulfilledValues_successes {A : Type} (outcomes : list (result (list A))) :
  IpcHandlers.fulfilledValues outcomes = List.concat (Spec.successes outcomes).
Proof.
  unfold IpcHandlers.fulfilledValues.
  induction outcomes as [|[v|e] r IH]; simpl; [reflexivity| |exact IH].
  rewrite IH. reflexivity.
Qed.

Lemma successes_split {A : Type} (o1 o2 o3 : list (result A)) (p q : A) :
  Spec.successes (o1 ++ Ok p :: o2 ++ Ok q :: o3)
  = Spec.successes o1 ++ p :: Spec.successes o2 ++ q :: Spec.successes o3.
Proof.
  induction o1 as [|[v|e] r IH]; simpl.
  - f_equal. induction o2 as [|[v|e] r IH]; simpl; [reflexivity| |exact IH].
    rewrite IH. reflexivity.
  - rewrite IH. reflexivity.
  - exact IH.
Qed.

Lemma concat_split {A : Type} (s1 s2 s3 : list (list A))
      (p1 p2 q1 q2 : list A) (a b : A) :
  List.concat (s1 ++ (p1 ++ a :: p2) :: s2 ++ (q1 ++ b :: q2) :: s3)
  = (List.concat s1 ++ p1) ++ a :: (p2 ++ List.concat s2 ++ q1)
      ++ b :: (q2 ++ List.concat s3).
Proof.
  rewrite concat_app. simpl. rewrite concat_app. simpl.
  repeat (rewrite <- app_assoc; simpl). reflexivity.
Qed.

Lemma stable_precedes {A : Type} (f : A -> bool) (results u v w : list A)
      (a b : A) :
  filter f results = filter f (u ++ a :: v ++ b :: w) ->
  f a = true -> f b = true -> Spec.precedes a b results.
Proof.
  intros H Ha Hb.
  rewrite filter_app in H. simpl in H. rewrite Ha in H.
  rewrite filter_app in H. simpl in H. rewrite Hb in H.
  eapply filter_precedes. exact H.
Qed.

(** What sorting the gathered results guarantees, whatever the backends
    returned. *)
Lemma ranked_aggregate (outcomes : list (result (list TorrentResult.t))) :
  let results := JS.sort IpcHandlers.bySeeders (IpcHandlers.fulfilledValues outcomes) in
  Spec.sorted_by_seeders results
  /\ Permutation results (List.concat (Spec.successes outcomes))
  /\ (forall k, filter (Spec.has_seeders k) results
                = filter (Spec.has_seeders k) (List.concat (Spec.successes outcomes)))
  /\ (forall o1 p o2 q o3 a b,
         outcomes = o1 ++ Ok p :: o2 ++ Ok q :: o3 ->
         In a p -> In b q ->
         TorrentResult.seeders a = TorrentResult.seeders b ->
         Spec.precedes a b results).
Proof.
  intros results. subst results. rewrite fulfilledValues_successes.
  set (all := List.concat (Spec.successes outcomes)).
  split; [|split; [|split]].
  - exact (descending_positions TorrentResult.seeders _
             (sort_descending TorrentResult.seeders all)).
  - apply (sort_permutation TorrentResult.seeders).
  - intros k. apply (sort_stable TorrentResult.seeders).
  - intros o1 p o2 q o3 a b Ho Ha Hb Hab.
    pose proof (sort_stable TorrentResult.seeders (TorrentResult.seeders a) all)
      as Hst.
    subst all. rewrite Ho, successes_split in Hst.
    apply in_split in Ha. destruct Ha as (p1 & p2 & ->).
    apply in_split in Hb. destruct Hb as (q1 & q2 & ->).
    rewrite concat_split in Hst.
    rewrite Ho, successes_split, concat_split.
    eapply stable_precedes; [exact Hst| |].
    + apply Z.eqb_refl.
    + apply Z.eqb_eq. congruence.
Qed.

Lemma parseSearchResults_sorted (table_rows : string -> list LimeTorrents.Row)
      (html : string) :
  Spec.sorted_by_seeders (LimeTorrents.parseSearchResults table_rows html).
Proof.
  exact (descending_positions TorrentResult.seeders _
           (sort_descending TorrentResult.seeders _)).
Qed.

Lemma search_sorted http_get table_rows query mediaType results :
  LimeTorrents.search http_get table_rows query mediaType = Ok results ->
  Spec.sorted_by_seeders results.
Proof.
  unfold LimeTorrents.search.
  destruct (http_get _) as [html|e]; [|discriminate].
  intros H. injection H as <-. apply parseSearchResults_sorted.
Qed.

Lemma torrent_search_unfold pm data v :
  IpcHandlers.MediaSearchSchema data = Some v ->
  IpcHandlers.torrent_search pm data
  = if (List.length (Spec.enabledScrapers pm) =? 0)%nat
    then Err NoScrapersAvailable
    else Ok (JS.sort IpcHandlers.bySeeders
               (IpcHandlers.fulfilledValues (Spec.search_outcomes pm v))).
Proof.
  intros Hv. unfold IpcHandlers.torrent_search, IpcHandlers.validateInput.
  rewrite Hv. reflexivity.
Qed.

Lemma torrent_search_episode_unfold pm data v :
  IpcHandlers.EpisodeSearchSchema data = Some v ->
  IpcHandlers.torrent_search_episode pm data
  = if (List.length (Spec.enabledScrapers pm) =? 0)%nat
    then Err NoScrapersAvailable
    else Ok (JS.sort IpcHandlers.bySeeders
               (IpcHandlers.fulfilledValues (Spec.episode_outcomes pm v))).
Proof.
  intros Hv. unfold IpcHandlers.torrent_search_episode, IpcHandlers.validateInput.
  rewrite Hv. reflexivity.
Qed.

(** C6. Every search returns its list sorted descending by seeder count:
    for all positions [i < j], [result[i].seeders >= result[j].seeders].
    This holds of the two searches of the LimeTorrents backend and of the
    two aggregating handlers; in an aggregated list ties are broken stably
    by input order, so the candidates of the backend enumerated first stand
    before equally seeded candidates of later backends. *)
Theorem search_sorted_descending_by_seeders :
  (forall http_get table_rows query mediaType results,
      LimeTorrents.search http_get table_rows query mediaType = Ok results ->
      Spec.sorted_by_seeders results)
  /\ (forall http_get table_rows seriesName season episode results,
         LimeTorrents.searchEpisode http_get table_rows seriesName season episode
         = Ok results ->
         Spec.sorted_by_seeders results)
  /\ (forall pm data v results,
         IpcHandlers.MediaSearchSchema data = Some v ->
         IpcHandlers.torrent_search pm data = Ok results ->
         Spec.sorted_by_seeders results
         /\ Spec.ties_by_input_order (Spec.search_outcomes pm v) results)
  /\ (forall pm data v results,
         IpcHandlers.EpisodeSearchSchema data = Some v ->
         IpcHandlers.torrent_search_episode pm data = Ok results ->
         Spec.sorted_by_seeders results
         /\ Spec.ties_by_input_order (Spec.episode_outcomes pm v) results).
Proof.
  split; [|split; [|split]].
  - intros. eapply search_sorted; eassumption.
  - intros until results. unfold LimeTorrents.searchEpisode.
    apply search_sorted.
  - intros pm data v results Hv H.
    rewrite (torrent_search_unfold pm data v Hv) in H.
    destruct (_ =? _)%nat; [discriminate|]. injection H as <-.
    destruct (ranked_aggregate (Spec.search_outcomes pm v)) as (S & _ & T & P).
    split; [exact S|split; [exact T|exact P]].
  - intros pm data v results Hv H.
    rewrite (torrent_search_episode_unfold pm data v Hv) in H.
    destruct (_ =? _)%nat; [discriminate|]. injection H as <-.
    destruct (ranked_aggregate (Spec.episode_outcomes pm v)) as (S & _ & T & P).
    split; [exact S|split; [exact T|exact P]].
Qed.

Lemma search_sorted_descending_by_seeders_witness :
  (LimeTorrents.search Examples.any_page Examples.rows_of "Foo" movie
   = Ok (LimeTorrents.parseSearchResults Examples.rows_of "<html>")
   /\ Spec.sorted_by_seeders
        (LimeTorrents.parseSearchResults Examples.rows_of "<html>"))
  /\ (LimeTorrents.searchEpisode Examples.any_page Examples.rows_of "Foo" 2 5
      = Ok (LimeTorrents.parseSearchResults Examples.rows_of "<html>")
      /\ Spec.sorted_by_seeders
           (LimeTorrents.parseSearchResults Examples.rows_of "<html>"))
  /\ (IpcHandlers.MediaSearchSchema Examples.foo_query = Some Examples.foo_search
      /\ IpcHandlers.torrent_search Examples.three_backends Examples.foo_query
         = Ok [Examples.candidate "c1" 9 "third"; Examples.candidate "a1" 5 "first";
               Examples.candidate "c2" 5 "third"; Examples.candidate "a2" 3 "first"]
      /\ Spec.sorted_by_seeders
           [Examples.candidate "c1" 9 "third"; Examples.candidate "a1" 5 "first";
            Examples.candidate "c2" 5 "third"; Examples.candidate "a2" 3 "first"]
      /\ Spec.ties_by_input_order
           (Spec.search_outcomes Examples.three_backends Examples.foo_search)
           [Examples.candidate "c1" 9 "third"; Examples.candidate "a1" 5 "first";
            Examples.candidate "c2" 5 "third"; Examples.candidate "a2" 3 "first"])
  /\ (IpcHandlers.EpisodeSearchSchema Examples.foo_episode_query
      = Some Examples.foo_episode
      /\ IpcHandlers.torrent_search_episode Examples.three_backends
           Examples.foo_episode_query
         = Ok [Examples.candidate "c1" 9 "third"; Examples.candidate "a1" 5 "first";
               Examples.candidate "c2" 5 "third"; Examples.candidate "a2" 3 "first"]
      /\ Spec.sorted_by_seeders
           [Examples.candidate "c1" 9 "third"; Examples.candidate "a1" 5 "first";
            Examples.candidate "c2" 5 "third"; Examples.candidate "a2" 3 "first"]
      /\ Spec.ties_by_input_order
           (Spec.episode_outcomes Examples.three_backends Examples.foo_episode)
           [Examples.candidate "c1" 9 "third"; Examples.candidate "a1" 5 "first";
            Examples.candidate "c2" 5 "third"; Examples.candidate "a2" 3 "first"]).
Proof.
  destruct search_sorted_descending_by_seeders as (S & E & T & U).
  split; [|split; [|split]].
  - split; [reflexivity|].
    apply (S Examples.any_page Examples.rows_of "Foo"%string movie).
    reflexivity.
  - split; [reflexivity|].
    apply (E Examples.any_page Examples.rows_of "Foo"%string 2 5).
    reflexivity.
  - split; [reflexivity|]. split; [reflexivity|].
    apply (T Examples.three_backends Examples.foo_query); reflexivity.
  - split; [reflexivity|]. split; [reflexivity|].
    apply (U Examples.three_backends Examples.foo_episode_query); reflexivity.
Defined.

(** ** Aggregated search *)

(** C2. For every aggregated search with a valid request: when no Search
    backend is enabled the call fails with the no-backends error ('No
    scrapers available') and returns no data; when at least one is enabled
    the call does not raise, whatever the backends do: it returns the
    results of the backends that succeeded, concatenated in enumeration
    order and sorted, the outcomes of the failed backends being dropped. *)
Theorem torrent_search_tolerates_failures :
  forall pm data v,
    IpcHandlers.MediaSearchSchema data = Some v ->
    (Spec.enabledScrapers pm = [] ->
     IpcHandlers.torrent_search pm data = Err NoScrapersAvailable)
    /\ (Spec.enabledScrapers pm <> [] ->
        exists results,
          IpcHandlers.torrent_search pm data = Ok results
          /\ results
             = JS.sort IpcHandlers.bySeeders
                 (List.concat (Spec.successes (Spec.search_outcomes pm v)))
          /\ Permutation results
               (List.concat (Spec.successes (Spec.search_outcomes pm v)))
          /\ Spec.sorted_by_seeders results).
Proof.
  intros pm data v Hv. rewrite (torrent_search_unfold pm data v Hv).
  split.
  - intros ->. reflexivity.
  - intros Hne. destruct (Spec.enabledScrapers pm) eqn:E; [contradiction|].
    simpl.
    destruct (ranked_aggregate (Spec.search_outcomes pm v)) as (S & P & _).
    eexists. split; [reflexivity|].
    split; [rewrite fulfilledValues_successes; reflexivity|].
    split; [exact P|exact S].
Qed.

Lemma torrent_search_tolerates_failures_witness :
  IpcHandlers.MediaSearchSchema Examples.foo_query = Some Examples.foo_search
  /\ (Spec.enabledScrapers Examples.none_enabled = []
      /\ IpcHandlers.torrent_search Examples.none_enabled Examples.foo_query
         = Err NoScrapersAvailable)
  /\ (Spec.enabledScrapers Examples.three_backends <> []
      /\ Spec.successes
           (Spec.search_outcomes Examples.three_backends Examples.foo_search)
         = [Examples.first_results; Examples.third_results]
      /\ exists results,
          IpcHandlers.torrent_search Examples.three_backends Examples.foo_query
          = Ok results
          /\ results
             = JS.sort IpcHandlers.bySeeders
                 (List.concat
                    (Spec.successes
                       (Spec.search_outcomes Examples.three_backends
                          Examples.foo_search)))
          /\ Permutation results
               (List.concat
                  (Spec.successes
                     (Spec.search_outcomes Examples.three_backends
                        Examples.foo_search)))
          /\ Spec.sorted_by_seeders results).
Proof.
  split; [reflexivity|]. split.
  - split; [reflexivity|].
    apply (torrent_search_tolerates_failures Examples.none_enabled
             Examples.foo_query Examples.foo_search); reflexivity.
  - split; [discriminate|]. split; [reflexivity|].
    apply (torrent_search_tolerates_failures Examples.three_backends
             Examples.foo_query Examples.foo_search);
      [reflexivity|discriminate].
Defined.

(** The episode handler gathers in the same way. *)
Lemma torrent_search_episode_tolerates_failures pm data v :
  IpcHandlers.EpisodeSearchSchema data = Some v ->
  (Spec.enabledScrapers pm = [] ->
   IpcHandlers.torrent_search_episode pm data = Err NoScrapersAvailable)
  /\ (Spec.enabledScrapers pm <> [] ->
      IpcHandlers.torrent_search_episode pm data
      = Ok (JS.sort IpcHandlers.bySeeders
              (List.concat (Spec.successes (Spec.episode_outcomes pm v))))).
Proof.
  intros Hv. rewrite (torrent_search_episode_unfold pm data v Hv).
  split.
  - intros ->. reflexivity.
  - intros Hne. destruct (Spec.enabledScrapers pm) eqn:E; [contradiction|].
    simpl. rewrite fulfilledValues_successes. reflexivity.
Qed.

(** A request that fails validation is rejected before the registry is
    looked at. *)
Lemma torrent_search_validates_first pm data :
  IpcHandlers.MediaSearchSchema data = None ->
  IpcHandlers.torrent_search pm data = Err ValidationFailed.
Proof.
  intros H. unfold IpcHandlers.torrent_search, IpcHandlers.validateInput.
  rewrite H. reflexivity.
Qed.

(** ** The Real-Debrid backend *)

Ltac run_method :=
  repeat progress
    (unfold RealDebrid.try_catch, RealDebrid.bind, RealDebrid.requireApiKey,
       RealDebrid.read, RealDebrid.send, RealDebrid.throw, RealDebrid.ret,
       RealDebrid.modify, RealDebrid.handleError, BaseProvider.handleError;
     cbv beta).

(** *** The status table *)

Lemma statusMap_own (st : string) (s : TransferStatus) :
  JS.own_property RealDebrid.statusMap st = Some s ->
  s <> processing /\ (s = ready <-> st = "downloaded"%string).
Proof.
  unfold RealDebrid.statusMap. cbn [JS.own_property].
  repeat match goal with
         | |- context [String.eqb ?a st] =>
             destruct (String.eqb_spec a st) as [<-|?]
         end;
    intros H; try discriminate; injection H as <-;
    (split; [discriminate|split; intros E; congruence]).
Qed.

Lemma statusMap_downloaded :
  JS.get RealDebrid.statusMap "downloaded" = JS.Own ready.
Proof. reflexivity. Qed.

Lemma status_ready_iff (torrent : RealDebrid.RealDebridTorrent.t) :
  DebridTransfer.status (RealDebrid.mapTorrentToTransfer torrent) = Status ready
  <-> RealDebrid.RealDebridTorrent.status torrent = "downloaded"%string.
Proof.
  unfold RealDebrid.mapTorrentToTransfer. cbn [DebridTransfer.status].
  unfold JS.get.
  destruct (JS.own_property RealDebrid.statusMap _) as [s|] eqn:E.
  - destruct (statusMap_own _ _ E) as [_ H]. rewrite <- H.
    split; [intros X; injection X; auto|intros ->; reflexivity].
  - split.
    + destruct (existsb _ _); discriminate.
    + intros H. rewrite H in E. discriminate.
Qed.

(** *** Stream extraction *)

Lemma unrestricted_app (l1 l2 : list RealDebrid.Sent) :
  Spec.unrestricted (l1 ++ l2) = Spec.unrestricted l1 ++ Spec.unrestricted l2.
Proof.
  induction l1 as [|m r IH]; [reflexivity|].
  simpl. destruct (RealDebrid.sent_request m); simpl; rewrite IH; reflexivity.
Qed.

Lemma findIndex_none {A : Type} (p : A -> bool) (l : list A) :
  (forall x, In x l -> p x = false) -> JS.findIndex p l = None.
Proof.
  induction l as [|x r IH]; intros H; [reflexivity|].
  simpl. rewrite (H x (or_introl eq_refl)).
  rewrite IH; [reflexivity|]. intros y Hy. apply H. right. exact Hy.
Qed.

Lemma linkToUnrestrict_in torrent fileId first :
  In first (RealDebrid.RealDebridTorrent.links torrent) ->
  In (RealDebrid.linkToUnrestrict torrent fileId first)
     (RealDebrid.RealDebridTorrent.links torrent).
Proof.
  intros Hf. unfold RealDebrid.linkToUnrestrict.
  assert (forall i,
             In (if (i <? List.length (RealDebrid.RealDebridTorrent.links torrent))%nat
                 then nth i (RealDebrid.RealDebridTorrent.links torrent) first
                 else first)
                (RealDebrid.RealDebridTorrent.links torrent)) as Hn.
  { intros i. destruct (Nat.ltb_spec i (List.length (RealDebrid.RealDebridTorrent.links torrent))).
    - apply nth_In. assumption.
    - exact Hf. }
  destruct (JS.truthy fileId), fileId as [fid|],
    (RealDebrid.RealDebridTorrent.files torrent) as [files|]; try exact Hf;
    try (destruct (JS.findIndex _ files); [apply Hn|exact Hf]);
    try (destruct (1 <? List.length files)%nat; [|exact Hf];
         destruct (filter _ _); [exact Hf|apply Hn]).
Qed.

Lemma linkToUnrestrict_unknown_file torrent fid files first :
  fid <> EmptyString ->
  RealDebrid.RealDebridTorrent.files torrent = Some files ->
  (forall f, In f files -> ~ Spec.designates fid f) ->
  RealDebrid.linkToUnrestrict torrent (Some fid) first = first.
Proof.
  intros Hne Hfiles Hno. unfold RealDebrid.linkToUnrestrict.
  rewrite Hfiles.
  assert (JS.truthy (Some fid) = true) as ->.
  { destruct fid; [contradiction|reflexivity]. }
  rewrite findIndex_none; [reflexivity|].
  intros f Hf. specialize (Hno f Hf). unfold Spec.designates in Hno.
  destruct (JS.parseInt fid) as [n|]; [|reflexivity].
  apply Z.eqb_neq. intros E. apply Hno. congruence.
Qed.

(** C1, as the code has it.  On an authenticated session, for a transfer
    the service describes: [getStreamUrl] fails with the not-ready error
    when the status of the transfer is not ready, and with the no-links
    error when the transfer is ready but has no link, sending no unrestrict
    request in either case; otherwise it sends exactly one unrestrict
    request, for one of the links of the transfer, and returns the download
    URL of the answer (or fails as that request failed).  An explicit file
    identifier that designates no file is not an error: the first link is
    unrestricted. *)
Theorem getStreamUrl_outcomes :
  forall remote s transferId fileId torrent,
    JS.truthy (RealDebrid.apiKey s) = true ->
    RealDebrid.torrentInfo remote (RealDebrid.log s) (RealDebrid.authorization s)
      transferId = Ok torrent ->
    let run := RealDebrid.getStreamUrl remote transferId fileId s in
    let asked := {| RealDebrid.sent_authorization := RealDebrid.authorization s;
                    RealDebrid.sent_request := RealDebrid.GetTorrentInfo transferId |} in
    (DebridTransfer.status (RealDebrid.mapTorrentToTransfer torrent) <> Status ready ->
     fst run = Err (TorrentNotReady (RealDebrid.RealDebridTorrent.status torrent))
     /\ Spec.unrestricted (RealDebrid.log (snd run))
        = Spec.unrestricted (RealDebrid.log s))
    /\ (DebridTransfer.status (RealDebrid.mapTorrentToTransfer torrent) = Status ready ->
        RealDebrid.RealDebridTorrent.links torrent = [] ->
        fst run = Err NoLinksAvailable
        /\ Spec.unrestricted (RealDebrid.log (snd run))
           = Spec.unrestricted (RealDebrid.log s))
    /\ (DebridTransfer.status (RealDebrid.mapTorrentToTransfer torrent) = Status ready ->
        forall first rest,
          RealDebrid.RealDebridTorrent.links torrent = first :: rest ->
          exists link,
            In link (RealDebrid.RealDebridTorrent.links torrent)
            /\ Spec.unrestricted (RealDebrid.log (snd run))
               = Spec.unrestricted (RealDebrid.log s) ++ [link]
            /\ fst run
               = match RealDebrid.unrestrictLink remote (RealDebrid.log s ++ [asked])
                         (RealDebrid.authorization s) link with
                 | Ok u => Ok (RealDebrid.RealDebridUnrestrict.download u)
                 | Err e => Err e
                 end
            /\ (forall fid files,
                   fileId = Some fid -> fid <> EmptyString ->
                   RealDebrid.RealDebridTorrent.files torrent = Some files ->
                   (forall f, In f files -> ~ Spec.designates fid f) ->
                   link = first)).
Proof.
  intros remote s transferId fileId torrent Hkey Hinfo run asked.
  subst run asked. unfold RealDebrid.getStreamUrl. run_method.
  rewrite Hkey, Hinfo. cbn [RealDebrid.log RealDebrid.set_log
                              RealDebrid.authorization].
  rewrite status_ready_iff.
  destruct (String.eqb_spec (RealDebrid.RealDebridTorrent.status torrent)
                            "downloaded") as [E|E]; cbn [negb].
  - split; [intros X; contradiction|]. split.
    + intros _ ->. cbn. split; [reflexivity|].
      rewrite unrestricted_app, app_nil_r. reflexivity.
    + intros _ first rest Hl. rewrite Hl.
      exists (RealDebrid.linkToUnrestrict torrent fileId first).
      split; [|split; [|split]].
      * rewrite <- Hl. apply linkToUnrestrict_in. rewrite Hl. left. reflexivity.
      * cbn [RealDebrid.log RealDebrid.set_log RealDebrid.authorization].
        destruct (RealDebrid.unrestrictLink _ _ _ _);
          cbn; rewrite !unrestricted_app; cbn; rewrite app_nil_r; reflexivity.
      * cbn [RealDebrid.log RealDebrid.set_log RealDebrid.authorization].
        destruct (RealDebrid.unrestrictLink _ _ _ _); reflexivity.
      * intros fid files -> Hne Hfiles Hno.
        eapply linkToUnrestrict_unknown_file; eassumption.
  - split.
    + intros _. cbn. split; [reflexivity|].
      rewrite unrestricted_app, app_nil_r. reflexivity.
    + split; intros X; contradiction.
Qed.

Lemma getStreamUrl_outcomes_witness :
  (JS.truthy (RealDebrid.apiKey Examples.signed_in) = true
   /\ DebridTransfer.status
        (RealDebrid.mapTorrentToTransfer Examples.still_downloading)
      <> Status ready
   /\ fst (RealDebrid.getStreamUrl (Examples.service Examples.still_downloading)
             "T1" None Examples.signed_in)
      = Err (TorrentNotReady "downloading")
   /\ Spec.unrestricted
        (RealDebrid.log
           (snd (RealDebrid.getStreamUrl
                   (Examples.service Examples.still_downloading)
                   "T1" None Examples.signed_in)))
      = Spec.unrestricted (RealDebrid.log Examples.signed_in))
  /\ (RealDebrid.RealDebridTorrent.links Examples.no_links = []
      /\ fst (RealDebrid.getStreamUrl (Examples.service Examples.no_links)
                "T1" None Examples.signed_in)
         = Err NoLinksAvailable
      /\ Spec.unrestricted
           (RealDebrid.log
              (snd (RealDebrid.getStreamUrl (Examples.service Examples.no_links)
                      "T1" None Examples.signed_in)))
         = Spec.unrestricted (RealDebrid.log Examples.signed_in))
  /\ (RealDebrid.torrentInfo (Examples.service Examples.season_pack)
        (RealDebrid.log Examples.signed_in)
        (RealDebrid.authorization Examples.signed_in) "T1"
      = Ok Examples.season_pack
      /\ exists link,
          In link (RealDebrid.RealDebridTorrent.links Examples.season_pack)
          /\ Spec.unrestricted
               (RealDebrid.log
                  (snd (RealDebrid.getStreamUrl
                          (Examples.service Examples.season_pack)
                          "T1" (Some "7") Examples.signed_in)))
             = Spec.unrestricted (RealDebrid.log Examples.signed_in) ++ [link]
          /\ fst (RealDebrid.getStreamUrl (Examples.service Examples.season_pack)
                    "T1" (Some "7") Examples.signed_in)
             = Ok ("https://cdn/" ++ link)%string
          /\ (forall fid files,
                 Some "7"%string = Some fid -> fid <> EmptyString ->
                 RealDebrid.RealDebridTorrent.files Examples.season_pack
                 = Some files ->
                 (forall f, In f files -> ~ Spec.designates fid f) ->
                 link = "https://rd/0"%string)).
Proof.
  split; [|split].
  - split; [reflexivity|]. split; [discriminate|].
    apply (getStreamUrl_outcomes (Examples.service Examples.still_downloading)
             Examples.signed_in "T1"%string None Examples.still_downloading);
      [reflexivity|reflexivity|discriminate].
  - split; [reflexivity|].
    apply (getStreamUrl_outcomes (Examples.service Examples.no_links)
             Examples.signed_in "T1"%string None Examples.no_links);
      reflexivity.
  - split; [reflexivity|].
    exact (proj2 (proj2 (getStreamUrl_outcomes
                           (Examples.service Examples.season_pack)
                           Examples.signed_in "T1"%string (Some "7"%string)
                           Examples.season_pack eq_refl eq_refl))
             eq_refl "https://rd/0"%string
             ["https://rd/1"%string; "https://rd/2"%string] eq_refl).
Defined.

(** The three files of the sample transfer have the identifiers 1, 2, 3:
    the file identifier 7 designates none of them. *)
Lemma seven_designates_no_file :
  forall f,
    In f [Examples.file 1 "Foo/movie.mp4" 524288000;
          Examples.file 2 "Foo/info.nfo" 1024;
          Examples.file 3 "Foo/movie.mkv" 1288490189] ->
    ~ Spec.designates "7" f.
Proof.
  intros f [<-|[<-|[<-|[]]]]; unfold Spec.designates; cbn; discriminate.
Qed.

(** C1, as the design document has it, fails on the code: asked for the
    file 7 of a ready transfer whose files are 1, 2 and 3, [getStreamUrl]
    does not fail; it unrestricts the first link and returns its URL. *)
Lemma getStreamUrl_unknown_file_succeeds :
  fst (RealDebrid.getStreamUrl (Examples.service Examples.season_pack)
         "T1" (Some "7") Examples.signed_in)
  = Ok "https://cdn/https://rd/0"%string
  /\ ~ Spec.stream_failure_contract Examples.season_pack (Some "7")
         Examples.signed_in
         (RealDebrid.getStreamUrl (Examples.service Examples.season_pack)
            "T1" (Some "7") Examples.signed_in).
Proof.
  split; [reflexivity|].
  intros (_ & _ & H).
  destruct (H "7"%string _ eq_refl ltac:(discriminate) eq_refl
              seven_designates_no_file) as [e He].
  discriminate He.
Qed.

(** *** File selection *)

Lemma equal_ci_spec (p s : string) :
  RealDebrid.equal_ci p s = true <-> JS.toUpperCase s = JS.toUpperCase p.
Proof.
  unfold JS.toUpperCase.
  revert s. induction p as [|a p IH]; intros [|b s]; simpl;
    try (split; [discriminate|discriminate]).
  - split; reflexivity.
  - rewrite andb_true_iff, IH. unfold JS.eqb_ci. rewrite Ascii.eqb_eq.
    split.
    + intros [H1 H2]. rewrite H1, H2. reflexivity.
    + intros H. injection H as H1 H2. split; congruence.
Qed.

Lemma video_at_head_spec (s : string) :
  RealDebrid.video_at_head s = true
  <-> exists ext' ext,
      In ext RealDebrid.video_extensions
      /\ s = String "." ext'
      /\ JS.toUpperCase ext' = JS.toUpperCase ext.
Proof.
  destruct s as [|c r]; unfold RealDebrid.video_at_head.
  - split; [discriminate|]. intros (? & ? & _ & H & _). discriminate.
  - rewrite andb_true_iff, Ascii.eqb_eq, existsb_exists. split.
    + intros [-> (ext & Hin & He)]. apply equal_ci_spec in He.
      exists r, ext. auto.
    + intros (ext' & ext & Hin & H & He). injection H as -> ->.
      split; [reflexivity|]. exists ext. split; [exact Hin|].
      apply equal_ci_spec. exact He.
Qed.

Lemma test_video_spec (path : string) :
  RealDebrid.test_video path = true <-> Spec.video_name path.
Proof.
  unfold Spec.video_name. induction path as [|c r IH].
  - simpl. split; [discriminate|].
    intros (stem & ext' & ext & _ & H & _).
    destruct stem; discriminate.
  - cbn [RealDebrid.test_video]. rewrite orb_true_iff, video_at_head_spec, IH.
    split.
    + intros [(ext' & ext & Hin & H & He)|(stem & ext' & ext & Hin & H & He)].
      * exists EmptyString, ext', ext. auto.
      * exists (String c stem), ext', ext. rewrite H. auto.
    + intros (stem & ext' & ext & Hin & H & He).
      destruct stem as [|c' stem]; simpl in H.
      * left. exists ext', ext. auto.
      * right. injection H as -> ->. exists stem, ext', ext. auto.
Qed.

Lemma in_combine_seq {A : Type} (l : list A) (n i : nat) (x : A) :
  In (i, x) (combine (seq n (List.length l)) l)
  <-> (n <= i)%nat /\ nth_error l (i - n) = Some x.
Proof.
  revert n. induction l as [|y r IH]; intros n; simpl.
  - split; [intros []|]. intros [_ H]. destruct (i - n)%nat; discriminate.
  - rewrite IH. split.
    + intros [H|[Hle H]].
      * injection H as <- <-. rewrite Nat.sub_diag. split; [lia|reflexivity].
      * split; [lia|]. replace (i - n)%nat with (S (i - S n)) by lia. exact H.
    + intros [Hle H]. destruct (i - n)%nat as [|k] eqn:E.
      * left. injection H as <-. f_equal. lia.
      * right. split; [lia|]. replace (i - S n)%nat with k by lia. exact H.
Qed.

Lemma in_indexed {A : Type} (l : list A) (i : nat) (x : A) :
  In (i, x) (RealDebrid.indexed l) <-> nth_error l i = Some x.
Proof.
  unfold RealDebrid.indexed. rewrite in_combine_seq, Nat.sub_0_r.
  split; [intros [_ H]; exact H|intros H; split; [lia|exact H]].
Qed.

Lemma combine_seq_increasing {A : Type} (l : list A) (n : nat) :
  StronglySorted (fun a b : nat * A => (fst a < fst b)%nat)
                 (combine (seq n (List.length l)) l).
Proof.
  revert n. induction l as [|y r IH]; intros n; simpl; constructor.
  - apply IH.
  - rewrite Forall_forall. intros [i x] H.
    apply in_combine_seq in H. simpl. lia.
Qed.

Lemma filter_increasing {A : Type} (R : A -> A -> Prop) (p : A -> bool)
      (l : list A) :
  StronglySorted R l -> StronglySorted R (filter p l).
Proof.
  induction 1 as [|x r Hr IH Hx]; simpl; [constructor|].
  destruct (p x); [|exact IH].
  constructor; [exact IH|].
  rewrite Forall_forall in Hx |- *.
  intros y Hy. apply filter_In in Hy. apply Hx, Hy.
Qed.

(** The reduction keeps the largest entry, the first one of that size. *)
Lemma fold_larger_spec (vs : list (nat * RealDebrid.TorrentFile.t)) :
  forall v,
    StronglySorted (fun a b => (fst a < fst b)%nat) (v :: vs) ->
    let r := fold_left RealDebrid.larger vs v in
    In r (v :: vs)
    /\ (forall y, In y (v :: vs) ->
                  RealDebrid.TorrentFile.bytes (snd y)
                  <= RealDebrid.TorrentFile.bytes (snd r))
    /\ (forall y, In y (v :: vs) -> (fst y < fst r)%nat ->
                  RealDebrid.TorrentFile.bytes (snd y)
                  < RealDebrid.TorrentFile.bytes (snd r)).
Proof.
  induction vs as [|w vs IH]; intros v Hs.
  - simpl. split; [left; reflexivity|].
    split; intros y [<-|[]]; lia.
  - cbn [fold_left].
    apply StronglySorted_inv in Hs. destruct Hs as [Hs Hv].
    apply StronglySorted_inv in Hs. destruct Hs as [Hvs Hw].
    rewrite Forall_forall in Hv, Hw.
    assert (fst v < fst w)%nat as Hvw by (apply Hv; left; reflexivity).
    assert (StronglySorted (fun a b : nat * RealDebrid.TorrentFile.t =>
                              (fst a < fst b)%nat)
                           (RealDebrid.larger v w :: vs)) as Hs'.
    { constructor; [exact Hvs|]. rewrite Forall_forall. intros y Hy.
      unfold RealDebrid.larger. destruct (_ <? _).
      - apply Hw, Hy.
      - apply Hv. right. exact Hy. }
    destruct (IH _ Hs') as (Hin & Hmax & Hfirst).
    set (r := fold_left RealDebrid.larger vs (RealDebrid.larger v w)) in *.
    assert (RealDebrid.TorrentFile.bytes (snd (RealDebrid.larger v w))
            <= RealDebrid.TorrentFile.bytes (snd r)) as Hacc
        by (apply Hmax; left; reflexivity).
    assert (In r vs -> (fst (RealDebrid.larger v w) < fst r)%nat) as Hlater.
    { intros Hr. apply StronglySorted_inv in Hs'. destruct Hs' as [_ H'].
      rewrite Forall_forall in H'. apply H', Hr. }
    unfold RealDebrid.larger in Hin, Hacc, Hlater, Hfirst, Hmax.
    destruct (Z.ltb_spec (RealDebrid.TorrentFile.bytes (snd v))
                         (RealDebrid.TorrentFile.bytes (snd w))) as [Hlt|Hge].
    + split; [|split].
      * destruct Hin as [<-|Hin]; [right; left; reflexivity|right; right; exact Hin].
      * intros y [<-|Hy]; [lia|apply Hmax, Hy].
      * intros y [<-|Hy] Hyr; [lia|apply Hfirst; assumption].
    + split; [|split].
      * destruct Hin as [<-|Hin]; [left; reflexivity|right; right; exact Hin].
      * intros y [<-|[<-|Hy]]; [lia| lia |apply Hmax; right; exact Hy].
      * intros y [<-|[<-|Hy]] Hyr.
        -- apply Hfirst; [left; reflexivity|exact Hyr].
        -- destruct Hin as [<-|Hin]; [lia|].
           assert (RealDebrid.TorrentFile.bytes (snd v)
                   < RealDebrid.TorrentFile.bytes (snd r)).
           { apply Hfirst; [left; reflexivity|apply Hlater, Hin]. }
           lia.
        -- apply Hfirst; [right; exact Hy|exact Hyr].
Qed.

Lemma linkToUnrestrict_no_fileId torrent fileId files first :
  RealDebrid.RealDebridTorrent.files torrent = Some files ->
  (1 < List.length files)%nat ->
  JS.truthy fileId = false ->
  RealDebrid.linkToUnrestrict torrent fileId first
  = match filter (fun f => RealDebrid.test_video (RealDebrid.TorrentFile.path (snd f)))
                 (RealDebrid.indexed files) with
    | [] => first
    | v :: vs =>
        if (fst (fold_left RealDebrid.larger vs v)
            <? List.length (RealDebrid.RealDebridTorrent.links torrent))%nat
        then nth (fst (fold_left RealDebrid.larger vs v))
                 (RealDebrid.RealDebridTorrent.links torrent) first
        else first
    end.
Proof.
  intros Hfiles Hlen Hfid. unfold RealDebrid.linkToUnrestrict.
  rewrite Hfiles, Hfid.
  apply Nat.ltb_lt in Hlen. destruct fileId; rewrite Hlen; reflexivity.
Qed.

Lemma linkToUnrestrict_biggest_video torrent fileId files first :
  RealDebrid.RealDebridTorrent.files torrent = Some files ->
  (1 < List.length files)%nat ->
  JS.truthy fileId = false ->
  let link := RealDebrid.linkToUnrestrict torrent fileId first in
  (Spec.no_video files /\ link = first)
  \/ (exists i,
         Spec.largest_video files i
         /\ (nth_error (RealDebrid.RealDebridTorrent.links torrent) i = Some link
             \/ ((List.length (RealDebrid.RealDebridTorrent.links torrent) <= i)%nat
                 /\ link = first))).
Proof.
  intros Hfiles Hlen Hfid link. subst link.
  rewrite (linkToUnrestrict_no_fileId torrent fileId files first Hfiles Hlen Hfid).
  destruct (filter (fun f => RealDebrid.test_video (RealDebrid.TorrentFile.path (snd f)))
                   (RealDebrid.indexed files)) as [|v vs] eqn:E.
  - left. split; [|reflexivity].
    intros f Hf Hv. apply In_nth_error in Hf. destruct Hf as [j Hj].
    apply in_indexed in Hj.
    assert (In (j, f) []) as [].
    rewrite <- E. apply filter_In. split; [exact Hj|].
    apply test_video_spec. exact Hv.
  - right.
    assert (StronglySorted (fun a b : nat * RealDebrid.TorrentFile.t =>
                              (fst a < fst b)%nat) (v :: vs)) as Hs.
    { rewrite <- E. apply filter_increasing. apply combine_seq_increasing. }
    destruct (fold_larger_spec vs v Hs) as (Hin & Hmax & Hfirst).
    assert (forall j g, nth_error files j = Some g ->
                        Spec.video_name (RealDebrid.TorrentFile.path g) ->
                        In (j, g) (v :: vs)) as Hvideo.
    { intros j g Hj Hg. rewrite <- E. apply filter_In. split.
      - apply in_indexed. exact Hj.
      - apply test_video_spec. exact Hg. }
    rewrite <- E in Hin. apply filter_In in Hin. destruct Hin as [Hin Hv].
    destruct (fold_left RealDebrid.larger vs v) as [i f].
    apply in_indexed in Hin. cbn [fst snd] in *.
    exists i. split.
    + exists f. split; [exact Hin|]. split; [apply test_video_spec; exact Hv|].
      split.
      * intros j g Hj Hg. apply (Hmax (j, g)). apply Hvideo; assumption.
      * intros j g Hji Hj Hg. apply (Hfirst (j, g)); [|exact Hji].
        apply Hvideo; assumption.
    + destruct (Nat.ltb_spec i (List.length (RealDebrid.RealDebridTorrent.links torrent)))
        as [Hi|Hi].
      * left. apply nth_error_nth'. exact Hi.
      * right. split; [exact Hi|reflexivity].
Qed.

Lemma getStreamUrl_sends remote s transferId fileId torrent first rest :
  JS.truthy (RealDebrid.apiKey s) = true ->
  RealDebrid.torrentInfo remote (RealDebrid.log s) (RealDebrid.authorization s)
    transferId = Ok torrent ->
  RealDebrid.RealDebridTorrent.status torrent = "downloaded"%string ->
  RealDebrid.RealDebridTorrent.links torrent = first :: rest ->
  Spec.unrestricted
    (RealDebrid.log (snd (RealDebrid.getStreamUrl remote transferId fileId s)))
  = Spec.unrestricted (RealDebrid.log s)
      ++ [RealDebrid.linkToUnrestrict torrent fileId first].
Proof.
  intros Hkey Hinfo Hst Hl. unfold RealDebrid.getStreamUrl. run_method.
  rewrite Hkey, Hinfo, Hst, Hl.
  cbn [RealDebrid.log RealDebrid.set_log RealDebrid.authorization String.eqb
       Ascii.eqb Bool.eqb negb].
  destruct (RealDebrid.unrestrictLink _ _ _ _);
    cbn; rewrite !unrestricted_app; cbn; rewrite app_nil_r; reflexivity.
Qed.

(** C3, as the code has it.  For a ready transfer of more than one file
    and no explicit file identifier, [getStreamUrl] sends one unrestrict
    request.  It restricts the files to those whose name ends in a dot and
    one of mp4, mkv, avi, mov, wmv, flv, webm, in any case, and takes among
    them the largest one (the first of that size); the request carries the
    link at the position of that file when the transfer has a link there,
    and the first link when no file is a video or when the links stop
    before that position. *)
Theorem getStreamUrl_biggest_video_wins :
  forall remote s transferId fileId torrent files first rest,
    JS.truthy (RealDebrid.apiKey s) = true ->
    RealDebrid.torrentInfo remote (RealDebrid.log s) (RealDebrid.authorization s)
      transferId = Ok torrent ->
    RealDebrid.RealDebridTorrent.status torrent = "downloaded"%string ->
    RealDebrid.RealDebridTorrent.links torrent = first :: rest ->
    RealDebrid.RealDebridTorrent.files torrent = Some files ->
    (1 < List.length files)%nat ->
    JS.truthy fileId = false ->
    exists link,
      Spec.unrestricted
        (RealDebrid.log (snd (RealDebrid.getStreamUrl remote transferId fileId s)))
      = Spec.unrestricted (RealDebrid.log s) ++ [link]
      /\ ((Spec.no_video files /\ link = first)
          \/ (exists i,
                 Spec.largest_video files i
                 /\ (nth_error (RealDebrid.RealDebridTorrent.links torrent) i
                     = Some link
                     \/ ((List.length (RealDebrid.RealDebridTorrent.links torrent)
                          <= i)%nat
                         /\ link = first)))).
Proof.
  intros remote s transferId fileId torrent files first rest
         Hkey Hinfo Hst Hl Hfiles Hlen Hfid.
  exists (RealDebrid.linkToUnrestrict torrent fileId first). split.
  - eapply getStreamUrl_sends; eassumption.
  - apply linkToUnrestrict_biggest_video; assumption.
Qed.

Lemma getStreamUrl_biggest_video_wins_witness :
  JS.truthy (RealDebrid.apiKey Examples.signed_in) = true
  /\ RealDebrid.RealDebridTorrent.status Examples.season_pack = "downloaded"%string
  /\ (1 < List.length [Examples.file 1 "Foo/movie.mp4" 524288000;
                       Examples.file 2 "Foo/info.nfo" 1024;
                       Examples.file 3 "Foo/movie.mkv" 1288490189])%nat
  /\ exists link,
      Spec.unrestricted
        (RealDebrid.log
           (snd (RealDebrid.getStreamUrl (Examples.service Examples.season_pack)
                   "T1" None Examples.signed_in)))
      = Spec.unrestricted (RealDebrid.log Examples.signed_in) ++ [link]
      /\ ((Spec.no_video [Examples.file 1 "Foo/movie.mp4" 524288000;
                          Examples.file 2 "Foo/info.nfo" 1024;
                          Examples.file 3 "Foo/movie.mkv" 1288490189]
           /\ link = "https://rd/0"%string)
          \/ (exists i,
                 Spec.largest_video
                   [Examples.file 1 "Foo/movie.mp4" 524288000;
                    Examples.file 2 "Foo/info.nfo" 1024;
                    Examples.file 3 "Foo/movie.mkv" 1288490189] i
                 /\ (nth_error (RealDebrid.RealDebridTorrent.links Examples.season_pack) i
                     = Some link
                     \/ ((List.length
                            (RealDebrid.RealDebridTorrent.links Examples.season_pack)
                          <= i)%nat
                         /\ link = "https://rd/0"%string)))).
Proof.
  split; [reflexivity|]. split; [reflexivity|]. split; [cbn; lia|].
  apply (getStreamUrl_biggest_video_wins (Examples.service Examples.season_pack)
           Examples.signed_in "T1"%string None Examples.season_pack _
           "https://rd/0"%string ["https://rd/1"%string; "https://rd/2"%string]);
    try reflexivity.
  cbn. lia.
Defined.

(** The transfer of the design document: of an mp4 of 500 MB, an nfo of
    1 KB and an mkv of 1.2 GB, the link of the mkv is unrestricted. *)
Lemma season_pack_streams_the_mkv :
  RealDebrid.getStreamUrl (Examples.service Examples.season_pack)
    "T1" None Examples.signed_in
  = (Ok "https://cdn/https://rd/2"%string,
     RealDebrid.set_log
       [ {| RealDebrid.sent_authorization := Some "Bearer good-key"%string;
            RealDebrid.sent_request := RealDebrid.GetTorrentInfo "T1" |};
         {| RealDebrid.sent_authorization := Some "Bearer good-key"%string;
            RealDebrid.sent_request :=
              RealDebrid.PostUnrestrictLink "https://rd/2" |} ]
       Examples.signed_in).
Proof. reflexivity. Qed.

(** C3, as the design document has it, fails on the code: for the two
    files of [Examples.one_link], an nfo and an mkv behind a single link,
    the link unrestricted is the first one, which is neither the link of the
    largest video (position 1 has no link) nor a fallback for want of a
    video. *)
Lemma single_link_defeats_biggest_video :
  Spec.unrestricted
    (RealDebrid.log
       (snd (RealDebrid.getStreamUrl (Examples.service Examples.one_link)
               "T1" None Examples.signed_in)))
  = ["https://rd/0"%string]
  /\ ~ Spec.selects_biggest_video Examples.one_link
         [Examples.file 1 "Foo/info.nfo" 1024;
          Examples.file 2 "Foo/movie.mkv" 1288490189]
         "https://rd/0".
Proof.
  split; [reflexivity|].
  intros [(i & (f & Hf & Hv & _) & Hl)|(Hno & _)].
  - destruct i as [|[|i]].
    + injection Hf as <-. apply test_video_spec in Hv. discriminate Hv.
    + discriminate Hl.
    + destruct i; discriminate Hf.
  - apply (Hno (Examples.file 2 "Foo/movie.mkv" 1288490189)).
    + right. left. reflexivity.
    + apply test_video_spec. reflexivity.
Qed.

(** *** Transfers *)

Lemma getTransferStatus_maps remote transferId s t s' :
  RealDebrid.getTransferStatus remote transferId s = (Ok t, s') ->
  exists torrent, t = RealDebrid.mapTorrentToTransfer torrent.
Proof.
  unfold RealDebrid.getTransferStatus. run_method.
  destruct (JS.truthy (RealDebrid.apiKey s)); [|discriminate].
  destruct (RealDebrid.torrentInfo _ _ _ _) as [torrent|e]; [|discriminate].
  intros H. injection H as <- _. exists torrent. reflexivity.
Qed.

Lemma addMagnet_maps remote magnetUri s t s' :
  RealDebrid.addMagnet remote magnetUri s = (Ok t, s') ->
  exists torrent, t = RealDebrid.mapTorrentToTransfer torrent.
Proof.
  unfold RealDebrid.addMagnet. run_method.
  destruct (JS.truthy (RealDebrid.apiKey s)); [|discriminate].
  destruct (RealDebrid.addMagnetId _ _ _ _) as [torrentId|e]; [|discriminate].
  destruct (RealDebrid.torrentInfo _ _ _ _) as [torrent|e]; [|discriminate].
  destruct (RealDebrid.RealDebridTorrent.files torrent) as [[|f fs]|];
    try (intros H; injection H as <- _; exists torrent; reflexivity).
  destruct (RealDebrid.selectFiles _ _ _ _ _); [|discriminate].
  intros H; injection H as <- _; exists torrent; reflexivity.
Qed.

(** C4, as the code has it.  Every Transfer that [addMagnet] or
    [getTransferStatus] returns carries no error detail, whatever its
    status: the backend never fills that field. *)
Theorem transfers_carry_no_error_detail :
  forall remote s s' t,
    (forall magnetUri,
        RealDebrid.addMagnet remote magnetUri s = (Ok t, s') ->
        DebridTransfer.error t = None)
    /\ (forall transferId,
           RealDebrid.getTransferStatus remote transferId s = (Ok t, s') ->
           DebridTransfer.error t = None).
Proof.
  intros remote s s' t. split.
  - intros magnetUri H. apply addMagnet_maps in H.
    destruct H as [torrent ->]. reflexivity.
  - intros transferId H. apply getTransferStatus_maps in H.
    destruct H as [torrent ->]. reflexivity.
Qed.

Lemma transfers_carry_no_error_detail_witness :
  (RealDebrid.addMagnet (Examples.service Examples.dead_source)
     "magnet:?xt=urn:btih:0123456789abcdef0123456789abcdef01234567"
     Examples.signed_in
   = (Ok (RealDebrid.mapTorrentToTransfer Examples.dead_source),
      snd (RealDebrid.addMagnet (Examples.service Examples.dead_source)
             "magnet:?xt=urn:btih:0123456789abcdef0123456789abcdef01234567"
             Examples.signed_in))
   /\ DebridTransfer.error (RealDebrid.mapTorrentToTransfer Examples.dead_source)
      = None)
  /\ (RealDebrid.getTransferStatus (Examples.service Examples.dead_source)
        "T1" Examples.signed_in
      = (Ok (RealDebrid.mapTorrentToTransfer Examples.dead_source),
         snd (RealDebrid.getTransferStatus (Examples.service Examples.dead_source)
                "T1" Examples.signed_in))
      /\ DebridTransfer.error (RealDebrid.mapTorrentToTransfer Examples.dead_source)
         = None).
Proof.
  split.
  - split; [reflexivity|].
    eapply (fun s' =>
              proj1 (transfers_carry_no_error_detail
                       (Examples.service Examples.dead_source) Examples.signed_in
                       s' (RealDebrid.mapTorrentToTransfer Examples.dead_source))
                    "magnet:?xt=urn:btih:0123456789abcdef0123456789abcdef01234567"%string).
    reflexivity.
  - split; [reflexivity|].
    eapply (fun s' =>
              proj2 (transfers_carry_no_error_detail
                       (Examples.service Examples.dead_source) Examples.signed_in
                       s' (RealDebrid.mapTorrentToTransfer Examples.dead_source))
                    "T1"%string).
    reflexivity.
Defined.

(** C4, as the design document has it, fails on the code: the transfer
    returned for a source the service reports dead has the status error and
    no error detail. *)
Lemma dead_transfer_has_no_error_detail :
  fst (RealDebrid.getTransferStatus (Examples.service Examples.dead_source)
         "T1" Examples.signed_in)
  = Ok (RealDebrid.mapTorrentToTransfer Examples.dead_source)
  /\ DebridTransfer.status (RealDebrid.mapTorrentToTransfer Examples.dead_source)
     = Status error
  /\ ~ Spec.error_has_detail (RealDebrid.mapTorrentToTransfer Examples.dead_source).
Proof.
  split; [reflexivity|]. split; [reflexivity|].
  intros H. specialize (H eq_refl). discriminate H.
Qed.

(** *** The status of a transfer *)

(** No transfer has the status processing. *)
Lemma status_never_processing (torrent : RealDebrid.RealDebridTorrent.t) :
  DebridTransfer.status (RealDebrid.mapTorrentToTransfer torrent)
  <> Status processing.
Proof.
  unfold RealDebrid.mapTorrentToTransfer. cbn [DebridTransfer.status].
  unfold JS.get.
  destruct (JS.own_property RealDebrid.statusMap _) as [s|] eqn:E.
  - destruct (statusMap_own _ _ E) as [H _]. congruence.
  - destruct (existsb _ _); discriminate.
Qed.

(** Away from the names of the members of Object.prototype the mapping is
    total: the status is one of queued, downloading, ready and error, and it
    is queued for every string outside the table. *)
Lemma status_total_off_prototype (torrent : RealDebrid.RealDebridTorrent.t) :
  ~ In (RealDebrid.RealDebridTorrent.status torrent) JS.Object_prototype_members ->
  Spec.produced_status
    (DebridTransfer.status (RealDebrid.mapTorrentToTransfer torrent))
  /\ (JS.own_property RealDebrid.statusMap
        (RealDebrid.RealDebridTorrent.status torrent) = None ->
      DebridTransfer.status (RealDebrid.mapTorrentToTransfer torrent)
      = Status queued).
Proof.
  intros Hno.
  assert (existsb (String.eqb (RealDebrid.RealDebridTorrent.status torrent))
                  JS.Object_prototype_members = false) as Hp.
  { destruct (existsb _ _) eqn:E; [|reflexivity].
    apply existsb_exists in E. destruct E as (m & Hm & E).
    apply String.eqb_eq in E. subst m. contradiction. }
  unfold RealDebrid.mapTorrentToTransfer. cbn [DebridTransfer.status].
  unfold JS.get. rewrite Hp.
  destruct (JS.own_property RealDebrid.statusMap _) as [s|] eqn:E.
  - split; [|discriminate].
    destruct (statusMap_own _ _ E) as [H _]. unfold Spec.produced_status.
    destruct s; auto. contradiction.
  - split; [left; reflexivity|reflexivity].
Qed.

(** C10 fails on the code at the remote status [constructor], the name of
    a member of Object.prototype: the read [statusMap[torrent.status]] finds
    the inherited member, which is truthy, so the fallback to queued is not
    taken and the status of the transfer is none of queued, downloading,
    ready and error. *)
Theorem status_of_inherited_member :
  fst (RealDebrid.getTransferStatus
         (Examples.service (Examples.torrent "constructor" [] None))
         "T1" Examples.signed_in)
  = Ok (RealDebrid.mapTorrentToTransfer (Examples.torrent "constructor" [] None))
  /\ DebridTransfer.status
       (RealDebrid.mapTorrentToTransfer (Examples.torrent "constructor" [] None))
     = PrototypeMember "constructor"
  /\ ~ Spec.produced_status
         (DebridTransfer.status
            (RealDebrid.mapTorrentToTransfer
               (Examples.torrent "constructor" [] None))).
Proof.
  split; [reflexivity|]. split; [reflexivity|].
  intros [H|[H|[H|H]]]; discriminate H.
Qed.

(** *** Authentication *)

Lemma unauthenticated_methods_fail remote s :
  RealDebrid.apiKey s = None ->
  RealDebrid.checkStatus remote s = (Err NotAuthenticated, s)
  /\ (forall magnetUri,
         RealDebrid.addMagnet remote magnetUri s = (Err NotAuthenticated, s))
  /\ (forall transferId,
         RealDebrid.getTransferStatus remote transferId s
         = (Err NotAuthenticated, s))
  /\ (forall transferId fileId,
         RealDebrid.getStreamUrl remote transferId fileId s
         = (Err NotAuthenticated, s))
  /\ (forall transferId,
         RealDebrid.deleteTransfer remote transferId s
         = (Err NotAuthenticated, s)).
Proof.
  intros H.
  unfold RealDebrid.checkStatus, RealDebrid.addMagnet,
    RealDebrid.getTransferStatus, RealDebrid.getStreamUrl,
    RealDebrid.deleteTransfer.
  run_method. rewrite H. cbn [JS.truthy].
  repeat split; reflexivity.
Qed.

Lemma authenticate_failure_clears_key remote credentials s e s' :
  RealDebrid.authenticate remote credentials s = (Err e, s') ->
  RealDebrid.apiKey s' = None.
Proof.
  unfold RealDebrid.authenticate. run_method.
  destruct (JS.truthy (DebridCredentials.apiKey credentials)),
    (DebridCredentials.apiKey credentials) as [key|];
    try (intros H; injection H as _ <-; reflexivity).
  cbn [RealDebrid.log RealDebrid.authorization RealDebrid.set_log
       RealDebrid.set_authorization RealDebrid.set_apiKey].
  destruct (RealDebrid.user remote _ _); [discriminate|].
  intros H; injection H as _ <-; reflexivity.
Qed.

(** The Authorization header after a failure is the one the call put in
    the client, if it came that far. *)
Lemma authenticate_failure_header remote credentials s e s' :
  RealDebrid.authenticate remote credentials s = (Err e, s') ->
  RealDebrid.authorization s'
  = match JS.truthy (DebridCredentials.apiKey credentials),
          DebridCredentials.apiKey credentials with
    | true, Some key => Some ("Bearer " ++ key)%string
    | _, _ => RealDebrid.authorization s
    end.
Proof.
  unfold RealDebrid.authenticate. run_method.
  destruct (JS.truthy (DebridCredentials.apiKey credentials)),
    (DebridCredentials.apiKey credentials) as [key|];
    try (intros H; injection H as _ <-; reflexivity).
  cbn [RealDebrid.log RealDebrid.authorization RealDebrid.set_log
       RealDebrid.set_authorization RealDebrid.set_apiKey].
  destruct (RealDebrid.user remote _ _); [discriminate|].
  intros H; injection H as _ <-; reflexivity.
Qed.

(** C5, as the code has it.  Whenever [authenticate] fails, which it does
    when the API key is absent (or empty) and when the account lookup of the
    service fails, the API key of the backend is unset, and a following
    [checkStatus] fails with the not-authenticated error without reaching
    the service, as does every other method that needs a session.  The
    Authorization header the call put in the client is not taken back: after
    a failed lookup it is still the one made of the rejected key, and after
    a call without a key it is the one that was there before. *)
Theorem failed_authenticate_leaves_no_session :
  forall remote credentials s,
    let run := RealDebrid.authenticate remote credentials s in
    (forall e,
        fst run = Err e ->
        RealDebrid.apiKey (snd run) = None
        /\ RealDebrid.checkStatus remote (snd run) = (Err NotAuthenticated, snd run)
        /\ (forall magnetUri,
               RealDebrid.addMagnet remote magnetUri (snd run)
               = (Err NotAuthenticated, snd run))
        /\ (forall transferId,
               RealDebrid.getTransferStatus remote transferId (snd run)
               = (Err NotAuthenticated, snd run))
        /\ (forall transferId fileId,
               RealDebrid.getStreamUrl remote transferId fileId (snd run)
               = (Err NotAuthenticated, snd run))
        /\ (forall transferId,
               RealDebrid.deleteTransfer remote transferId (snd run)
               = (Err NotAuthenticated, snd run))
        /\ (forall key,
               DebridCredentials.apiKey credentials = Some key ->
               key <> EmptyString ->
               RealDebrid.authorization (snd run)
               = Some ("Bearer " ++ key)%string)
        /\ (JS.truthy (DebridCredentials.apiKey credentials) = false ->
            RealDebrid.authorization (snd run) = RealDebrid.authorization s))
    /\ (JS.truthy (DebridCredentials.apiKey credentials) = false ->
        fst run = Err ApiKeyRequired)
    /\ (forall key e,
           DebridCredentials.apiKey credentials = Some key ->
           key <> EmptyString ->
           RealDebrid.user remote (RealDebrid.log s) (Some ("Bearer " ++ key)%string)
           = Err e ->
           fst run = Err e).
Proof.
  intros remote credentials s run. split; [|split].
  - intros e He.
    assert (RealDebrid.authenticate remote credentials s = (Err e, snd run)) as Hrun.
    { subst run. destruct (RealDebrid.authenticate remote credentials s).
      simpl in He. subst. reflexivity. }
    pose proof (authenticate_failure_clears_key remote credentials s e _ Hrun) as Hk.
    pose proof (authenticate_failure_header remote credentials s e _ Hrun) as Hh.
    split; [exact Hk|].
    destruct (unauthenticated_methods_fail remote (snd run) Hk)
      as (U1 & U2 & U3 & U4 & U5).
    split; [exact U1|]. split; [exact U2|]. split; [exact U3|].
    split; [exact U4|]. split; [exact U5|]. split.
    + intros key Hkey Hne. rewrite Hh, Hkey.
      destruct key; [contradiction|reflexivity].
    + intros Hf. rewrite Hh, Hf. reflexivity.
  - intros H. subst run. unfold RealDebrid.authenticate. run_method.
    rewrite H. reflexivity.
  - intros key e Hkey Hne Hu. subst run.
    unfold RealDebrid.authenticate. run_method. rewrite Hkey.
    assert (JS.truthy (Some key) = true) as ->
        by (destruct key; [contradiction|reflexivity]).
    cbn [RealDebrid.log RealDebrid.authorization RealDebrid.set_log
         RealDebrid.set_authorization RealDebrid.set_apiKey].
    rewrite Hu. reflexivity.
Qed.

Lemma failed_authenticate_leaves_no_session_witness :
  (fst (RealDebrid.authenticate (Examples.service Examples.season_pack)
          (Examples.key (Some "bad-key")) Examples.signed_in)
   = Err (RemoteFailure "401")
   /\ RealDebrid.apiKey
        (snd (RealDebrid.authenticate (Examples.service Examples.season_pack)
                (Examples.key (Some "bad-key")) Examples.signed_in))
      = None
   /\ fst (RealDebrid.checkStatus (Examples.service Examples.season_pack)
             (snd (RealDebrid.authenticate (Examples.service Examples.season_pack)
                     (Examples.key (Some "bad-key")) Examples.signed_in)))
      = Err NotAuthenticated
   /\ RealDebrid.authorization
        (snd (RealDebrid.authenticate (Examples.service Examples.season_pack)
                (Examples.key (Some "bad-key")) Examples.signed_in))
      = Some "Bearer bad-key"%string)
  /\ (JS.truthy (DebridCredentials.apiKey (Examples.key None)) = false
      /\ fst (RealDebrid.authenticate (Examples.service Examples.season_pack)
                (Examples.key None) Examples.signed_in)
         = Err ApiKeyRequired)
  /\ (RealDebrid.user (Examples.service Examples.season_pack)
        (RealDebrid.log Examples.signed_in) (Some "Bearer bad-key"%string)
      = Err (RemoteFailure "401")
      /\ fst (RealDebrid.authenticate (Examples.service Examples.season_pack)
                (Examples.key (Some "bad-key")) Examples.signed_in)
         = Err (RemoteFailure "401")).
Proof.
  split; [|split].
  - split; [reflexivity|].
    destruct (proj1 (failed_authenticate_leaves_no_session
                       (Examples.service Examples.season_pack)
                       (Examples.key (Some "bad-key"%string)) Examples.signed_in)
                    (RemoteFailure "401") eq_refl)
      as (Hk & Hc & _ & _ & _ & _ & Hh & _).
    split; [exact Hk|]. split; [rewrite Hc; reflexivity|].
    apply (Hh "bad-key"%string); [reflexivity|discriminate].
  - split; [reflexivity|].
    apply (failed_authenticate_leaves_no_session
             (Examples.service Examples.season_pack)
             (Examples.key None) Examples.signed_in).
    reflexivity.
  - split; [reflexivity|].
    apply (proj2 (proj2 (failed_authenticate_leaves_no_session
                           (Examples.service Examples.season_pack)
                           (Examples.key (Some "bad-key"%string))
                           Examples.signed_in))
                 "bad-key"%string);
      [reflexivity|discriminate|reflexivity].
Defined.

(** C5, as the design document has it, fails on the code.  A new backend
    asked to authenticate with a key the service rejects fails as the lookup
    failed, and is left with the header [Bearer bad-key] in its client: the
    handler resets the key alone, and nothing in the class removes the
    header. *)
Lemma failed_authenticate_keeps_the_header :
  fst (RealDebrid.authenticate (Examples.service Examples.season_pack)
         (Examples.key (Some "bad-key")) RealDebrid.initial)
  = Err (RemoteFailure "401")
  /\ RealDebrid.authorization
       (snd (RealDebrid.authenticate (Examples.service Examples.season_pack)
               (Examples.key (Some "bad-key")) RealDebrid.initial))
     = Some "Bearer bad-key"%string
  /\ ~ Spec.failure_discards_token (Examples.service Examples.season_pack)
         (Examples.key (Some "bad-key")) RealDebrid.initial.
Proof.
  split; [reflexivity|]. split; [reflexivity|].
  intros H. destruct (H (RemoteFailure "401") eq_refl) as [[_ Hh] _].
  discriminate Hh.
Qed.

(** Nor does a failed authentication reset the account of an earlier
    success, which [shutdown] clears. *)
Lemma failed_authenticate_keeps_account remote credentials s e s' :
  RealDebrid.authenticate remote credentials s = (Err e, s') ->
  RealDebrid.account s' = RealDebrid.account s.
Proof.
  unfold RealDebrid.authenticate. run_method.
  destruct (JS.truthy (DebridCredentials.apiKey credentials)),
    (DebridCredentials.apiKey credentials) as [key|];
    try (intros H; injection H as _ <-; reflexivity).
  cbn [RealDebrid.log RealDebrid.authorization RealDebrid.set_log
       RealDebrid.set_authorization RealDebrid.set_apiKey].
  destruct (RealDebrid.user remote _ _); [discriminate|].
  intros H; injection H as _ <-; reflexivity.
Qed.

(** ** Episode queries *)

Lemma decimal_digits_grows (fuel : nat) (n : Z) (acc : string) :
  (String.length acc <= String.length (JS.decimal_digits fuel n acc))%nat.
Proof.
  revert n acc. induction fuel as [|k IH]; intros n acc; simpl; [lia|].
  destruct (n <? 10); simpl; [lia|].
  specialize (IH (n / 10) (String (JS.digit_char (n mod 10)) acc)).
  simpl in IH. lia.
Qed.

Lemma to_lu_units (r : N) :
  (0 < r < 10)%N ->
  forall acc : Decimal.uint,
    DecimalString.NilEmpty.string_of_uint
      (Decimal.revapp (DecimalPos.Unsigned.to_lu r) acc)
    = String (JS.digit_char (Z.of_N r)) (DecimalString.NilEmpty.string_of_uint acc).
Proof.
  intros H acc.
  assert (r = 1 \/ r = 2 \/ r = 3 \/ r = 4 \/ r = 5 \/ r = 6 \/ r = 7 \/ r = 8
          \/ r = 9)%N as Hr by lia.
  decompose [or] Hr; subst r; reflexivity.
Qed.

Lemma to_lu_tens (q r : N) :
  (0 < q)%N -> (r < 10)%N ->
  forall acc : Decimal.uint,
  exists acc',
    Decimal.revapp (DecimalPos.Unsigned.to_lu (10 * q + r)) acc
    = Decimal.revapp (DecimalPos.Unsigned.to_lu q) acc'
    /\ DecimalString.NilEmpty.string_of_uint acc'
       = String (JS.digit_char (Z.of_N r)) (DecimalString.NilEmpty.string_of_uint acc).
Proof.
  intros Hq Hr acc. destruct q as [|p]; [lia|].
  pose proof (DecimalPos.Unsigned.to_ldec_tenfold p) as T.
  assert (r = 0 \/ r = 1 \/ r = 2 \/ r = 3 \/ r = 4 \/ r = 5 \/ r = 6 \/ r = 7
          \/ r = 8 \/ r = 9)%N as Hd by lia.
  decompose [or] Hd; subst r.
  - rewrite N.add_0_r, T. eexists. split; [reflexivity|reflexivity].
  - replace (10 * N.pos p + 1)%N with (N.succ (10 * N.pos p)) by lia.
    rewrite !DecimalPos.Unsigned.to_lu_succ, T. eexists. split; reflexivity.
  - replace (10 * N.pos p + 2)%N with (N.succ (N.succ (10 * N.pos p))) by lia.
    rewrite !DecimalPos.Unsigned.to_lu_succ, T. eexists. split; reflexivity.
  - replace (10 * N.pos p + 3)%N
      with (N.succ (N.succ (N.succ (10 * N.pos p)))) by lia.
    rewrite !DecimalPos.Unsigned.to_lu_succ, T. eexists. split; reflexivity.
  - replace (10 * N.pos p + 4)%N
      with (N.succ (N.succ (N.succ (N.succ (10 * N.pos p))))) by lia.
    rewrite !DecimalPos.Unsigned.to_lu_succ, T. eexists. split; reflexivity.
  - replace (10 * N.pos p + 5)%N
      with (N.succ (N.succ (N.succ (N.succ (N.succ (10 * N.pos p)))))) by lia.
    rewrite !DecimalPos.Unsigned.to_lu_succ, T. eexists. split; reflexivity.
  - replace (10 * N.pos p + 6)%N
      with (N.succ (N.succ (N.succ (N.succ (N.succ (N.succ (10 * N.pos p)))))))
      by lia.
    rewrite !DecimalPos.Unsigned.to_lu_succ, T. eexists. split; reflexivity.
  - replace (10 * N.pos p + 7)%N
      with (N.succ (N.succ (N.succ (N.succ (N.succ (N.succ
             (N.succ (10 * N.pos p)))))))) by lia.
    rewrite !DecimalPos.Unsigned.to_lu_succ, T. eexists. split; reflexivity.
  - replace (10 * N.pos p + 8)%N
      with (N.succ (N.succ (N.succ (N.succ (N.succ (N.succ
             (N.succ (N.succ (10 * N.pos p))))))))) by lia.
    rewrite !DecimalPos.Unsigned.to_lu_succ, T. eexists. split; reflexivity.
  - replace (10 * N.pos p + 9)%N
      with (N.succ (N.succ (N.succ (N.succ (N.succ (N.succ
             (N.succ (N.succ (N.succ (10 * N.pos p)))))))))) by lia.
    rewrite !DecimalPos.Unsigned.to_lu_succ, T. eexists. split; reflexivity.
Qed.

(** The digits the code model writes are those of the printer of the
    standard library. *)
Lemma decimal_digits_printed (k : nat) :
  forall n acc_s acc_u,
    0 < n < 10 ^ Z.of_nat (S k) ->
    DecimalString.NilEmpty.string_of_uint acc_u = acc_s ->
    JS.decimal_digits (S k) n acc_s
    = DecimalString.NilEmpty.string_of_uint
        (Decimal.revapp (DecimalPos.Unsigned.to_lu (Z.to_N n)) acc_u).
Proof.
  induction k as [|k IH]; intros n acc_s acc_u Hn Hacc.
  - change (10 ^ Z.of_nat 1) with 10 in Hn.
    cbn [JS.decimal_digits]. destruct (Z.ltb_spec n 10); [|lia].
    rewrite to_lu_units by lia. rewrite Z2N.id by lia.
    rewrite Z.mod_small by lia. rewrite Hacc. reflexivity.
  - remember (S k) as k'. cbn [JS.decimal_digits].
    destruct (Z.ltb_spec n 10) as [Hlt|Hge].
    + rewrite to_lu_units by lia. rewrite Z2N.id by lia.
      rewrite Z.mod_small by lia. rewrite Hacc. reflexivity.
    + subst k'.
      assert (0 < n / 10 < 10 ^ Z.of_nat (S k)) as Hq.
      { split; [apply Z.div_str_pos; lia|].
        apply Z.div_lt_upper_bound; [lia|].
        rewrite <- Z.pow_succ_r by lia. rewrite <- Nat2Z.inj_succ. lia. }
      assert (0 <= n mod 10 < 10) as Hm by (apply Z.mod_pos_bound; lia).
      assert (Z.to_N n = (10 * Z.to_N (n / 10) + Z.to_N (n mod 10))%N) as En.
      { pose proof (Z.div_mod n 10). lia. }
      rewrite En.
      destruct (to_lu_tens (Z.to_N (n / 10)) (Z.to_N (n mod 10))
                  ltac:(lia) ltac:(lia) acc_u) as (acc' & -> & Hs).
      apply IH; [exact Hq|].
      rewrite Hs, Z2N.id by lia. rewrite Hacc. reflexivity.
Qed.

Lemma decimal_printed (n : Z) :
  0 <= n ->
  JS.decimal n = DecimalString.NilZero.string_of_int (Z.to_int n).
Proof.
  intros Hn. destruct n as [|p|p]; [reflexivity| |lia].
  unfold JS.decimal.
  assert (Z.pos p < 10 ^ Z.of_nat (S (Z.to_nat (Z.log2 (Z.pos p))))) as Hb.
  { rewrite Nat2Z.inj_succ, Z2Nat.id by apply Z.log2_nonneg.
    apply Z.lt_le_trans with (2 ^ Z.succ (Z.log2 (Z.pos p))).
    - apply Z.log2_spec. lia.
    - apply Z.pow_le_mono_l. pose proof (Z.log2_nonneg (Z.pos p)). lia. }
  rewrite (decimal_digits_printed _ (Z.pos p) EmptyString Decimal.Nil);
    [|lia|reflexivity].
  cbn [Z.to_int DecimalString.NilZero.string_of_int].
  unfold DecimalString.NilZero.string_of_uint.
  pose proof (DecimalPos.Unsigned.to_uint_nonnil p) as Hnn.
  unfold Pos.to_uint, Decimal.rev in *. cbn [Z.to_N DecimalPos.Unsigned.to_lu].
  destruct (Decimal.revapp (Pos.to_little_uint p) Decimal.Nil);
    [contradiction Hnn; reflexivity|reflexivity..].
Qed.

Lemma decimal_not_empty (n : Z) : (1 <= String.length (JS.decimal n))%nat.
Proof.
  unfold JS.decimal. cbn [JS.decimal_digits].
  destruct (n <? 10); [simpl; lia|].
  match goal with
  | |- (_ <= String.length (JS.decimal_digits ?f ?m ?acc))%nat =>
      pose proof (decimal_digits_grows f m acc) as Hg
  end.
  simpl in Hg. lia.
Qed.

(** Within the safe integers [String(n)] is the number in decimal. *)
Lemma Number_toString_printed (n : Z) :
  Z.abs n < 2 ^ 53 ->
  JS.Number_toString n = DecimalString.NilZero.string_of_int (Z.to_int n).
Proof.
  intros Hn. unfold JS.Number_toString, JS.unsigned_toString.
  destruct (Z.ltb_spec n 0) as [Hneg|Hpos].
  - destruct (Z.ltb_spec (- n) (2 ^ 53)); [|lia].
    rewrite decimal_printed by lia.
    destruct n as [|p|p]; [lia|lia|].
    cbn [Z.opp Z.to_int DecimalString.NilZero.string_of_int]. reflexivity.
  - destruct (Z.ltb_spec n (2 ^ 53)); [|lia].
    apply decimal_printed. exact Hpos.
Qed.

Lemma Number_toString_not_empty (n : Z) :
  Z.abs n < 2 ^ 53 -> (1 <= String.length (JS.Number_toString n))%nat.
Proof.
  intros Hn. unfold JS.Number_toString, JS.unsigned_toString.
  destruct (Z.ltb_spec n 0).
  - cbn [String.length]. lia.
  - destruct (Z.ltb_spec n (2 ^ 53)); [apply decimal_not_empty|lia].
Qed.

(** [s.padStart(2, '0')] puts one zero in front of a single character. *)
Lemma padStart_two (s : string) :
  (1 <= String.length s)%nat ->
  JS.padStart s 2 "0" = if (String.length s <? 2)%nat then String "0" s else s.
Proof.
  intros Hs. unfold JS.padStart.
  destruct s as [|c [|c2 r]]; [simpl in Hs; lia|reflexivity|reflexivity].
Qed.

(** [String(n).padStart(2, '0')] is the conversion [%02d] on the safe
    integers. *)
Lemma padStart_is_printf_02d (n : Z) :
  Z.abs n < 2 ^ 53 ->
  JS.padStart (JS.Number_toString n) 2 "0" = Spec.printf_02d n.
Proof.
  intros Hn. rewrite padStart_two by (apply Number_toString_not_empty; exact Hn).
  unfold Spec.printf_02d. rewrite (Number_toString_printed n Hn). reflexivity.
Qed.

(** C7, as the code has it.  For every series name and all season and
    episode numbers that are safe integers from 1 on (below [2 ^ 53]),
    [searchEpisode] is [search] on the query made of the series name and the
    markers [S%02dE%02d], for the media type series: the two calls send the
    same request and return the same candidates. *)
Theorem searchEpisode_is_search_on_padded_query :
  forall http_get table_rows seriesName season episode,
    1 <= season < 2 ^ 53 -> 1 <= episode < 2 ^ 53 ->
    Spec.episode_search_is_padded_search http_get table_rows seriesName
      season episode.
Proof.
  intros http_get table_rows seriesName season episode Hs He.
  unfold Spec.episode_search_is_padded_search, LimeTorrents.searchEpisode.
  rewrite !padStart_is_printf_02d by lia. reflexivity.
Qed.

Lemma searchEpisode_is_search_on_padded_query_witness :
  1 <= 2 < 2 ^ 53 /\ 1 <= 5 < 2 ^ 53
  /\ ("Foo" ++ " S" ++ Spec.printf_02d 2 ++ "E" ++ Spec.printf_02d 5)%string
     = "Foo S02E05"%string
  /\ Spec.episode_search_is_padded_search Examples.any_page Examples.rows_of
       "Foo" 2 5.
Proof.
  split; [lia|]. split; [lia|]. split; [reflexivity|].
  apply (searchEpisode_is_search_on_padded_query Examples.any_page
           Examples.rows_of "Foo"%string 2 5); lia.
Defined.

(** C7, as the design document has it, for every number from 1 on, fails
    on the code.  [String(n)] writes a number from [10 ^ 21] on with an
    exponent, and a number beyond the safe integers with the fewest digits
    that tell it from its neighbours: for the season [10 ^ 21] the code asks
    for [Foo S1e+21E01], not for the query with the 22 digits [%02d] prints,
    and a site that knows only the latter answers the two calls
    differently. *)
Lemma huge_season_is_written_with_an_exponent :
  1 <= 10 ^ 21 /\ 1 <= 1
  /\ JS.padStart (JS.Number_toString (10 ^ 21)) 2 "0" = "1e+21"%string
  /\ Spec.printf_02d (10 ^ 21) = "1000000000000000000000"%string
  /\ JS.padStart (JS.Number_toString (2 ^ 60)) 2 "0" = "1152921504606847000"%string
  /\ Spec.printf_02d (2 ^ 60) = "1152921504606846976"%string
  /\ ~ Spec.episode_search_is_padded_search
         (Examples.one_page
            "https://www.limetorrents.lol/search/all/Foo%20S1000000000000000000000E01/seeds/1/")
         Examples.rows_of "Foo" (10 ^ 21) 1.
Proof.
  split; [lia|]. split; [lia|].
  split; [vm_compute; reflexivity|]. split; [vm_compute; reflexivity|].
  split; [vm_compute; reflexivity|]. split; [vm_compute; reflexivity|].
  unfold Spec.episode_search_is_padded_search. intros H.
  vm_compute in H. discriminate H.
Qed.

(** ** Sizes *)



Lemma in_append (c : ascii) (a b : string) :
  List.In c (list_ascii_of_string (a ++ b))
  <-> List.In c (list_ascii_of_string a) \/ List.In c (list_ascii_of_string b).
Proof.
  induction a as [|x r IH]; simpl; [tauto|]. rewrite IH. tauto.
Qed.


Lemma append_length (a b : string) :
  String.length (a ++ b) = (String.length a + String.length b)%nat.
Proof. induction a as [|c r IH]; simpl; [reflexivity|]. rewrite IH. reflexivity. Qed.

(** Reading digits from the left computes the number they denote. *)
Lemma digits_value_denoted (s : string) :
  Spec.all_digits s = true ->
  forall acc,
    JS.digits_value JS.digit_of 10 s acc
    = acc * 10 ^ Z.of_nat (String.length s) + Spec.denoted s.
Proof.
  induction s as [|c r IH]; intros Hs acc.
  - simpl. lia.
  - cbn [Spec.all_digits] in Hs. apply andb_true_iff in Hs. destruct Hs as [Hc Hr].
    cbn [JS.digits_value Spec.denoted String.length].
    unfold JS.is_digit in Hc. destruct (JS.digit_of c) as [d|]; [|discriminate].
    rewrite (IH Hr). rewrite Nat2Z.inj_succ, Z.pow_succ_r by lia. ring.
Qed.

Lemma denoted_append (a b : string) :
  Spec.all_digits a = true -> Spec.all_digits b = true ->
  Spec.denoted (a ++ b)
  = Spec.denoted a * 10 ^ Z.of_nat (String.length b) + Spec.denoted b.
Proof.
  intros Ha Hb.
  assert (Spec.all_digits (a ++ b) = true) as Hab.
  { clear -Ha Hb. induction a as [|c r IH]; simpl in *; [exact Hb|].
    apply andb_true_iff in Ha. destruct Ha as [-> Hr]. apply IH, Hr. }
  pose proof (digits_value_denoted (a ++ b) Hab 0) as H1.
  assert (JS.digits_value JS.digit_of 10 (a ++ b) 0
          = JS.digits_value JS.digit_of 10 b (JS.digits_value JS.digit_of 10 a 0))
    as H2.
  { clear -Ha. generalize 0. induction a as [|c r IH]; intros acc; simpl in *;
      [reflexivity|].
    apply andb_true_iff in Ha. destruct Ha as [Hc Hr].
    unfold JS.is_digit in Hc. destruct (JS.digit_of c); [|discriminate].
    apply IH, Hr. }
  rewrite H2, (digits_value_denoted b Hb), (digits_value_denoted a Ha) in H1.
  lia.
Qed.

Lemma append_empty (s : string) : (s ++ EmptyString)%string = s.
Proof. induction s as [|c r IH]; simpl; [reflexivity|]. rewrite IH. reflexivity. Qed.


Lemma all_digits_append (a b : string) :
  Spec.all_digits a = true -> Spec.all_digits b = true ->
  Spec.all_digits (a ++ b) = true.
Proof.
  intros Ha Hb. induction a as [|c r IH]; simpl in *; [exact Hb|].
  apply andb_true_iff in Ha. destruct Ha as [-> Hr]. apply IH, Hr.
Qed.

(** *** Rounding to binary64 *)

Lemma Qpow2_pos (E : Z) : (0 < 2 ^ E)%Q.
Proof. apply Qpower_0_lt. reflexivity. Qed.

Lemma Qpow2_add (a b : Z) : (2 ^ (a + b) == 2 ^ a * 2 ^ b)%Q.
Proof. apply Qpower_plus. discriminate. Qed.



Lemma Qpow2_inject (n : Z) : 0 <= n -> (inject_Z (2 ^ n) == 2 ^ n)%Q.
Proof. intros H. apply (Zpower_Qpower 2 n H). Qed.

(** [2 ^ E] as the quotient of the two powers the code multiplies by. *)
Lemma Qpow2_split (E : Z) :
  (inject_Z (2 ^ Z.max E 0) == 2 ^ E * inject_Z (2 ^ Z.max (- E) 0))%Q.
Proof.
  destruct (Z.le_gt_cases 0 E) as [H|H].
  - rewrite Z.max_l, (Z.max_r (- E) 0) by lia.
    rewrite (Qpow2_inject E) by lia. change (inject_Z (2 ^ 0)) with 1%Q. ring.
  - rewrite Z.max_r, (Z.max_l (- E) 0) by lia.
    rewrite (Qpow2_inject (- E)) by lia. rewrite <- Qpow2_add.
    replace (E + - E) with 0 by lia. reflexivity.
Qed.

Lemma pow2_max_pos (E : Z) : 0 < 2 ^ Z.max E 0.
Proof. apply Z.pow_pos_nonneg; lia. Qed.

Lemma scaled_value (m E : Z) : (JS.scaled m E == inject_Z m * 2 ^ E)%Q.
Proof.
  unfold JS.scaled. rewrite Qred_correct, Qmake_Qdiv.
  rewrite Z2Pos.id by apply pow2_max_pos.
  rewrite inject_Z_mult, Qpow2_split.
  pose proof (pow2_max_pos (- E)) as Hp.
  field. intros H. unfold Qeq in H. simpl in H. lia.
Qed.


Lemma nearest_even_nonneg (p d : Z) :
  0 <= p -> 0 < d -> 0 <= JS.nearest_even p d.
Proof.
  intros Hp Hd. unfold JS.nearest_even.
  pose proof (Z.div_pos p d Hp Hd) as F.
  destruct (2 * (p mod d) ?= d); [destruct (Z.even (p / d))| |]; lia.
Qed.











Lemma digit_of_nonneg (c : ascii) (d : Z) : JS.digit_of c = Some d -> 0 <= d.
Proof.
  unfold JS.digit_of. destruct (Z.leb_spec 48 (JS.code c)); cbn [andb];
    [|discriminate].
  destruct (JS.code c <=? 57); [|discriminate].
  intros X. injection X as <-. lia.
Qed.

Lemma digits_value_nonneg (s : string) :
  forall acc, 0 <= acc -> 0 <= JS.digits_value JS.digit_of 10 s acc.
Proof.
  induction s as [|c r IH]; intros acc Hacc; cbn [JS.digits_value];
    [exact Hacc|].
  destruct (JS.digit_of c) as [d|] eqn:E; [|exact Hacc].
  apply IH. pose proof (digit_of_nonneg _ _ E). lia.
Qed.



Lemma space_is_no_size_char (c : ascii) :
  (JS.is_space1 c = true -> LimeTorrents.is_size_char c = false)
  /\ (forall c2, JS.is_space2 c c2 = true ->
                 LimeTorrents.is_size_char c = false /\ JS.is_space1 c = false)
  /\ (forall c2 c3, JS.is_space3 c c2 c3 = true ->
                    LimeTorrents.is_size_char c = false
                    /\ JS.is_space1 c = false
                    /\ JS.is_space2 c c2 = false).
Proof.
  unfold JS.is_space1, JS.is_space2, JS.is_space3.
  destruct c as [[] [] [] [] [] [] [] []];
    match goal with
    | |- context [JS.code ?a] =>
        let v := eval vm_compute in (JS.code a) in
        change (JS.code a) with v
    end;
    (split; [|split]); intros; cbn in *;
    repeat split; try reflexivity; try discriminate; try assumption.
Qed.















(** The two sizes of the design document, in bytes; and a number of 310
    digits, which is beyond the finite Numbers. *)
Lemma parseSize_examples :
  LimeTorrents.parseSize "1.5 GB" = JS.Num (inject_Z 1610612736)
  /\ LimeTorrents.parseSize "700 MB" = JS.Num (inject_Z 734003200)
  /\ LimeTorrents.parseSize (String "1" (JS.zeros 309) ++ " KB") = JS.Infinity.
Proof. repeat split; vm_compute; reflexivity. Qed.

(** ** Magnet URIs *)

Lemma append_assoc (a b c : string) :
  ((a ++ b) ++ c)%string = (a ++ (b ++ c))%string.
Proof. induction a as [|x r IH]; simpl; [reflexivity|]. rewrite IH. reflexivity. Qed.

Lemma strip_prefix_append (p s : string) : JS.strip_prefix p (p ++ s) = Some s.
Proof.
  induction p as [|c r IH]; simpl; [reflexivity|].
  rewrite Ascii.eqb_refl. exact IH.
Qed.

Lemma split_on_first (sep : ascii) (a b : string) :
  (forall c, List.In c (list_ascii_of_string a) -> c <> sep) ->
  Spec.split_on sep (a ++ String sep b) = a :: Spec.split_on sep b.
Proof.
  intros Ha. induction a as [|c r IH]; simpl.
  - rewrite Ascii.eqb_refl. reflexivity.
  - destruct (Ascii.eqb_spec c sep) as [E|_].
    + exfalso. apply (Ha c); [left; reflexivity|exact E].
    + rewrite IH; [reflexivity|]. intros c' Hc'. apply Ha. right. exact Hc'.
Qed.

Lemma all_hex_in (h : string) :
  Spec.all_hex h = true ->
  forall c, List.In c (list_ascii_of_string h) -> JS.is_hex_digit c = true.
Proof.
  induction h as [|c r IH]; simpl; [intros _ ? []|].
  rewrite andb_true_iff. intros [Hc Hr] c' [<-|H]; [exact Hc|apply IH; assumption].
Qed.

Lemma parse_xt_of_built (H N : string) :
  Spec.all_hex H = true ->
  Spec.parse_xt (LimeTorrents.buildMagnetUri H N) = Some H.
Proof.
  intros Hhex.
  unfold LimeTorrents.buildMagnetUri, Spec.parse_xt.
  change ("magnet:?xt=urn:btih:" ++ H ++ "&dn=" ++ JS.encodeURIComponent N
            ++ String.concat EmptyString
                 (map (fun t => "&tr=" ++ JS.encodeURIComponent t)
                      LimeTorrents.trackers))%string
    with ("magnet:?" ++ ("xt=urn:btih:" ++ H
            ++ String "&" ("dn=" ++ JS.encodeURIComponent N
                 ++ String.concat EmptyString
                      (map (fun t => "&tr=" ++ JS.encodeURIComponent t)
                           LimeTorrents.trackers))))%string.
  rewrite strip_prefix_append.
  rewrite <- append_assoc.
  rewrite split_on_first.
  - cbn [Spec.first_param].
    change ("xt" ++ "=")%string with "xt="%string.
    change ("xt=urn:btih:" ++ H)%string with ("xt=" ++ ("urn:btih:" ++ H))%string.
    rewrite strip_prefix_append. apply strip_prefix_append.
  - intros c Hc E. subst c. apply in_append in Hc.
    destruct Hc as [Hc|Hc].
    + simpl in Hc. decompose [or] Hc; try discriminate; contradiction.
    + pose proof (all_hex_in H Hhex _ Hc) as X. discriminate X.
Qed.

(** C9. Round trip: for every content hash [H] of 40 hexadecimal
    characters and every display name [N], the [xt] parameter of the magnet
    URI built from [H] and [N] parses back to [H] itself, hence to [H] up to
    the case of letters. *)
Theorem magnet_round_trip :
  forall H N,
    Spec.content_hash H = true ->
    exists H',
      Spec.parse_xt (LimeTorrents.buildMagnetUri H N) = Some H'
      /\ H' = H
      /\ Spec.same_ci H' H.
Proof.
  intros H N HH. exists H. split; [|split; reflexivity].
  unfold Spec.content_hash in HH. apply andb_true_iff in HH.
  apply parse_xt_of_built, HH.
Qed.

Lemma magnet_round_trip_witness :
  Spec.content_hash "0123456789abcdef0123456789ABCDEF01234567" = true
  /\ exists H',
      Spec.parse_xt
        (LimeTorrents.buildMagnetUri "0123456789abcdef0123456789ABCDEF01234567"
           "Foo & Bar = 1080p")
      = Some H'
      /\ H' = "0123456789abcdef0123456789ABCDEF01234567"%string
      /\ Spec.same_ci H' "0123456789abcdef0123456789ABCDEF01234567".
Proof.
  split; [reflexivity|].
  apply (magnet_round_trip "0123456789abcdef0123456789ABCDEF01234567"%string
           "Foo & Bar = 1080p"%string).
  reflexivity.
Defined.

(** The hash the scraper reads off a detail link is a content hash, in
    lower case; it is the hash it builds the magnet URI from. *)
Lemma lower_char_hex (c : ascii) :
  JS.is_hex_digit (JS.lower_char c) = JS.is_hex_digit c.
Proof. destruct c as [[] [] [] [] [] [] [] []]; reflexivity. Qed.

Lemma take_hex_spec (n : nat) (s h rest : string) :
  LimeTorrents.take_hex n s = Some (h, rest) ->
  String.length h = n /\ Spec.all_hex h = true.
Proof.
  revert s h rest. induction n as [|k IH]; intros s h rest; simpl.
  - intros E. injection E as <- _. split; reflexivity.
  - destruct s as [|c r]; [discriminate|].
    destruct (JS.is_hex_digit c) eqn:Ec; [|discriminate].
    destruct (LimeTorrents.take_hex k r) as [[h' rest']|] eqn:E; [|discriminate].
    intros X. injection X as <- _. destruct (IH _ _ _ E) as [Hl Hh].
    simpl. rewrite Ec, Hl, Hh. split; reflexivity.
Qed.

Lemma match_hash_spec (link h : string) :
  LimeTorrents.match_hash link = Some h ->
  String.length h = 40%nat /\ Spec.all_hex h = true.
Proof.
  induction link as [|c r IH]; cbn [LimeTorrents.match_hash].
  - discriminate.
  - destruct (LimeTorrents.hash_at_head (String c r)) as [h'|] eqn:E.
    + intros X. injection X as ->. unfold LimeTorrents.hash_at_head in E.
      destruct (Ascii.eqb c "/"); [|discriminate].
      destruct (LimeTorrents.take_hex 40 r) as [[h' [|c' rest]]|] eqn:T;
        try discriminate.
      destruct (Ascii.eqb c' "/"); [|discriminate].
      injection E as ->. exact (take_hex_spec _ _ _ _ T).
    + exact IH.
Qed.

Lemma extracted_hash_is_content_hash (link : option string) (h : string) :
  LimeTorrents.extractInfoHashFromLink link = Some h ->
  Spec.content_hash h = true.
Proof.
  unfold LimeTorrents.extractInfoHashFromLink.
  destruct (JS.truthy link); [|discriminate].
  destruct link as [l|]; [|discriminate]. cbn [negb].
  destruct (LimeTorrents.match_hash l) as [h'|] eqn:E; [|discriminate].
  intros X. injection X as <-.
  destruct (match_hash_spec _ _ E) as [Hl Hh].
  unfold Spec.content_hash. apply andb_true_iff. split.
  - apply Nat.eqb_eq. rewrite <- Hl. clear.
    unfold JS.toLowerCase. induction h' as [|c r IH]; simpl; [reflexivity|].
    rewrite IH. reflexivity.
  - clear -Hh. unfold JS.toLowerCase.
    induction h' as [|c r IH]; simpl in *; [reflexivity|].
    apply andb_true_iff in Hh. destruct Hh as [Hc Hr].
    rewrite lower_char_hex, Hc. apply IH, Hr.
Qed.

(** Every candidate of the scraper carries a magnet URI whose [xt]
    parameter is its own content hash. *)
Lemma candidate_magnet_carries_hash (row : LimeTorrents.Row) (r : TorrentResult.t) :
  LimeTorrents.parseRow row = Some r ->
  TorrentResult.id r = TorrentResult.infoHash r
  /\ Spec.parse_xt (TorrentResult.magnetUri r) = Some (TorrentResult.infoHash r).
Proof.
  unfold LimeTorrents.parseRow.
  destruct (JS.is_empty (LimeTorrents.row_name row)); [discriminate|].
  destruct (LimeTorrents.extractInfoHashFromLink _) as [h|] eqn:E; [|discriminate].
  intros X. injection X as <-. cbn. split; [reflexivity|].
  apply parse_xt_of_built.
  pose proof (extracted_hash_is_content_hash _ _ E) as Hc.
  unfold Spec.content_hash in Hc. apply andb_true_iff in Hc. apply Hc.
Qed.

(** The hash of a detail link reaches the magnet URI in lower case: this is
    where the round trip from the index to the magnet URI is only up to
    case. *)
Lemma take_hex_exact (h rest : string) :
  Spec.all_hex h = true ->
  LimeTorrents.take_hex (String.length h) (h ++ rest) = Some (h, rest).
Proof.
  induction h as [|c r IH]; simpl; [reflexivity|].
  rewrite andb_true_iff. intros [-> Hr]. rewrite (IH Hr). reflexivity.
Qed.

Lemma lower_char_idempotent (c : ascii) :
  JS.lower_char (JS.lower_char c) = JS.lower_char c.
Proof. destruct c as [[] [] [] [] [] [] [] []]; reflexivity. Qed.

Lemma link_hash_lowered (H post N : string) :
  Spec.content_hash H = true ->
  LimeTorrents.extractInfoHashFromLink
    (Some (String "/" (H ++ String "/" post)))
  = Some (JS.toLowerCase H)
  /\ Spec.parse_xt (LimeTorrents.buildMagnetUri (JS.toLowerCase H) N)
     = Some (JS.toLowerCase H)
  /\ Spec.same_ci (JS.toLowerCase H) H.
Proof.
  intros HH. unfold Spec.content_hash in HH. apply andb_true_iff in HH.
  destruct HH as [Hl Hh]. apply Nat.eqb_eq in Hl.
  split; [|split].
  - unfold LimeTorrents.extractInfoHashFromLink.
    cbn [JS.truthy JS.is_empty negb LimeTorrents.match_hash
         LimeTorrents.hash_at_head Ascii.eqb Bool.eqb].
    rewrite <- Hl, (take_hex_exact H _ Hh).
    cbn [Ascii.eqb Bool.eqb option_map]. reflexivity.
  - apply parse_xt_of_built. clear -Hh. unfold JS.toLowerCase.
    induction H as [|c r IH]; simpl in *; [reflexivity|].
    apply andb_true_iff in Hh. destruct Hh as [Hc Hr].
    rewrite lower_char_hex, Hc. apply IH, Hr.
  - unfold Spec.same_ci, JS.toLowerCase. clear.
    induction H as [|c r IH]; simpl; [reflexivity|].
    rewrite lower_char_idempotent, IH. reflexivity.
Qed.

(** The one parser of the scraper reads detail links, not magnet URIs: a
    magnet URI it built has no slash left for it to match. *)
Lemma built_magnet_is_no_detail_link :
  LimeTorrents.extractInfoHashFromLink
    (Some (LimeTorrents.buildMagnetUri
             "0123456789abcdef0123456789abcdef01234567" "Foo S02E05 720p"))
  = None.
Proof. vm_compute. reflexivity. Qed.


(** * Further properties *)

(** ** The candidates of the scraper *)

Lemma pushed_in (rows : list LimeTorrents.Row) (r : TorrentResult.t) :
  In r (LimeTorrents.pushed rows)
  <-> exists row, In row rows /\ LimeTorrents.parseRow row = Some r.
Proof.
  induction rows as [|row rest IH]; simpl.
  - split; [intros []|intros (? & [] & _)].
  - destruct (LimeTorrents.parseRow row) as [r'|] eqn:E; simpl; rewrite IH.
    + split.
      * intros [<-|(row' & Hin & H)]; [exists row; auto|exists row'; auto].
      * intros (row' & [<-|Hin] & H); [left; congruence|right; exists row'; auto].
    + split.
      * intros (row' & Hin & H). exists row'; auto.
      * intros (row' & [<-|Hin] & H); [congruence|exists row'; auto].
Qed.

Lemma parseSearchResults_in table_rows html (r : TorrentResult.t) :
  In r (LimeTorrents.parseSearchResults table_rows html)
  <-> exists row, In row (table_rows html) /\ LimeTorrents.parseRow row = Some r.
Proof.
  rewrite <- pushed_in. unfold LimeTorrents.parseSearchResults. split.
  - apply Permutation_in. apply (sort_permutation TorrentResult.seeders).
  - apply Permutation_in. apply Permutation_sym.
    apply (sort_permutation TorrentResult.seeders).
Qed.

Lemma toLowerCase_idempotent (s : string) :
  JS.toLowerCase (JS.toLowerCase s) = JS.toLowerCase s.
Proof.
  unfold JS.toLowerCase. induction s as [|c r IH]; simpl; [reflexivity|].
  rewrite lower_char_idempotent, IH. reflexivity.
Qed.

Lemma extracted_hash_lower (link : option string) (h : string) :
  LimeTorrents.extractInfoHashFromLink link = Some h -> JS.toLowerCase h = h.
Proof.
  unfold LimeTorrents.extractInfoHashFromLink.
  destruct (JS.truthy link); [|discriminate].
  destruct link as [l|]; [|discriminate]. cbn [negb].
  destruct (LimeTorrents.match_hash l); [|discriminate].
  intros X. injection X as <-. apply toLowerCase_idempotent.
Qed.

Lemma extractQuality_member (name q : string) :
  LimeTorrents.extractQuality name = Some q -> In q LimeTorrents.qualities.
Proof.
  unfold LimeTorrents.extractQuality.
  destruct (find _ LimeTorrents.qualities) as [q'|] eqn:E.
  - intros X. injection X as <-. apply find_some in E. apply E.
  - destruct (_ || _); [|discriminate]. intros X. injection X as <-.
    left. reflexivity.
Qed.

(** X1. Every candidate a search of the scraper returns is well formed:
    its identifier is its content hash, 40 hexadecimal characters in lower
    case; its name is not empty; its magnet URI is the one built from its
    hash and its name; it names the scraper as its provider and source; and
    its quality tag, if any, is one of 2160p, 1080p, 720p, 480p, 360p. *)
Theorem search_candidates_well_formed :
  forall http_get table_rows query mediaType results r,
    LimeTorrents.search http_get table_rows query mediaType = Ok results ->
    In r results ->
    TorrentResult.id r = TorrentResult.infoHash r
    /\ Spec.content_hash (TorrentResult.infoHash r) = true
    /\ JS.toLowerCase (TorrentResult.infoHash r) = TorrentResult.infoHash r
    /\ TorrentResult.name r <> EmptyString
    /\ TorrentResult.magnetUri r
       = LimeTorrents.buildMagnetUri (TorrentResult.infoHash r) (TorrentResult.name r)
    /\ TorrentResult.providerId r = "limetorrents"%string
    /\ TorrentResult.source r = Some "limetorrents"%string
    /\ (forall q, TorrentResult.quality r = Some q -> In q LimeTorrents.qualities).
Proof.
  intros http_get table_rows query mediaType results r Hs Hin.
  unfold LimeTorrents.search in Hs.
  destruct (http_get _) as [html|e]; [|discriminate]. injection Hs as <-.
  apply parseSearchResults_in in Hin. destruct Hin as (row & _ & Hrow).
  unfold LimeTorrents.parseRow in Hrow.
  destruct (LimeTorrents.row_name row) as [|c n] eqn:En; [discriminate|].
  cbn [JS.is_empty] in Hrow.
  destruct (LimeTorrents.extractInfoHashFromLink _) as [h|] eqn:E; [|discriminate].
  injection Hrow as <-. cbn.
  split; [reflexivity|]. split; [exact (extracted_hash_is_content_hash _ _ E)|].
  split; [exact (extracted_hash_lower _ _ E)|]. split; [discriminate|].
  split; [reflexivity|]. split; [reflexivity|]. split; [reflexivity|].
  intros q Hq. exact (extractQuality_member _ _ Hq).
Qed.

Lemma search_candidates_well_formed_witness :
  LimeTorrents.search Examples.any_page Examples.rows_of "Foo" movie
  = Ok (LimeTorrents.parseSearchResults Examples.rows_of "<html>")
  /\ nth_error (LimeTorrents.parseSearchResults Examples.rows_of "<html>") 0
     = Some (Samples.best_candidate)
  /\ TorrentResult.id Samples.best_candidate
     = TorrentResult.infoHash Samples.best_candidate
  /\ Spec.content_hash (TorrentResult.infoHash Samples.best_candidate) = true
  /\ JS.toLowerCase (TorrentResult.infoHash Samples.best_candidate)
     = TorrentResult.infoHash Samples.best_candidate
  /\ TorrentResult.name Samples.best_candidate <> EmptyString
  /\ TorrentResult.magnetUri Samples.best_candidate
     = LimeTorrents.buildMagnetUri (TorrentResult.infoHash Samples.best_candidate)
         (TorrentResult.name Samples.best_candidate)
  /\ TorrentResult.providerId Samples.best_candidate = "limetorrents"%string
  /\ TorrentResult.source Samples.best_candidate = Some "limetorrents"%string
  /\ (forall q, TorrentResult.quality Samples.best_candidate = Some q ->
                In q LimeTorrents.qualities).
Proof.
  split; [reflexivity|]. split; [reflexivity|].
  apply (search_candidates_well_formed Examples.any_page Examples.rows_of
           "Foo"%string movie
           (LimeTorrents.parseSearchResults Examples.rows_of "<html>")).
  - reflexivity.
  - apply (nth_error_In _ 0). reflexivity.
Defined.

Lemma take_hex_split (n : nat) (s h rest : string) :
  LimeTorrents.take_hex n s = Some (h, rest) -> s = (h ++ rest)%string.
Proof.
  revert s h rest. induction n as [|k IH]; intros s h rest; simpl.
  - intros E. injection E as <- <-. reflexivity.
  - destruct s as [|c r]; [discriminate|].
    destruct (JS.is_hex_digit c); [|discriminate].
    destruct (LimeTorrents.take_hex k r) as [[h' rest']|] eqn:E; [|discriminate].
    intros X. injection X as <- <-. simpl. rewrite (IH _ _ _ E). reflexivity.
Qed.

Lemma match_hash_sound (link h : string) :
  LimeTorrents.match_hash link = Some h ->
  exists pre post,
    link = (pre ++ String "/" (h ++ String "/" post))%string
    /\ Spec.content_hash h = true.
Proof.
  induction link as [|c r IH]; cbn [LimeTorrents.match_hash].
  - discriminate.
  - destruct (LimeTorrents.hash_at_head (String c r)) as [h'|] eqn:E.
    + intros X. injection X as ->. unfold LimeTorrents.hash_at_head in E.
      destruct (Ascii.eqb_spec c "/") as [->|]; [|discriminate].
      destruct (LimeTorrents.take_hex 40 r) as [[h' [|c' rest]]|] eqn:T;
        try discriminate.
      destruct (Ascii.eqb_spec c' "/") as [->|]; [|discriminate].
      injection E as ->. exists EmptyString, rest. split.
      * simpl. rewrite (take_hex_split _ _ _ _ T). reflexivity.
      * destruct (take_hex_spec _ _ _ _ T) as [Hl Hh].
        unfold Spec.content_hash. rewrite Hl, Hh. reflexivity.
    + intros H. destruct (IH H) as (pre & post & -> & Hc).
      exists (String c pre), post. split; [reflexivity|exact Hc].
Qed.

Lemma match_hash_complete (pre H post : string) :
  Spec.content_hash H = true ->
  LimeTorrents.match_hash (pre ++ String "/" (H ++ String "/" post)) <> None.
Proof.
  intros HH. unfold Spec.content_hash in HH. apply andb_true_iff in HH.
  destruct HH as [Hl Hh]. apply Nat.eqb_eq in Hl.
  induction pre as [|c r IH].
  - cbn [append LimeTorrents.match_hash LimeTorrents.hash_at_head Ascii.eqb Bool.eqb].
    rewrite <- Hl, (take_hex_exact H _ Hh). cbn [Ascii.eqb Bool.eqb]. discriminate.
  - cbn [append LimeTorrents.match_hash].
    destruct (LimeTorrents.hash_at_head _); [discriminate|exact IH].
Qed.

Lemma parseRow_usable (row : LimeTorrents.Row) :
  Vocabulary.usable row <-> LimeTorrents.parseRow row <> None.
Proof.
  unfold Vocabulary.usable, Vocabulary.holds_hash, LimeTorrents.parseRow,
    LimeTorrents.extractInfoHashFromLink.
  split.
  - intros (Hn & link & h & Hl & pre & H & post & -> & HH & _).
    destruct (LimeTorrents.row_name row); [contradiction|]. cbn [JS.is_empty].
    rewrite Hl.
    assert (JS.truthy (Some (pre ++ String "/" (H ++ String "/" post))%string)
            = true) as -> by (destruct pre; reflexivity).
    cbn [negb].
    pose proof (match_hash_complete pre H post HH) as Hm.
    destruct (LimeTorrents.match_hash _); [discriminate|contradiction].
  - destruct (LimeTorrents.row_name row) as [|c n]; [intros X; contradiction|].
    cbn [JS.is_empty].
    destruct (JS.truthy (LimeTorrents.row_torrentLink row));
      [|intros X; contradiction].
    destruct (LimeTorrents.row_torrentLink row) as [l|];
      [|intros X; contradiction].
    cbn [negb]. destruct (LimeTorrents.match_hash l) as [h|] eqn:E;
      [|intros X; contradiction].
    intros _. split; [discriminate|].
    destruct (match_hash_sound _ _ E) as (pre & post & -> & Hc).
    exists (pre ++ String "/" (h ++ String "/" post))%string, (JS.toLowerCase h).
    split; [reflexivity|]. exists pre, h, post. auto.
Qed.

Lemma parseRow_fields (row : LimeTorrents.Row) (r : TorrentResult.t) :
  LimeTorrents.parseRow row = Some r ->
  TorrentResult.name r = LimeTorrents.row_name row
  /\ TorrentResult.seeders r = LimeTorrents.count_of (LimeTorrents.row_seedersText row)
  /\ exists link,
      LimeTorrents.row_torrentLink row = Some link
      /\ Vocabulary.holds_hash link (TorrentResult.infoHash r).
Proof.
  unfold LimeTorrents.parseRow, LimeTorrents.extractInfoHashFromLink.
  destruct (JS.is_empty _); [discriminate|].
  destruct (JS.truthy (LimeTorrents.row_torrentLink row)); [|discriminate].
  destruct (LimeTorrents.row_torrentLink row) as [l|]; [|discriminate].
  cbn [negb option_map].
  destruct (LimeTorrents.match_hash l) as [h|] eqn:E; [|discriminate].
  cbn [option_map]. intros X. injection X as <-. cbn.
  split; [reflexivity|]. split; [reflexivity|].
  exists l. split; [reflexivity|].
  destruct (match_hash_sound _ _ E) as (pre & post & -> & Hc).
  exists pre, h, post. auto.
Qed.

Lemma pushed_length (rows : list LimeTorrents.Row) :
  (List.length (LimeTorrents.pushed rows) <= List.length rows)%nat.
Proof.
  induction rows as [|row rest IH]; simpl; [lia|].
  destruct (LimeTorrents.parseRow row); simpl; lia.
Qed.

(** X2. Of a result page the scraper keeps exactly the rows that have a
    name and a link with a 40-character hexadecimal segment between two
    slashes: each of them gives a candidate with the name and the seeder
    count of the row and the hash of the link in lower case, every other row
    is dropped without failing the search, and no candidate comes from
    anywhere else. *)
Theorem rows_kept_have_name_and_hash :
  forall table_rows html row,
    In row (table_rows html) ->
    (Vocabulary.usable row ->
     exists r,
       In r (LimeTorrents.parseSearchResults table_rows html)
       /\ LimeTorrents.parseRow row = Some r
       /\ TorrentResult.name r = LimeTorrents.row_name row
       /\ TorrentResult.seeders r
          = LimeTorrents.count_of (LimeTorrents.row_seedersText row)
       /\ exists link,
           LimeTorrents.row_torrentLink row = Some link
           /\ Vocabulary.holds_hash link (TorrentResult.infoHash r))
    /\ (~ Vocabulary.usable row -> LimeTorrents.parseRow row = None)
    /\ (List.length (LimeTorrents.parseSearchResults table_rows html)
        <= List.length (table_rows html))%nat
    /\ (forall r, In r (LimeTorrents.parseSearchResults table_rows html) ->
                  exists row', In row' (table_rows html)
                               /\ Vocabulary.usable row'
                               /\ LimeTorrents.parseRow row' = Some r).
Proof.
  intros table_rows html row Hin. split; [|split; [|split]].
  - intros Hu. apply parseRow_usable in Hu.
    destruct (LimeTorrents.parseRow row) as [r|] eqn:E; [|contradiction].
    exists r. split; [apply parseSearchResults_in; exists row; auto|].
    split; [reflexivity|]. apply parseRow_fields. exact E.
  - intros Hn. destruct (LimeTorrents.parseRow row) eqn:E; [|reflexivity].
    exfalso. apply Hn, parseRow_usable. rewrite E. discriminate.
  - unfold LimeTorrents.parseSearchResults.
    rewrite (Permutation_length (sort_permutation TorrentResult.seeders _)).
    apply pushed_length.
  - intros r Hr. apply parseSearchResults_in in Hr.
    destruct Hr as (row' & Hin' & E). exists row'. split; [exact Hin'|].
    split; [|exact E]. apply parseRow_usable. rewrite E. discriminate.
Qed.

Lemma good_row_usable : Vocabulary.usable Samples.good_row.
Proof.
  split; [discriminate|].
  exists "http://itorrents.org/torrent/0123456789ABCDEF0123456789ABCDEF01234567/foo.torrent"%string,
         "0123456789abcdef0123456789abcdef01234567"%string.
  split; [reflexivity|].
  exists "http://itorrents.org/torrent"%string,
         "0123456789ABCDEF0123456789ABCDEF01234567"%string,
         "foo.torrent"%string.
  split; [reflexivity|]. split; reflexivity.
Qed.

Lemma unlinked_row_unusable : ~ Vocabulary.usable Samples.unlinked_row.
Proof.
  intros H. apply parseRow_usable in H. apply H. reflexivity.
Qed.

Lemma rows_kept_have_name_and_hash_witness :
  (In Samples.good_row (Samples.mixed_rows "<html>")
   /\ Vocabulary.usable Samples.good_row
   /\ exists r,
       In r (LimeTorrents.parseSearchResults Samples.mixed_rows "<html>")
       /\ LimeTorrents.parseRow Samples.good_row = Some r
       /\ TorrentResult.name r = "Foo S02E05 720p"%string
       /\ TorrentResult.seeders r = LimeTorrents.count_of "12"
       /\ exists link,
           LimeTorrents.row_torrentLink Samples.good_row = Some link
           /\ Vocabulary.holds_hash link (TorrentResult.infoHash r))
  /\ (In Samples.unlinked_row (Samples.mixed_rows "<html>")
      /\ ~ Vocabulary.usable Samples.unlinked_row
      /\ LimeTorrents.parseRow Samples.unlinked_row = None
      /\ (List.length (LimeTorrents.parseSearchResults Samples.mixed_rows "<html>")
          <= List.length (Samples.mixed_rows "<html>"))%nat).
Proof.
  split.
  - split; [right; left; reflexivity|]. split; [exact good_row_usable|].
    apply (rows_kept_have_name_and_hash Samples.mixed_rows "<html>"%string
             Samples.good_row).
    + right; left; reflexivity.
    + exact good_row_usable.
  - split; [left; reflexivity|]. split; [exact unlinked_row_unusable|].
    destruct (rows_kept_have_name_and_hash Samples.mixed_rows "<html>"%string
                Samples.unlinked_row (or_introl eq_refl)) as (_ & Hn & Hl & _).
    split; [exact (Hn unlinked_row_unusable)|exact Hl].
Defined.

(** ** Sizes, again *)

(** Rounding keeps the sign. *)
Lemma number_of_nonneg (p d : Z) (q : Q) :
  0 <= p -> 0 < d -> JS.number_of p d = JS.Num q -> (0 <= q)%Q.
Proof.
  intros Hp Hd. unfold JS.number_of, JS.binary64.
  destruct (Z.eqb_spec p 0) as [->|Hn].
  - intros X. injection X as <-. vm_compute. discriminate.
  - cbv zeta.
    match goal with
    | |- context [JS.nearest_even (p * 2 ^ Z.max (- ?E) 0) _] => set (E0 := E)
    end.
    assert (0 <= JS.nearest_even (p * 2 ^ Z.max (- E0) 0) (d * 2 ^ Z.max E0 0))
      as Hm.
    { pose proof (pow2_max_pos E0). pose proof (pow2_max_pos (- E0)).
      apply nearest_even_nonneg; nia. }
    destruct (_ || _); [discriminate|]. intros X. injection X as <-.
    rewrite scaled_value.
    apply Qmult_le_0_compat; [|apply Qlt_le_weak, Qpow2_pos].
    change 0%Q with (inject_Z 0). rewrite <- Zle_Qle. exact Hm.
Qed.

Lemma parseFloat_nonneg (s : string) (q : Q) :
  JS.parseFloat s = JS.Num q -> (0 <= q)%Q.
Proof.
  unfold JS.parseFloat. destruct (JS.span JS.is_digit s) as [ip r].
  destruct (_ && _); [discriminate|].
  apply number_of_nonneg; [apply digits_value_nonneg; lia|apply Pos2Z.is_pos].
Qed.

Lemma multiplier_nonneg (u : string) (k : Z) :
  JS.get LimeTorrents.multipliers u = JS.Own k -> 0 <= k.
Proof.
  unfold JS.get, LimeTorrents.multipliers. cbn [JS.own_property].
  repeat match goal with
         | |- context [String.eqb ?a u] => destruct (String.eqb a u)
         end;
    try (intros X; injection X as <-; lia).
  destruct (existsb _ _); discriminate.
Qed.

Lemma parseSize_nonneg (s : string) (q : Q) :
  LimeTorrents.parseSize s = JS.Num q -> (0 <= q)%Q.
Proof.
  unfold LimeTorrents.parseSize.
  destruct (LimeTorrents.match_size s) as [[number unit_text]|].
  - destruct (JS.parseFloat number) as [| |v] eqn:Ev;
      destruct (JS.get LimeTorrents.multipliers _) as [k| |] eqn:Ek;
      cbn [LimeTorrents.times]; try discriminate.
    + pose proof (parseFloat_nonneg _ _ Ev) as Hv.
      pose proof (multiplier_nonneg _ _ Ek) as Hk.
      apply number_of_nonneg; [|apply Pos2Z.is_pos].
      unfold Qle in Hv. simpl in Hv. nia.
    + intros X. injection X as <-. discriminate.
  - intros X. injection X as <-. discriminate.
Qed.

Lemma span_split (p : ascii -> bool) (s : string) :
  s = (fst (JS.span p s) ++ snd (JS.span p s))%string.
Proof.
  induction s as [|c r IH]; simpl; [reflexivity|].
  destruct (p c); [|reflexivity].
  destruct (JS.span p r) as [a b]. simpl in *. rewrite <- IH. reflexivity.
Qed.

Lemma skip_space_chars (n : nat) :
  forall s c,
    (String.length s <= n)%nat ->
    In c (Vocabulary.chars (JS.skip_space s)) -> In c (Vocabulary.chars s).
Proof.
  unfold Vocabulary.chars.
  induction n as [|n IH]; intros s c Hl.
  - destruct s; [intros H; exact H|simpl in Hl; lia].
  - destruct s as [|c1 r1]; [intros H; exact H|].
    simpl in Hl. cbn [JS.skip_space].
    destruct (JS.is_space1 c1).
    { intros H. right. apply (IH r1); [lia|exact H]. }
    destruct r1 as [|c2 r2]; [intros H; exact H|].
    simpl in Hl. destruct (JS.is_space2 c1 c2).
    { intros H. right. right. apply (IH r2); [lia|exact H]. }
    destruct r2 as [|c3 r3]; [intros H; exact H|].
    simpl in Hl. destruct (JS.is_space3 c1 c2 c3); [|intros H; exact H].
    intros H. right. right. right. apply (IH r3); [lia|exact H].
Qed.

Lemma unit_at_head_has_B (t u : string) :
  LimeTorrents.unit_at_head t = Some u ->
  exists c, In c (Vocabulary.chars t) /\ JS.upper_char c = "B"%char.
Proof.
  unfold LimeTorrents.unit_at_head.
  destruct t as [|a [|b r]]; try discriminate.
  destruct (existsb _ _) eqn:E; [|discriminate]. intros _.
  apply existsb_exists in E. destruct E as (U & HU & Hs).
  exists b. split; [right; left; reflexivity|].
  simpl in HU. decompose [or] HU; try contradiction; subst U;
    cbn [JS.starts_with_ci] in Hs;
    apply andb_true_iff in Hs; destruct Hs as [_ Hs];
    apply andb_true_iff in Hs; destruct Hs as [Hs _];
    unfold JS.eqb_ci in Hs; apply Ascii.eqb_eq in Hs;
    rewrite <- Hs; reflexivity.
Qed.

Lemma size_at_head_has_B (s : string) (m : string * string) :
  LimeTorrents.size_at_head s = Some m ->
  exists c, In c (Vocabulary.chars s) /\ JS.upper_char c = "B"%char.
Proof.
  unfold LimeTorrents.size_at_head.
  pose proof (span_split LimeTorrents.is_size_char s) as Hs.
  destruct (JS.span LimeTorrents.is_size_char s) as [num rest]. cbn [fst snd] in Hs.
  destruct (JS.is_empty num); [discriminate|].
  destruct (LimeTorrents.unit_at_head (JS.skip_space rest)) as [u|] eqn:E;
    [|discriminate].
  intros _. destruct (unit_at_head_has_B _ _ E) as (c & Hc & HB).
  exists c. split; [|exact HB].
  apply (skip_space_chars (String.length rest)) in Hc; [|lia].
  unfold Vocabulary.chars in *. rewrite Hs. apply in_append. right. exact Hc.
Qed.

Lemma match_size_has_B (s : string) (m : string * string) :
  LimeTorrents.match_size s = Some m ->
  exists c, In c (Vocabulary.chars s) /\ JS.upper_char c = "B"%char.
Proof.
  induction s as [|x r IH]; cbn [LimeTorrents.match_size].
  - destruct (LimeTorrents.size_at_head EmptyString) eqn:E; [|discriminate].
    intros _. exact (size_at_head_has_B _ _ E).
  - destruct (LimeTorrents.size_at_head (String x r)) eqn:E.
    + intros _. exact (size_at_head_has_B _ _ E).
    + intros H. destruct (IH H) as (c & Hc & HB).
      exists c. split; [right; exact Hc|exact HB].
Qed.

(** X3. The size parser never yields a negative size: its result is a
    number at least 0, or Infinity, or NaN.  A size text without the letter
    B, in either case, has no unit and parses to 0. *)
Theorem parseSize_never_negative :
  forall sizeText,
    (forall q, LimeTorrents.parseSize sizeText = JS.Num q -> (0 <= q)%Q)
    /\ ((forall c, In c (Vocabulary.chars sizeText) -> JS.upper_char c <> "B"%char) ->
        LimeTorrents.parseSize sizeText = JS.Num (inject_Z 0)).
Proof.
  intros sizeText. split.
  - intros q. apply parseSize_nonneg.
  - intros Hno. unfold LimeTorrents.parseSize.
    destruct (LimeTorrents.match_size sizeText) as [m|] eqn:E; [|reflexivity].
    destruct (match_size_has_B _ _ E) as (c & Hc & HB).
    exfalso. exact (Hno c Hc HB).
Qed.

Lemma parseSize_never_negative_witness :
  (LimeTorrents.parseSize "12.5 kb" = JS.Num (inject_Z 12800)
   /\ (0 <= inject_Z 12800)%Q)
  /\ ((forall c, In c (Vocabulary.chars "1.5 G") -> JS.upper_char c <> "B"%char)
      /\ LimeTorrents.parseSize "1.5 G" = JS.Num (inject_Z 0)).
Proof.
  assert (forall c, In c (Vocabulary.chars "1.5 G") -> JS.upper_char c <> "B"%char)
    as Hno.
  { intros c Hc. simpl in Hc. decompose [or] Hc; try contradiction; subst c;
      discriminate. }
  split.
  - split; [vm_compute; reflexivity|].
    apply (proj1 (parseSize_never_negative "12.5 kb"%string)).
    vm_compute. reflexivity.
  - split; [exact Hno|].
    apply (proj2 (parseSize_never_negative "1.5 G"%string)). exact Hno.
Defined.

(** ** Quality tags *)

Lemma includes_unfold (s needle : string) :
  JS.includes s needle
  = match JS.strip_prefix needle s with
    | Some _ => true
    | None => match s with
              | EmptyString => false
              | String _ r => JS.includes r needle
              end
    end.
Proof. destruct s; reflexivity. Qed.

Lemma includes_middle (pre needle post : string) :
  JS.includes (pre ++ needle ++ post) needle = true.
Proof.
  induction pre as [|c r IH]; rewrite includes_unfold.
  - cbn [append]. rewrite strip_prefix_append. reflexivity.
  - destruct (JS.strip_prefix needle _); [reflexivity|]. exact IH.
Qed.

Lemma toUpperCase_append (a b : string) :
  JS.toUpperCase (a ++ b) = (JS.toUpperCase a ++ JS.toUpperCase b)%string.
Proof.
  unfold JS.toUpperCase. induction a as [|c r IH]; simpl; [reflexivity|].
  rewrite IH. reflexivity.
Qed.

(** X4. The quality tag of a name is one of 2160p, 1080p, 720p, 480p and
    360p, or absent; a name that mentions 2160p, in any case and anywhere,
    is tagged 2160p whatever else it mentions; and two names that differ
    only in the case of letters get the same tag. *)
Theorem extractQuality_tags :
  forall name,
    (forall q, LimeTorrents.extractQuality name = Some q ->
               In q LimeTorrents.qualities)
    /\ (forall pre tag post,
           name = (pre ++ tag ++ post)%string ->
           JS.toUpperCase tag = "2160P"%string ->
           LimeTorrents.extractQuality name = Some "2160p"%string)
    /\ (forall other,
           JS.toUpperCase other = JS.toUpperCase name ->
           LimeTorrents.extractQuality other = LimeTorrents.extractQuality name).
Proof.
  intros name. split; [|split].
  - intros q. apply extractQuality_member.
  - intros pre tag post -> Htag. unfold LimeTorrents.extractQuality.
    rewrite !toUpperCase_append, Htag.
    unfold LimeTorrents.qualities. cbn [find].
    change (JS.toUpperCase "2160p") with "2160P"%string.
    rewrite includes_middle. reflexivity.
  - intros other H. unfold LimeTorrents.extractQuality. rewrite H. reflexivity.
Qed.

Lemma extractQuality_tags_witness :
  (LimeTorrents.extractQuality "Foo.720p.remux.of.2160P.WEB" = Some "2160p"%string
   /\ In "2160p"%string LimeTorrents.qualities)
  /\ ("Foo.720p.remux.of.2160P.WEB"%string
      = ("Foo.720p.remux.of." ++ "2160P" ++ ".WEB")%string
      /\ JS.toUpperCase "2160P" = "2160P"%string
      /\ LimeTorrents.extractQuality "Foo.720p.remux.of.2160P.WEB"
         = Some "2160p"%string)
  /\ (JS.toUpperCase "foo uhd" = JS.toUpperCase "Foo UHD"
      /\ LimeTorrents.extractQuality "foo uhd" = LimeTorrents.extractQuality "Foo UHD").
Proof.
  split; [|split].
  - split; [reflexivity|].
    apply (proj1 (extractQuality_tags "Foo.720p.remux.of.2160P.WEB"%string)).
    reflexivity.
  - split; [reflexivity|]. split; [reflexivity|].
    apply (proj1 (proj2 (extractQuality_tags "Foo.720p.remux.of.2160P.WEB"%string))
                 "Foo.720p.remux.of."%string "2160P"%string ".WEB"%string);
      reflexivity.
  - split; [reflexivity|].
    apply (proj2 (proj2 (extractQuality_tags "Foo UHD"%string)) "foo uhd"%string).
    reflexivity.
Defined.

(** ** The characters of a magnet URI *)

Lemma count_char_append (c : ascii) (a b : string) :
  Vocabulary.count_char c (a ++ b)
  = (Vocabulary.count_char c a + Vocabulary.count_char c b)%nat.
Proof.
  induction a as [|x r IH]; simpl; [reflexivity|].
  destruct (Ascii.eqb x c); rewrite IH; reflexivity.
Qed.

Lemma hex_char_unreserved (x : ascii) :
  JS.is_unreserved (JS.hex_char (JS.code x / 16)) = true
  /\ JS.is_unreserved (JS.hex_char (JS.code x mod 16)) = true.
Proof. destruct x as [[] [] [] [] [] [] [] []]; split; vm_compute; reflexivity. Qed.

Lemma hex_digit_unreserved (x : ascii) :
  JS.is_hex_digit x = true -> JS.is_unreserved x = true.
Proof.
  destruct x as [[] [] [] [] [] [] [] []]; vm_compute; intros H;
    try reflexivity; discriminate H.
Qed.

Lemma encoded_has_no_reserved (c : ascii) (s : string) :
  JS.is_unreserved c = false -> c <> "%"%char ->
  Vocabulary.count_char c (JS.encodeURIComponent s) = O.
Proof.
  intros Hc Hp. induction s as [|x r IH]; [reflexivity|].
  cbn [JS.encodeURIComponent]. destruct (JS.is_unreserved x) eqn:Ex.
  - cbn [Vocabulary.count_char].
    destruct (Ascii.eqb_spec x c) as [->|_]; [congruence|exact IH].
  - destruct (hex_char_unreserved x) as [H1 H2].
    cbn [Vocabulary.count_char].
    destruct (Ascii.eqb_spec "%"%char c) as [E|_]; [congruence|].
    destruct (Ascii.eqb_spec (JS.hex_char (JS.code x / 16)) c) as [E|_];
      [congruence|].
    destruct (Ascii.eqb_spec (JS.hex_char (JS.code x mod 16)) c) as [E|_];
      [congruence|].
    exact IH.
Qed.

Lemma hash_has_no_reserved (c : ascii) (h : string) :
  JS.is_unreserved c = false -> Spec.all_hex h = true ->
  Vocabulary.count_char c h = O.
Proof.
  intros Hc. induction h as [|x r IH]; [reflexivity|].
  cbn [Spec.all_hex Vocabulary.count_char]. rewrite andb_true_iff.
  intros [Hx Hr]. apply hex_digit_unreserved in Hx.
  destruct (Ascii.eqb_spec x c) as [->|_]; [congruence|exact (IH Hr)].
Qed.

(** X5. Whatever the display name contains, the magnet URI built from a
    hexadecimal hash and that name has exactly one question mark, six
    ampersands and seven equal signs, and no hash sign, space or slash: its
    parameters are xt, dn and the five trackers, and the name cannot add,
    cut or end one. *)
Theorem magnet_parameters_are_fixed :
  forall infoHash name,
    Spec.all_hex infoHash = true ->
    Vocabulary.count_char "?" (LimeTorrents.buildMagnetUri infoHash name) = 1%nat
    /\ Vocabulary.count_char "&" (LimeTorrents.buildMagnetUri infoHash name) = 6%nat
    /\ Vocabulary.count_char "=" (LimeTorrents.buildMagnetUri infoHash name) = 7%nat
    /\ Vocabulary.count_char "#" (LimeTorrents.buildMagnetUri infoHash name) = 0%nat
    /\ Vocabulary.count_char " " (LimeTorrents.buildMagnetUri infoHash name) = 0%nat
    /\ Vocabulary.count_char "/" (LimeTorrents.buildMagnetUri infoHash name) = 0%nat.
Proof.
  intros infoHash name Hh. unfold LimeTorrents.buildMagnetUri.
  repeat split;
    match goal with
    | |- Vocabulary.count_char ?c _ = _ =>
        rewrite !count_char_append;
        rewrite (hash_has_no_reserved c infoHash eq_refl Hh);
        rewrite (encoded_has_no_reserved c name eq_refl ltac:(discriminate))
    end;
    vm_compute; reflexivity.
Qed.

Lemma magnet_parameters_are_fixed_witness :
  Spec.all_hex "0123456789abcdef0123456789abcdef01234567" = true
  /\ Vocabulary.count_char "?"
       (LimeTorrents.buildMagnetUri "0123456789abcdef0123456789abcdef01234567"
          "Foo & Bar?=#/ 1080p") = 1%nat
  /\ Vocabulary.count_char "&"
       (LimeTorrents.buildMagnetUri "0123456789abcdef0123456789abcdef01234567"
          "Foo & Bar?=#/ 1080p") = 6%nat
  /\ Vocabulary.count_char "="
       (LimeTorrents.buildMagnetUri "0123456789abcdef0123456789abcdef01234567"
          "Foo & Bar?=#/ 1080p") = 7%nat
  /\ Vocabulary.count_char "#"
       (LimeTorrents.buildMagnetUri "0123456789abcdef0123456789abcdef01234567"
          "Foo & Bar?=#/ 1080p") = 0%nat
  /\ Vocabulary.count_char " "
       (LimeTorrents.buildMagnetUri "0123456789abcdef0123456789abcdef01234567"
          "Foo & Bar?=#/ 1080p") = 0%nat
  /\ Vocabulary.count_char "/"
       (LimeTorrents.buildMagnetUri "0123456789abcdef0123456789abcdef01234567"
          "Foo & Bar?=#/ 1080p") = 0%nat.
Proof.
  split; [reflexivity|].
  apply (magnet_parameters_are_fixed "0123456789abcdef0123456789abcdef01234567"%string
           "Foo & Bar?=#/ 1080p"%string).
  reflexivity.
Defined.

(** ** Numbers written and read back *)

Lemma digit_char_spec (d : Z) :
  0 <= d < 10 ->
  JS.digit_of (JS.digit_char d) = Some d /\ JS.is_digit (JS.digit_char d) = true.
Proof.
  intros H.
  assert (d = 0 \/ d = 1 \/ d = 2 \/ d = 3 \/ d = 4 \/ d = 5 \/ d = 6 \/ d = 7
          \/ d = 8 \/ d = 9) as Hd by lia.
  decompose [or] Hd; subst d; split; reflexivity.
Qed.

Lemma decimal_digits_spec (k : nat) :
  forall n acc,
    0 <= n < 10 ^ Z.of_nat (S k) ->
    exists ds,
      JS.decimal_digits (S k) n acc = (ds ++ acc)%string
      /\ Spec.digits ds = true
      /\ Spec.denoted ds = n.
Proof.
  induction k as [|k IH]; intros n acc Hn.
  - change (10 ^ Z.of_nat 1) with 10 in Hn.
    cbn [JS.decimal_digits]. destruct (Z.ltb_spec n 10); [|lia].
    exists (String (JS.digit_char (n mod 10)) EmptyString).
    rewrite Z.mod_small by lia.
    destruct (digit_char_spec n Hn) as [Hd Hi].
    split; [reflexivity|]. split.
    + unfold Spec.digits. cbn [JS.is_empty negb Spec.all_digits andb].
      rewrite Hi. reflexivity.
    + cbn [Spec.denoted String.length]. rewrite Hd. simpl. lia.
  - remember (S k) as k'. cbn [JS.decimal_digits].
    assert (0 <= n mod 10 < 10) as Hm by (apply Z.mod_pos_bound; lia).
    destruct (digit_char_spec _ Hm) as [Hd Hi].
    destruct (Z.ltb_spec n 10) as [Hlt|Hge].
    + exists (String (JS.digit_char (n mod 10)) EmptyString).
      split; [reflexivity|]. split.
      * unfold Spec.digits. cbn [JS.is_empty negb Spec.all_digits andb].
        rewrite Hi. reflexivity.
      * cbn [Spec.denoted String.length]. rewrite Hd. simpl.
        rewrite Z.mod_small by lia. lia.
    + subst k'.
      assert (0 <= n / 10 < 10 ^ Z.of_nat (S k)) as Hq.
      { split; [apply Z.div_pos; lia|].
        apply Z.div_lt_upper_bound; [lia|].
        rewrite <- Z.pow_succ_r by lia. rewrite <- Nat2Z.inj_succ. lia. }
      destruct (IH (n / 10) (String (JS.digit_char (n mod 10)) acc) Hq)
        as (ds & -> & Hds & Hv).
      exists (ds ++ String (JS.digit_char (n mod 10)) EmptyString)%string.
      unfold Spec.digits in *. apply andb_true_iff in Hds. destruct Hds as [Hne Hall].
      split; [rewrite append_assoc; reflexivity|]. split.
      * apply andb_true_iff. split.
        -- destruct ds; [discriminate|reflexivity].
        -- apply all_digits_append; [exact Hall|].
           cbn [Spec.all_digits]. rewrite Hi. reflexivity.
      * rewrite denoted_append; [|exact Hall|cbn [Spec.all_digits]; rewrite Hi; reflexivity].
        cbn [Spec.denoted String.length]. rewrite Hd, Hv. simpl.
        pose proof (Z.div_mod n 10). lia.
Qed.

Lemma decimal_spec (n : Z) :
  0 <= n ->
  Spec.digits (JS.decimal n) = true /\ Spec.denoted (JS.decimal n) = n.
Proof.
  intros Hn. unfold JS.decimal.
  assert (n < 10 ^ Z.of_nat (S (Z.to_nat (Z.log2 n)))) as Hb.
  { rewrite Nat2Z.inj_succ, Z2Nat.id by apply Z.log2_nonneg.
    destruct (Z.eq_dec n 0) as [->|Hz]; [reflexivity|].
    apply Z.lt_le_trans with (2 ^ Z.succ (Z.log2 n)).
    - apply Z.log2_spec. lia.
    - apply Z.pow_le_mono_l. pose proof (Z.log2_nonneg n). lia. }
  destruct (decimal_digits_spec _ n EmptyString (conj Hn Hb)) as (ds & E & Hd & Hv).
  rewrite E, append_empty. auto.
Qed.

Lemma skip_space_digit (c : ascii) (r : string) :
  LimeTorrents.is_size_char c = true ->
  JS.skip_space (String c r) = String c r.
Proof.
  intros Hc. destruct (space_is_no_size_char c) as (H1 & H2 & H3).
  cbn [JS.skip_space].
  destruct (JS.is_space1 c) eqn:E1; [rewrite (H1 eq_refl) in Hc; discriminate|].
  destruct r as [|c2 r2]; [reflexivity|].
  destruct (JS.is_space2 c c2) eqn:E2;
    [destruct (H2 c2 E2) as [X _]; rewrite X in Hc; discriminate|].
  destruct r2 as [|c3 r3]; [reflexivity|].
  destruct (JS.is_space3 c c2 c3) eqn:E3;
    [destruct (H3 c2 c3 E3) as [X _]; rewrite X in Hc; discriminate|].
  reflexivity.
Qed.

Ltac digit_cases c H :=
  destruct c as [[] [] [] [] [] [] [] []]; vm_compute in H; try discriminate H.

(** [parseInt] on a run of decimal digits: the Number nearest to the
    number they denote. *)
Lemma parseInt_digits (s : string) :
  Spec.digits s = true -> JS.parseInt s = Some (JS.nearest64 (Spec.denoted s)).
Proof.
  unfold Spec.digits. rewrite andb_true_iff. intros [Hne Hall].
  destruct s as [|c r]; [discriminate|].
  rewrite <- (Z.add_0_l (Spec.denoted (String c r))).
  change 0 with (0 * 10 ^ Z.of_nat (String.length (String c r))) at 1.
  rewrite <- (digits_value_denoted _ Hall 0).
  cbn [Spec.all_digits] in Hall. apply andb_true_iff in Hall.
  destruct Hall as [Hc Hr].
  assert (LimeTorrents.is_size_char c = true) as Hsc
      by (unfold LimeTorrents.is_size_char; rewrite Hc; reflexivity).
  unfold JS.parseInt. rewrite (skip_space_digit c r Hsc).
  assert (exists d, JS.digit_of c = Some d) as [d Hd].
  { unfold JS.is_digit in Hc. destruct (JS.digit_of c) as [d|]; [|discriminate].
    exists d. reflexivity. }
  assert (match r with
          | EmptyString => True
          | String c2 _ => JS.is_digit c2 = true
          end) as Hr2.
  { destruct r as [|c2 r2]; [exact I|]. cbn [Spec.all_digits] in Hr.
    apply andb_true_iff in Hr. apply Hr. }
  clear Hne Hr Hsc.
  digit_cases c Hc;
    try (cbv beta iota zeta; rewrite Hd, Z.mul_1_l; reflexivity).
  destruct r as [|c2 r2];
    [cbv beta iota zeta; rewrite Hd, Z.mul_1_l; reflexivity|].
  digit_cases c2 Hr2; cbv beta iota zeta; rewrite Hd, Z.mul_1_l; reflexivity.
Qed.

Lemma parseInt_minus_digits (s : string) :
  Spec.digits s = true ->
  JS.parseInt (String "-" s) = Some (- JS.nearest64 (Spec.denoted s)).
Proof.
  intros Hs. pose proof (parseInt_digits s Hs) as Hp. revert Hp.
  unfold Spec.digits in Hs. apply andb_true_iff in Hs. destruct Hs as [Hne Hall].
  destruct s as [|c r]; [discriminate|].
  cbn [Spec.all_digits] in Hall. apply andb_true_iff in Hall.
  destruct Hall as [Hc Hr].
  assert (LimeTorrents.is_size_char c = true) as Hsc
      by (unfold LimeTorrents.is_size_char; rewrite Hc; reflexivity).
  assert (JS.skip_space (String "-" (String c r)) = String "-" (String c r)) as Hm.
  { cbn [JS.skip_space].
    change (JS.is_space1 "-") with false. cbv iota.
    change (JS.is_space2 "-" c) with false. cbv iota.
    destruct r as [|c3 r3]; [reflexivity|].
    assert (JS.is_space3 "-" c c3 = false) as -> by reflexivity. reflexivity. }
  unfold JS.parseInt. rewrite Hm, (skip_space_digit c r Hsc).
  assert (exists d, JS.digit_of c = Some d) as [d Hd].
  { unfold JS.is_digit in Hc. destruct (JS.digit_of c) as [d|]; [|discriminate].
    exists d. reflexivity. }
  assert (match r with
          | EmptyString => True
          | String c2 _ => JS.is_digit c2 = true
          end) as Hr2.
  { destruct r as [|c2 r2]; [exact I|]. cbn [Spec.all_digits] in Hr.
    apply andb_true_iff in Hr. apply Hr. }
  clear Hne Hr Hsc Hm.
  assert (forall a b : Z, Some (1 * a) = Some b -> Some (-1 * a) = Some (- b))
    as Hopp.
  { intros a b X.
    apply (f_equal (fun o => match o with Some z => z | None => 0 end)) in X.
    cbv beta iota in X. f_equal. lia. }
  digit_cases c Hc;
    try (cbv beta iota zeta; rewrite Hd; apply Hopp).
  destruct r as [|c2 r2]; [cbv beta iota zeta; rewrite Hd; apply Hopp|].
  digit_cases c2 Hr2; cbv beta iota zeta; rewrite Hd; apply Hopp.
Qed.

(** A safe integer is read back from what [String] writes for it. *)
Lemma parseInt_Number_toString (n : Z) :
  Z.abs n < 2 ^ 53 -> JS.parseInt (JS.Number_toString n) = Some n.
Proof.
  intros Hn. unfold JS.Number_toString, JS.unsigned_toString.
  destruct (Z.ltb_spec n 0).
  - destruct (Z.ltb_spec (- n) (2 ^ 53)); [|lia].
    destruct (decimal_spec (- n)) as [Hd Hv]; [lia|].
    rewrite (parseInt_minus_digits _ Hd), Hv. unfold JS.nearest64.
    destruct (Z.ltb_spec (- n) (2 ^ 53)); [|lia]. f_equal. lia.
  - destruct (Z.ltb_spec n (2 ^ 53)); [|lia].
    destruct (decimal_spec n) as [Hd Hv]; [lia|].
    rewrite (parseInt_digits _ Hd), Hv. unfold JS.nearest64.
    destruct (Z.ltb_spec n (2 ^ 53)); [|lia]. reflexivity.
Qed.

(** Beyond the safe integers it need not be: [String(1e21)] is [1e+21],
    where [parseInt] stops at the letter and reads 1. *)
Lemma parseInt_of_an_exponent :
  JS.Number_toString (10 ^ 21) = "1e+21"%string
  /\ JS.parseInt (JS.Number_toString (10 ^ 21)) = Some 1.
Proof. split; vm_compute; reflexivity. Qed.

(** ** File identifiers *)

Lemma findIndex_first {A : Type} (p : A -> bool) (l : list A) :
  forall i x,
    nth_error l i = Some x -> p x = true ->
    (forall j y, (j < i)%nat -> nth_error l j = Some y -> p y = false) ->
    JS.findIndex p l = Some i.
Proof.
  induction l as [|a r IH]; intros i x Hx Hp Hbefore.
  - destruct i; discriminate.
  - destruct i as [|i]; simpl in Hx.
    + injection Hx as ->. simpl. rewrite Hp. reflexivity.
    + simpl. rewrite (Hbefore O a); [|lia|reflexivity].
      rewrite (IH i x Hx Hp); [reflexivity|].
      intros j y Hj Hy. apply (Hbefore (S j) y); [lia|exact Hy].
Qed.

Lemma linkToUnrestrict_by_file_id torrent files first i f :
  RealDebrid.RealDebridTorrent.files torrent = Some files ->
  nth_error files i = Some f ->
  Z.abs (RealDebrid.TorrentFile.id f) < 2 ^ 53 ->
  (forall j g, (j < i)%nat -> nth_error files j = Some g ->
               RealDebrid.TorrentFile.id g <> RealDebrid.TorrentFile.id f) ->
  RealDebrid.linkToUnrestrict torrent
    (Some (JS.Number_toString (RealDebrid.TorrentFile.id f))) first
  = nth i (RealDebrid.RealDebridTorrent.links torrent) first.
Proof.
  intros Hfiles Hf Hsafe Hfirst. unfold RealDebrid.linkToUnrestrict.
  rewrite Hfiles.
  pose proof (parseInt_Number_toString (RealDebrid.TorrentFile.id f) Hsafe) as Hp.
  assert (JS.truthy (Some (JS.Number_toString (RealDebrid.TorrentFile.id f))) = true)
    as ->.
  { destruct (JS.Number_toString (RealDebrid.TorrentFile.id f));
      [discriminate Hp|reflexivity]. }
  rewrite Hp.
  rewrite (findIndex_first _ files i f Hf).
  - destruct (Nat.ltb_spec i (List.length (RealDebrid.RealDebridTorrent.links torrent)));
      [reflexivity|].
    symmetry. apply nth_overflow. assumption.
  - apply Z.eqb_refl.
  - intros j g Hj Hg. apply Z.eqb_neq. exact (Hfirst j g Hj Hg).
Qed.

(** X6. The identifiers of the files of a Transfer can be handed back
    when they are safe integers (below [2 ^ 53] in absolute value): the file
    at a position of the Transfer has the name and size of the file the
    service lists there, its identifier reads back as the number of the
    service, and [getStreamUrl] called on a ready transfer with the
    identifier of that file, the first one to have it, unrestricts the link
    at the same position (the first link when the links stop before it). *)
Theorem file_id_selects_its_link :
  forall remote s transferId torrent files first rest i f df,
    JS.truthy (RealDebrid.apiKey s) = true ->
    RealDebrid.torrentInfo remote (RealDebrid.log s) (RealDebrid.authorization s)
      transferId = Ok torrent ->
    RealDebrid.RealDebridTorrent.status torrent = "downloaded"%string ->
    RealDebrid.RealDebridTorrent.links torrent = first :: rest ->
    RealDebrid.RealDebridTorrent.files torrent = Some files ->
    nth_error files i = Some f ->
    Z.abs (RealDebrid.TorrentFile.id f) < 2 ^ 53 ->
    (forall j g, (j < i)%nat -> nth_error files j = Some g ->
                 RealDebrid.TorrentFile.id g <> RealDebrid.TorrentFile.id f) ->
    nth_error (DebridTransfer.files (RealDebrid.mapTorrentToTransfer torrent)) i
    = Some df ->
    DebridFile.name df = RealDebrid.TorrentFile.path f
    /\ DebridFile.size df = RealDebrid.TorrentFile.bytes f
    /\ JS.parseInt (DebridFile.id df) = Some (RealDebrid.TorrentFile.id f)
    /\ Spec.unrestricted
         (RealDebrid.log
            (snd (RealDebrid.getStreamUrl remote transferId
                    (Some (DebridFile.id df)) s)))
       = Spec.unrestricted (RealDebrid.log s)
           ++ [nth i (RealDebrid.RealDebridTorrent.links torrent) first].
Proof.
  intros remote s transferId torrent files first rest i f df
         Hkey Hinfo Hst Hl Hfiles Hf Hsafe Hfirst Hdf.
  unfold RealDebrid.mapTorrentToTransfer in Hdf. cbn [DebridTransfer.files] in Hdf.
  rewrite Hfiles, nth_error_map, Hf in Hdf. cbn [option_map] in Hdf.
  injection Hdf as <-. cbn [DebridFile.name DebridFile.size DebridFile.id].
  split; [reflexivity|]. split; [reflexivity|].
  split; [apply parseInt_Number_toString; exact Hsafe|].
  rewrite (getStreamUrl_sends remote s transferId _ torrent first rest
             Hkey Hinfo Hst Hl).
  rewrite (linkToUnrestrict_by_file_id torrent files first i f Hfiles Hf Hsafe
             Hfirst).
  reflexivity.
Qed.

Lemma file_id_selects_its_link_witness :
  JS.truthy (RealDebrid.apiKey Examples.signed_in) = true
  /\ Z.abs (RealDebrid.TorrentFile.id (Examples.file 2 "Foo/info.nfo" 1024)) < 2 ^ 53
  /\ nth_error (DebridTransfer.files
                  (RealDebrid.mapTorrentToTransfer Examples.season_pack)) 1
     = Some {| DebridFile.id := "2"; DebridFile.name := "Foo/info.nfo";
               DebridFile.size := 1024; DebridFile.streamUrl := None |}
  /\ Spec.unrestricted
       (RealDebrid.log
          (snd (RealDebrid.getStreamUrl (Examples.service Examples.season_pack)
                  "T1" (Some "2"%string) Examples.signed_in)))
     = Spec.unrestricted (RealDebrid.log Examples.signed_in)
         ++ ["https://rd/1"%string].
Proof.
  split; [reflexivity|]. split; [reflexivity|]. split; [reflexivity|].
  apply (file_id_selects_its_link (Examples.service Examples.season_pack)
           Examples.signed_in "T1"%string Examples.season_pack
           [Examples.file 1 "Foo/movie.mp4" 524288000;
            Examples.file 2 "Foo/info.nfo" 1024;
            Examples.file 3 "Foo/movie.mkv" 1288490189]
           "https://rd/0"%string ["https://rd/1"%string; "https://rd/2"%string]
           1%nat (Examples.file 2 "Foo/info.nfo" 1024)
           {| DebridFile.id := "2"; DebridFile.name := "Foo/info.nfo";
              DebridFile.size := 1024; DebridFile.streamUrl := None |});
    try reflexivity.
  intros j g Hj Hg. destruct j as [|j]; [|lia].
  injection Hg as <-. discriminate.
Defined.

(** ** Submitting a magnet *)

Lemma split_on_whole (sep : ascii) (a : string) :
  (forall c, In c (Vocabulary.chars a) -> c <> sep) ->
  Spec.split_on sep a = [a].
Proof.
  unfold Vocabulary.chars. induction a as [|c r IH]; intros Ha; [reflexivity|].
  simpl. destruct (Ascii.eqb_spec c sep) as [E|_].
  - exfalso. exact (Ha c (or_introl eq_refl) E).
  - rewrite IH; [reflexivity|]. intros c' Hc'. apply Ha. right. exact Hc'.
Qed.

Lemma split_on_joined (sep : ascii) (l : list string) :
  l <> [] ->
  (forall x, In x l -> forall c, In c (Vocabulary.chars x) -> c <> sep) ->
  Spec.split_on sep (String.concat (String sep EmptyString) l) = l.
Proof.
  induction l as [|x xs IH]; intros Hne Hl; [contradiction|].
  destruct xs as [|y ys].
  - simpl. apply split_on_whole. apply Hl. left. reflexivity.
  - change (String.concat (String sep EmptyString) (x :: y :: ys))
      with (x ++ String sep (String.concat (String sep EmptyString) (y :: ys)))%string.
    rewrite split_on_first; [|apply Hl; left; reflexivity].
    rewrite IH; [reflexivity|discriminate|].
    intros z Hz. apply Hl. right. exact Hz.
Qed.

Lemma digit_char_no_comma (n : Z) : JS.digit_char (n mod 10) <> ","%char.
Proof.
  pose proof (Z.mod_pos_bound n 10 eq_refl) as Hb.
  assert (n mod 10 = 0 \/ n mod 10 = 1 \/ n mod 10 = 2 \/ n mod 10 = 3
          \/ n mod 10 = 4 \/ n mod 10 = 5 \/ n mod 10 = 6 \/ n mod 10 = 7
          \/ n mod 10 = 8 \/ n mod 10 = 9) as H by lia.
  decompose [or] H; clear H;
    match goal with E : _ mod 10 = _ |- _ => rewrite E end; discriminate.
Qed.

Lemma decimal_digits_no_comma (fuel : nat) :
  forall n acc,
    (forall c, In c (Vocabulary.chars acc) -> c <> ","%char) ->
    forall c, In c (Vocabulary.chars (JS.decimal_digits fuel n acc)) ->
              c <> ","%char.
Proof.
  induction fuel as [|k IH]; intros n acc Hacc; cbn [JS.decimal_digits];
    [exact Hacc|].
  assert (forall c, In c (Vocabulary.chars (String (JS.digit_char (n mod 10)) acc)) ->
                    c <> ","%char) as Hacc'.
  { intros c [<-|Hc]; [apply digit_char_no_comma|apply Hacc; exact Hc]. }
  destruct (n <? 10); [exact Hacc'|apply IH; exact Hacc'].
Qed.

Lemma decimal_no_comma (n : Z) :
  forall c, In c (Vocabulary.chars (JS.decimal n)) -> c <> ","%char.
Proof.
  unfold JS.decimal. apply decimal_digits_no_comma. intros c [].
Qed.

Lemma zeros_no_comma (e : nat) :
  forall c, In c (Vocabulary.chars (JS.zeros e)) -> c <> ","%char.
Proof.
  induction e as [|k IH]; intros c; cbn; [intros []|].
  intros [<-|Hc]; [discriminate|apply IH; exact Hc].
Qed.

Lemma append_no_comma (a b : string) :
  (forall c, In c (Vocabulary.chars a) -> c <> ","%char) ->
  (forall c, In c (Vocabulary.chars b) -> c <> ","%char) ->
  forall c, In c (Vocabulary.chars (a ++ b)) -> c <> ","%char.
Proof.
  intros Ha Hb c Hc. unfold Vocabulary.chars in *. apply in_append in Hc.
  destruct Hc as [Hc|Hc]; [apply Ha|apply Hb]; exact Hc.
Qed.

Lemma large_decimal_no_comma (x : Z) :
  forall c, In c (Vocabulary.chars (JS.large_decimal x)) -> c <> ","%char.
Proof.
  unfold JS.large_decimal. cbv zeta.
  destruct (JS.shortest_digits _ _ _ _ _) as [s e].
  assert (forall n c, In c (Vocabulary.chars ("e+" ++ JS.decimal n)) -> c <> ","%char)
    as Hexp.
  { intros n. apply append_no_comma; [|apply decimal_no_comma].
    intros c Hc. simpl in Hc. decompose [or] Hc; try contradiction; subst c;
      discriminate. }
  pose proof (decimal_no_comma s) as Hds.
  destruct (_ <=? 21)%nat.
  - apply append_no_comma; [exact Hds|apply zeros_no_comma].
  - destruct (JS.decimal s) as [|d [|d2 rest]].
    + intros c [].
    + intros c [<-|Hc]; [apply Hds; left; reflexivity|exact (Hexp _ c Hc)].
    + apply append_no_comma; [|apply Hexp].
      intros c [<-|[<-|Hc]];
        [apply Hds; left; reflexivity|discriminate|apply Hds; right; exact Hc].
Qed.

(** No form of [String(n)] has a comma: digits, a sign, and beyond the
    safe integers possibly a dot and an exponent. *)
Lemma Number_toString_no_comma (n : Z) :
  forall c, In c (Vocabulary.chars (JS.Number_toString n)) -> c <> ","%char.
Proof.
  assert (forall m c, In c (Vocabulary.chars (JS.unsigned_toString m)) ->
                      c <> ","%char) as Hu.
  { intros m. unfold JS.unsigned_toString.
    destruct (m <? 2 ^ 53); [apply decimal_no_comma|].
    destruct (JS.binary64 m 1) as [[mm E]|]; [apply large_decimal_no_comma|].
    intros c Hc. simpl in Hc. decompose [or] Hc; try contradiction; subst c;
      discriminate. }
  unfold JS.Number_toString. destruct (n <? 0); intros c Hc.
  - destruct Hc as [<-|Hc]; [discriminate|]. exact (Hu _ c Hc).
  - exact (Hu _ c Hc).
Qed.

(** X7. [addMagnet] on an authenticated session sends the magnet, then asks
    for the torrent the service created.  When the service lists files, it
    then selects all of them, in one request whose [files] parameter is the
    list of every file identifier, in order; the submission fails if that
    request fails, although the magnet has been added.  The Transfer it
    returns is the one read before the selection. *)
Theorem addMagnet_selects_every_file :
  forall remote s magnetUri torrentId torrent,
    JS.truthy (RealDebrid.apiKey s) = true ->
    RealDebrid.addMagnetId remote (RealDebrid.log s) (RealDebrid.authorization s)
      magnetUri = Ok torrentId ->
    RealDebrid.torrentInfo remote
      (RealDebrid.log s
         ++ [ {| RealDebrid.sent_authorization := RealDebrid.authorization s;
                 RealDebrid.sent_request := RealDebrid.PostAddMagnet magnetUri |} ])
      (RealDebrid.authorization s) torrentId = Ok torrent ->
    let run := RealDebrid.addMagnet remote magnetUri s in
    (forall f fs,
        RealDebrid.RealDebridTorrent.files torrent = Some (f :: fs) ->
        exists fileIds,
          Session.requests (RealDebrid.log (snd run))
          = Session.requests (RealDebrid.log s)
              ++ [RealDebrid.PostAddMagnet magnetUri;
                  RealDebrid.GetTorrentInfo torrentId;
                  RealDebrid.PostSelectFiles torrentId fileIds]
          /\ Spec.split_on "," fileIds
             = map (fun g => JS.Number_toString (RealDebrid.TorrentFile.id g)) (f :: fs)
          /\ fst run
             = match RealDebrid.selectFiles remote
                       ((RealDebrid.log s
                           ++ [ {| RealDebrid.sent_authorization :=
                                     RealDebrid.authorization s;
                                   RealDebrid.sent_request :=
                                     RealDebrid.PostAddMagnet magnetUri |} ])
                          ++ [ {| RealDebrid.sent_authorization :=
                                    RealDebrid.authorization s;
                                  RealDebrid.sent_request :=
                                    RealDebrid.GetTorrentInfo torrentId |} ])
                       (RealDebrid.authorization s) torrentId fileIds with
               | Ok _ => Ok (RealDebrid.mapTorrentToTransfer torrent)
               | Err e => Err e
               end)
    /\ ((RealDebrid.RealDebridTorrent.files torrent = None
         \/ RealDebrid.RealDebridTorrent.files torrent = Some []) ->
        fst run = Ok (RealDebrid.mapTorrentToTransfer torrent)
        /\ Session.requests (RealDebrid.log (snd run))
           = Session.requests (RealDebrid.log s)
               ++ [RealDebrid.PostAddMagnet magnetUri;
                   RealDebrid.GetTorrentInfo torrentId]).
Proof.
  intros remote s magnetUri torrentId torrent Hkey Hadd Hinfo run. subst run.
  unfold RealDebrid.addMagnet. run_method. rewrite Hkey, Hadd.
  cbn [RealDebrid.log RealDebrid.set_log RealDebrid.authorization].
  rewrite Hinfo.
  cbn [RealDebrid.log RealDebrid.set_log RealDebrid.authorization].
  split.
  - intros f fs Hfiles. rewrite Hfiles.
    exists (String.concat ","
              (map (fun g => JS.Number_toString (RealDebrid.TorrentFile.id g))
                   (f :: fs))).
    split; [|split].
    + destruct (RealDebrid.selectFiles _ _ _ _ _); cbn;
        unfold Session.requests; rewrite !map_app, <- !app_assoc; reflexivity.
    + apply split_on_joined; [discriminate|].
      intros x Hx. apply in_map_iff in Hx. destruct Hx as (g & <- & _).
      apply Number_toString_no_comma.
    + destruct (RealDebrid.selectFiles _ _ _ _ _); reflexivity.
  - intros [Hfiles|Hfiles]; rewrite Hfiles; cbn;
      (split; [reflexivity|]);
      unfold Session.requests; rewrite !map_app, <- !app_assoc; reflexivity.
Qed.

Lemma addMagnet_selects_every_file_witness :
  (JS.truthy (RealDebrid.apiKey Examples.signed_in) = true
   /\ exists fileIds,
       Session.requests
         (RealDebrid.log
            (snd (RealDebrid.addMagnet (Examples.service Examples.season_pack)
                    "magnet:?xt=urn:btih:0123456789abcdef0123456789abcdef01234567"
                    Examples.signed_in)))
       = Session.requests (RealDebrid.log Examples.signed_in)
           ++ [RealDebrid.PostAddMagnet
                 "magnet:?xt=urn:btih:0123456789abcdef0123456789abcdef01234567";
               RealDebrid.GetTorrentInfo "T1";
               RealDebrid.PostSelectFiles "T1" fileIds]
       /\ Spec.split_on "," fileIds = ["1"; "2"; "3"]%string
       /\ fst (RealDebrid.addMagnet (Examples.service Examples.season_pack)
                 "magnet:?xt=urn:btih:0123456789abcdef0123456789abcdef01234567"
                 Examples.signed_in)
          = Ok (RealDebrid.mapTorrentToTransfer Examples.season_pack))
  /\ (RealDebrid.RealDebridTorrent.files Examples.dead_source = None
      /\ fst (RealDebrid.addMagnet (Examples.service Examples.dead_source)
                "magnet:?xt=urn:btih:0123456789abcdef0123456789abcdef01234567"
                Examples.signed_in)
         = Ok (RealDebrid.mapTorrentToTransfer Examples.dead_source)
      /\ Session.requests
           (RealDebrid.log
              (snd (RealDebrid.addMagnet (Examples.service Examples.dead_source)
                      "magnet:?xt=urn:btih:0123456789abcdef0123456789abcdef01234567"
                      Examples.signed_in)))
         = Session.requests (RealDebrid.log Examples.signed_in)
             ++ [RealDebrid.PostAddMagnet
                   "magnet:?xt=urn:btih:0123456789abcdef0123456789abcdef01234567";
                 RealDebrid.GetTorrentInfo "T1"]).
Proof.
  split.
  - split; [reflexivity|].
    exact (proj1 (addMagnet_selects_every_file
                    (Examples.service Examples.season_pack) Examples.signed_in
                    "magnet:?xt=urn:btih:0123456789abcdef0123456789abcdef01234567"%string
                    "T1"%string Examples.season_pack eq_refl eq_refl eq_refl)
                 (Examples.file 1 "Foo/movie.mp4" 524288000)
                 [Examples.file 2 "Foo/info.nfo" 1024;
                  Examples.file 3 "Foo/movie.mkv" 1288490189] eq_refl).
  - split; [reflexivity|].
    exact (proj2 (addMagnet_selects_every_file
                    (Examples.service Examples.dead_source) Examples.signed_in
                    "magnet:?xt=urn:btih:0123456789abcdef0123456789abcdef01234567"%string
                    "T1"%string Examples.dead_source eq_refl eq_refl eq_refl)
                 (or_introl eq_refl)).
Defined.

(** ** Sessions *)

Lemma continues_refl (s : RealDebrid.State) : Session.continues s s.
Proof.
  repeat split. exists []. split; [rewrite app_nil_r; reflexivity|constructor].
Qed.

Lemma continues_trans (s1 s2 s3 : RealDebrid.State) :
  Session.continues s1 s2 -> Session.continues s2 s3 -> Session.continues s1 s3.
Proof.
  intros (E1 & K1 & A1 & C1 & m1 & L1 & F1) (E2 & K2 & A2 & C2 & m2 & L2 & F2).
  repeat split; try congruence.
  exists (m1 ++ m2). split.
  - rewrite L2, L1, app_assoc. reflexivity.
  - apply Forall_app. split; [exact F1|].
    rewrite A1 in F2. exact F2.
Qed.

Lemma keeps_ret {A : Type} (a : A) : Session.keeps (RealDebrid.ret a).
Proof. intros s. apply continues_refl. Qed.

Lemma keeps_throw {A : Type} (e : Exception) :
  Session.keeps (RealDebrid.throw (A := A) e).
Proof. intros s. apply continues_refl. Qed.

Lemma keeps_handleError {A : Type} (e : Exception) (context : string) :
  Session.keeps (RealDebrid.handleError (A := A) e context).
Proof. intros s. apply continues_refl. Qed.

Lemma keeps_read {A : Type} (f : RealDebrid.State -> A) :
  Session.keeps (RealDebrid.read f).
Proof. intros s. apply continues_refl. Qed.

Lemma keeps_send {A : Type} (r : RealDebrid.Request)
      (answer : list RealDebrid.Sent -> option string -> result A) :
  Session.keeps (RealDebrid.send r answer).
Proof.
  intros s. unfold RealDebrid.send. cbn. repeat split.
  eexists. split; [reflexivity|]. constructor; [reflexivity|constructor].
Qed.

Lemma keeps_bind {A B : Type} (m : RealDebrid.M A) (k : A -> RealDebrid.M B) :
  Session.keeps m -> (forall a, Session.keeps (k a)) ->
  Session.keeps (RealDebrid.bind m k).
Proof.
  intros Hm Hk s. unfold RealDebrid.bind. specialize (Hm s).
  destruct (m s) as [[a|e] s']; cbn [snd] in *.
  - eapply continues_trans; [exact Hm|apply Hk].
  - exact Hm.
Qed.

Lemma keeps_try_catch {A : Type} (body : RealDebrid.M A)
      (handler : Exception -> RealDebrid.M A) :
  Session.keeps body -> (forall e, Session.keeps (handler e)) ->
  Session.keeps (RealDebrid.try_catch body handler).
Proof.
  intros Hb Hh s. unfold RealDebrid.try_catch. specialize (Hb s).
  destruct (body s) as [[a|e] s']; cbn [snd] in *.
  - exact Hb.
  - eapply continues_trans; [exact Hb|apply Hh].
Qed.

Lemma keeps_requireApiKey : Session.keeps RealDebrid.requireApiKey.
Proof.
  unfold RealDebrid.requireApiKey. apply keeps_bind; [apply keeps_read|].
  intros k. destruct (JS.truthy k); [apply keeps_ret|apply keeps_throw].
Qed.

Ltac keeps_step :=
  first [ apply keeps_requireApiKey | apply keeps_send | apply keeps_ret
        | apply keeps_throw | apply keeps_handleError | apply keeps_read
        | apply keeps_try_catch | apply keeps_bind | intro ].

Lemma keeps_checkStatus remote : Session.keeps (RealDebrid.checkStatus remote).
Proof. unfold RealDebrid.checkStatus. repeat keeps_step. Qed.

Lemma keeps_getTransferStatus remote transferId :
  Session.keeps (RealDebrid.getTransferStatus remote transferId).
Proof. unfold RealDebrid.getTransferStatus. repeat keeps_step. Qed.

Lemma keeps_deleteTransfer remote transferId :
  Session.keeps (RealDebrid.deleteTransfer remote transferId).
Proof. unfold RealDebrid.deleteTransfer. repeat keeps_step. Qed.

Lemma keeps_addMagnet remote magnetUri :
  Session.keeps (RealDebrid.addMagnet remote magnetUri).
Proof.
  unfold RealDebrid.addMagnet. apply keeps_try_catch; [|intro; apply keeps_handleError].
  apply keeps_bind; [apply keeps_requireApiKey|intros _].
  apply keeps_bind; [apply keeps_send|intros torrentId].
  apply keeps_bind; [apply keeps_send|intros torrent].
  apply keeps_bind; [|intros _; apply keeps_ret].
  destruct (RealDebrid.RealDebridTorrent.files torrent) as [[|f fs]|];
    [apply keeps_ret|apply keeps_send|apply keeps_ret].
Qed.

Lemma keeps_getStreamUrl remote transferId fileId :
  Session.keeps (RealDebrid.getStreamUrl remote transferId fileId).
Proof.
  unfold RealDebrid.getStreamUrl.
  apply keeps_try_catch; [|intro; apply keeps_handleError].
  apply keeps_bind; [apply keeps_requireApiKey|intros _].
  apply keeps_bind; [apply keeps_send|intros torrent].
  destruct (negb _); [apply keeps_throw|].
  destruct (RealDebrid.RealDebridTorrent.links torrent); [apply keeps_throw|].
  apply keeps_bind; [apply keeps_send|intros u; apply keeps_ret].
Qed.

(** X8. The methods that work inside a session ([checkStatus],
    [addMagnet], [getTransferStatus], [getStreamUrl], [deleteTransfer])
    never change it, whether they return or fail: the key, the header, the
    account and the enabled flag are as before, and each request they send
    goes out with the header the client had.  A failed request does not
    log the provider out. *)
Theorem session_methods_keep_the_session :
  forall remote s,
    Session.continues s (snd (RealDebrid.checkStatus remote s))
    /\ (forall magnetUri,
           Session.continues s (snd (RealDebrid.addMagnet remote magnetUri s)))
    /\ (forall transferId,
           Session.continues s
             (snd (RealDebrid.getTransferStatus remote transferId s)))
    /\ (forall transferId fileId,
           Session.continues s
             (snd (RealDebrid.getStreamUrl remote transferId fileId s)))
    /\ (forall transferId,
           Session.continues s
             (snd (RealDebrid.deleteTransfer remote transferId s))).
Proof.
  intros remote s. split; [apply keeps_checkStatus|].
  split; [intros; apply keeps_addMagnet|].
  split; [intros; apply keeps_getTransferStatus|].
  split; [intros; apply keeps_getStreamUrl|intros; apply keeps_deleteTransfer].
Qed.

Lemma sound_initial : Session.sound RealDebrid.initial.
Proof.
  split.
  - intros k H. discriminate H.
  - intros m [].
Qed.

Lemma sound_guarded {A : Type} (m : RealDebrid.M A) (s : RealDebrid.State) :
  Session.keeps m ->
  (RealDebrid.apiKey s = None -> snd (m s) = s) ->
  Session.sound s -> Session.sound (snd (m s)).
Proof.
  intros Hk Hnone [Hkey Hlog].
  destruct (RealDebrid.apiKey s) as [k|] eqn:Ek.
  - destruct (Hkey k eq_refl) as [Hne Hauth].
    destruct (Hk s) as (_ & K & A' & _ & more & L & F).
    split.
    + intros k' Hk'. rewrite K, Ek in Hk'. injection Hk' as <-.
      split; [exact Hne|]. rewrite A'. exact Hauth.
    + intros m' Hin. rewrite L in Hin. apply in_app_or in Hin.
      destruct Hin as [Hin|Hin]; [apply Hlog; exact Hin|].
      exists k. split; [exact Hne|].
      rewrite Forall_forall in F. rewrite (F m' Hin). exact Hauth.
  - rewrite (Hnone eq_refl). split; [|exact Hlog].
    intros k' Hk'. rewrite Ek in Hk'. discriminate Hk'.
Qed.

Lemma sound_authenticate remote credentials s :
  Session.sound s ->
  Session.sound (snd (RealDebrid.authenticate remote credentials s)).
Proof.
  intros [Hkey Hlog]. unfold RealDebrid.authenticate. run_method.
  destruct (DebridCredentials.apiKey credentials) as [key|] eqn:Ec;
    cbn [JS.truthy].
  - destruct (JS.is_empty key) eqn:Ee; cbn [negb].
    + cbn. split; [intros k H; discriminate H|exact Hlog].
    + assert (Hne : key <> EmptyString).
      { intros ->. discriminate Ee. }
      cbn.
      destruct (RealDebrid.user remote _ _); cbn.
      * split.
        -- intros k H. injection H as <-. split; [exact Hne|reflexivity].
        -- intros m Hin. apply in_app_or in Hin.
           destruct Hin as [Hin|[<-|[]]]; [apply Hlog; exact Hin|].
           exists key. split; [exact Hne|reflexivity].
      * split; [intros k H; discriminate H|].
        intros m Hin. apply in_app_or in Hin.
        destruct Hin as [Hin|[<-|[]]]; [apply Hlog; exact Hin|].
        exists key. split; [exact Hne|reflexivity].
  - cbn. split; [intros k H; discriminate H|exact Hlog].
Qed.

Lemma sound_perform remote c s :
  Session.sound s -> Session.sound (Session.perform remote c s).
Proof.
  intros H.
  pose proof (unauthenticated_methods_fail remote s) as U.
  destruct c; cbn [Session.perform].
  - exact H.
  - destruct H as [_ Hlog]. split; [intros k E; discriminate E|exact Hlog].
  - apply sound_authenticate. exact H.
  - apply sound_guarded; [apply keeps_checkStatus| |exact H].
    intros E. destruct (U E) as (-> & _). reflexivity.
  - apply sound_guarded; [apply keeps_addMagnet| |exact H].
    intros E. destruct (U E) as (_ & -> & _). reflexivity.
  - apply sound_guarded; [apply keeps_getTransferStatus| |exact H].
    intros E. destruct (U E) as (_ & _ & -> & _). reflexivity.
  - apply sound_guarded; [apply keeps_getStreamUrl| |exact H].
    intros E. destruct (U E) as (_ & _ & _ & -> & _). reflexivity.
  - apply sound_guarded; [apply keeps_deleteTransfer| |exact H].
    intros E. destruct (U E) as (_ & _ & _ & _ & ->). reflexivity.
Qed.

Lemma sound_fold remote calls s :
  Session.sound s ->
  Session.sound (fold_left (fun s c => Session.perform remote c s) calls s).
Proof.
  revert s. induction calls as [|c calls IH]; intros s H; cbn [fold_left].
  - exact H.
  - apply IH. apply sound_perform. exact H.
Qed.

(** X9. Whatever methods are called on a new provider, in whatever order
    and whatever the service answers: no request leaves without an
    [Authorization] header [Bearer k] of a non-empty key [k], and while a
    key is in force it is not empty and it is the key of the header of the
    client. *)
Theorem no_request_without_bearer :
  forall remote calls,
    (forall k,
        RealDebrid.apiKey (Session.after remote calls) = Some k ->
        k <> EmptyString
        /\ RealDebrid.authorization (Session.after remote calls)
           = Some ("Bearer " ++ k)%string)
    /\ (forall m,
           In m (RealDebrid.log (Session.after remote calls)) ->
           exists k, Session.bearer k m).
Proof.
  intros remote calls. apply (sound_fold remote calls). apply sound_initial.
Qed.

Lemma no_request_without_bearer_witness :
  RealDebrid.apiKey
    (Session.after (Examples.service Examples.season_pack)
       [Session.Authenticate (Examples.key (Some "good-key"));
        Session.GetStreamUrl "T1" None]) = Some "good-key"
  /\ (RealDebrid.authorization
        (Session.after (Examples.service Examples.season_pack)
           [Session.Authenticate (Examples.key (Some "good-key"));
            Session.GetStreamUrl "T1" None]) = Some "Bearer good-key"
      /\ exists k,
          Session.bearer k
            {| RealDebrid.sent_authorization := Some "Bearer good-key";
               RealDebrid.sent_request :=
                 RealDebrid.PostUnrestrictLink "https://rd/2" |}).
Proof.
  pose proof (no_request_without_bearer
                (Examples.service Examples.season_pack)
                [Session.Authenticate (Examples.key (Some "good-key"));
                 Session.GetStreamUrl "T1" None]) as [Hkey Hlog].
  split; [reflexivity|]. split.
  - exact (proj2 (Hkey "good-key" eq_refl)).
  - apply Hlog. vm_compute. right. right. left. reflexivity.
Defined.

(** X10. [authenticate] returns an account exactly when the credentials
    carry a non-empty key and the lookup of the user succeeds under that
    key; the lookup is the one request it sends, under the new key whatever
    key was in force before.  The session then holds the key, its header and
    the account returned, whose id is the service's number as [String]
    writes it, which reads back as that number when it is a safe integer
    (below [2 ^ 53] in absolute value), and which is premium when premium
    seconds are left. *)
Theorem authenticate_opens_session :
  forall remote credentials s,
    (forall key u,
        DebridCredentials.apiKey credentials = Some key ->
        key <> EmptyString ->
        RealDebrid.user remote (RealDebrid.log s) (Some ("Bearer " ++ key)%string)
        = Ok u ->
        exists acc,
          fst (RealDebrid.authenticate remote credentials s) = Ok acc
          /\ ProviderAccount.id acc
             = JS.Number_toString (RealDebrid.RealDebridUser.id u)
          /\ (Z.abs (RealDebrid.RealDebridUser.id u) < 2 ^ 53 ->
              JS.parseInt (ProviderAccount.id acc)
              = Some (RealDebrid.RealDebridUser.id u))
          /\ ProviderAccount.premium acc
             = (0 <? RealDebrid.RealDebridUser.premium u)
          /\ ProviderAccount.providerId acc = "real-debrid"%string
          /\ RealDebrid.apiKey (snd (RealDebrid.authenticate remote credentials s))
             = Some key
          /\ RealDebrid.authorization
               (snd (RealDebrid.authenticate remote credentials s))
             = Some ("Bearer " ++ key)%string
          /\ RealDebrid.account
               (snd (RealDebrid.authenticate remote credentials s))
             = Some acc
          /\ RealDebrid.enabled
               (snd (RealDebrid.authenticate remote credentials s))
             = RealDebrid.enabled s
          /\ RealDebrid.log (snd (RealDebrid.authenticate remote credentials s))
             = RealDebrid.log s
               ++ [ {| RealDebrid.sent_authorization :=
                         Some ("Bearer " ++ key)%string;
                       RealDebrid.sent_request := RealDebrid.GetUser |} ])
    /\ (is_ok (fst (RealDebrid.authenticate remote credentials s)) = true ->
        exists key,
          DebridCredentials.apiKey credentials = Some key
          /\ key <> EmptyString
          /\ is_ok (RealDebrid.user remote (RealDebrid.log s)
                      (Some ("Bearer " ++ key)%string)) = true).
Proof.
  intros remote credentials s. split.
  - intros key u Hc Hne Hu.
    assert (He : JS.is_empty key = false).
    { destruct key; [contradiction Hne; reflexivity|reflexivity]. }
    unfold RealDebrid.authenticate. run_method.
    rewrite Hc. cbn [JS.truthy]. rewrite He. cbn [negb].
    cbn [RealDebrid.log RealDebrid.authorization RealDebrid.set_apiKey
         RealDebrid.set_authorization RealDebrid.set_log
         RealDebrid.set_account fst snd].
    rewrite Hu. cbn.
    eexists. split; [reflexivity|].
    cbn. split; [reflexivity|]. split; [apply parseInt_Number_toString|].
    repeat split.
  - unfold RealDebrid.authenticate. run_method.
    destruct (DebridCredentials.apiKey credentials) as [key|];
      cbn [JS.truthy]; [|intros H; discriminate H].
    destruct (JS.is_empty key) eqn:He; cbn [negb]; [intros H; discriminate H|].
    cbn [RealDebrid.log RealDebrid.authorization RealDebrid.set_apiKey
         RealDebrid.set_authorization RealDebrid.set_log
         RealDebrid.set_account fst snd].
    intros H. exists key. split; [reflexivity|]. split.
    + intros ->. discriminate He.
    + destruct (RealDebrid.user remote _ _); [reflexivity|discriminate H].
Qed.

Lemma authenticate_opens_session_witness :
  "good-key"%string <> EmptyString
  /\ exists acc,
      fst (RealDebrid.authenticate (Examples.service Examples.season_pack)
             (Examples.key (Some "good-key")) RealDebrid.initial) = Ok acc
      /\ ProviderAccount.id acc = "4242"%string
      /\ Z.abs 4242 < 2 ^ 53
      /\ JS.parseInt (ProviderAccount.id acc) = Some 4242
      /\ RealDebrid.account
           (snd (RealDebrid.authenticate (Examples.service Examples.season_pack)
                   (Examples.key (Some "good-key")) RealDebrid.initial))
         = Some acc.
Proof.
  assert (Hne : "good-key"%string <> EmptyString) by discriminate.
  split; [exact Hne|].
  destruct (proj1 (authenticate_opens_session
                     (Examples.service Examples.season_pack)
                     (Examples.key (Some "good-key")) RealDebrid.initial)
              "good-key"%string Examples.holder eq_refl Hne eq_refl)
    as (acc & Hr & Hid & Hback & _ & _ & _ & _ & Hacc & _).
  exists acc. split; [exact Hr|]. split; [exact Hid|].
  split; [reflexivity|]. split; [exact (Hback eq_refl)|exact Hacc].
Defined.

Lemma unaware_ret {A : Type} (a : A) : Session.unaware (RealDebrid.ret a).
Proof. intros b s. reflexivity. Qed.

Lemma unaware_throw {A : Type} (e : Exception) :
  Session.unaware (RealDebrid.throw (A := A) e).
Proof. intros b s. reflexivity. Qed.

Lemma unaware_handleError {A : Type} (e : Exception) (context : string) :
  Session.unaware (RealDebrid.handleError (A := A) e context).
Proof. intros b s. reflexivity. Qed.

Lemma unaware_send {A : Type} (r : RealDebrid.Request)
      (answer : list RealDebrid.Sent -> option string -> result A) :
  Session.unaware (RealDebrid.send r answer).
Proof. intros b s. reflexivity. Qed.

Lemma unaware_modify (f : RealDebrid.State -> RealDebrid.State) :
  (forall b s, f (RealDebrid.set_enabled b s) = RealDebrid.set_enabled b (f s)) ->
  Session.unaware (RealDebrid.modify f).
Proof. intros H b s. unfold RealDebrid.modify. rewrite H. reflexivity. Qed.

Lemma unaware_bind {A B : Type} (m : RealDebrid.M A) (k : A -> RealDebrid.M B) :
  Session.unaware m -> (forall a, Session.unaware (k a)) ->
  Session.unaware (RealDebrid.bind m k).
Proof.
  intros Hm Hk b s. unfold RealDebrid.bind. rewrite Hm.
  destruct (m s) as [[a|e] s']; cbn [fst snd]; [apply Hk|reflexivity].
Qed.

Lemma unaware_try_catch {A : Type} (body : RealDebrid.M A)
      (handler : Exception -> RealDebrid.M A) :
  Session.unaware body -> (forall e, Session.unaware (handler e)) ->
  Session.unaware (RealDebrid.try_catch body handler).
Proof.
  intros Hb Hh b s. unfold RealDebrid.try_catch. rewrite Hb.
  destruct (body s) as [[a|e] s']; cbn [fst snd]; [reflexivity|apply Hh].
Qed.

Lemma unaware_requireApiKey : Session.unaware RealDebrid.requireApiKey.
Proof.
  intros b s. unfold RealDebrid.requireApiKey, RealDebrid.bind, RealDebrid.read.
  cbn [RealDebrid.apiKey RealDebrid.set_enabled].
  destruct (JS.truthy (RealDebrid.apiKey s)); reflexivity.
Qed.

Ltac unaware_step :=
  first [ apply unaware_requireApiKey | apply unaware_send | apply unaware_ret
        | apply unaware_throw | apply unaware_handleError
        | apply unaware_modify; intros; reflexivity
        | apply unaware_try_catch | apply unaware_bind | intro ].

Lemma unaware_authenticate remote credentials :
  Session.unaware (RealDebrid.authenticate remote credentials).
Proof.
  unfold RealDebrid.authenticate.
  apply unaware_try_catch; [|repeat unaware_step].
  destruct (JS.truthy _), (DebridCredentials.apiKey credentials);
    repeat unaware_step.
Qed.

Lemma unaware_addMagnet remote magnetUri :
  Session.unaware (RealDebrid.addMagnet remote magnetUri).
Proof.
  unfold RealDebrid.addMagnet.
  apply unaware_try_catch; [|intro; apply unaware_handleError].
  apply unaware_bind; [apply unaware_requireApiKey|intros _].
  apply unaware_bind; [apply unaware_send|intros torrentId].
  apply unaware_bind; [apply unaware_send|intros torrent].
  apply unaware_bind; [|intros _; apply unaware_ret].
  destruct (RealDebrid.RealDebridTorrent.files torrent) as [[|f fs]|];
    [apply unaware_ret|apply unaware_send|apply unaware_ret].
Qed.

Lemma unaware_getStreamUrl remote transferId fileId :
  Session.unaware (RealDebrid.getStreamUrl remote transferId fileId).
Proof.
  unfold RealDebrid.getStreamUrl.
  apply unaware_try_catch; [|intro; apply unaware_handleError].
  apply unaware_bind; [apply unaware_requireApiKey|intros _].
  apply unaware_bind; [apply unaware_send|intros torrent].
  destruct (negb _); [apply unaware_throw|].
  destruct (RealDebrid.RealDebridTorrent.links torrent); [apply unaware_throw|].
  apply unaware_bind; [apply unaware_send|intros u; apply unaware_ret].
Qed.

(** X11. No method of the Real-Debrid provider looks at its [enabled]
    flag: started on a provider whose flag is set the other way,
    [authenticate], [checkStatus], [addMagnet], [getTransferStatus],
    [getStreamUrl] and [deleteTransfer] have the same outcome, send the same
    requests and leave the same state, the flag apart.  A provider that was
    never initialised, or was shut down, serves a key all the same. *)
Theorem enabled_flag_is_never_consulted :
  forall remote,
    (forall credentials,
        Session.unaware (RealDebrid.authenticate remote credentials))
    /\ Session.unaware (RealDebrid.checkStatus remote)
    /\ (forall magnetUri, Session.unaware (RealDebrid.addMagnet remote magnetUri))
    /\ (forall transferId,
           Session.unaware (RealDebrid.getTransferStatus remote transferId))
    /\ (forall transferId fileId,
           Session.unaware (RealDebrid.getStreamUrl remote transferId fileId))
    /\ (forall transferId,
           Session.unaware (RealDebrid.deleteTransfer remote transferId)).
Proof.
  intros remote.
  split; [intros; apply unaware_authenticate|].
  split; [unfold RealDebrid.checkStatus; repeat unaware_step|].
  split; [intros; apply unaware_addMagnet|].
  split; [intros; unfold RealDebrid.getTransferStatus; repeat unaware_step|].
  split; [intros; apply unaware_getStreamUrl|].
  intros; unfold RealDebrid.deleteTransfer; repeat unaware_step.
Qed.

(** ** The pages a search fetches *)

(** X12. A search fetches nothing but a search URL of the site: the query
    is one path segment, percent-encoded, so no query can break out of the
    path [/search/all/.../seeds/1/] or add parameters.  Two networks that
    agree on these URLs give the same searches and episode searches; the
    media type asked for plays no part. *)
Theorem search_fetches_search_urls_only :
  forall (http_get http_get' : string -> result string)
         (table_rows : string -> list LimeTorrents.Row),
    (forall u, Vocabulary.search_url u -> http_get u = http_get' u) ->
    (forall query mediaType mediaType',
        LimeTorrents.search http_get table_rows query mediaType
        = LimeTorrents.search http_get' table_rows query mediaType')
    /\ (forall seriesName season episode,
           LimeTorrents.searchEpisode http_get table_rows seriesName season episode
           = LimeTorrents.searchEpisode http_get' table_rows seriesName
               season episode).
Proof.
  intros http_get http_get' table_rows H.
  assert (Hs : forall query mediaType mediaType',
             LimeTorrents.search http_get table_rows query mediaType
             = LimeTorrents.search http_get' table_rows query mediaType').
  { intros query mediaType mediaType'. unfold LimeTorrents.search.
    rewrite (H (LimeTorrents.baseUrl ++ "/search/all/"
                ++ JS.encodeURIComponent query ++ "/seeds/1/")%string).
    - reflexivity.
    - exists (JS.encodeURIComponent query). split; [reflexivity|].
      repeat split; apply encoded_has_no_reserved;
        solve [reflexivity | discriminate]. }
  split; [exact Hs|].
  intros seriesName season episode. unfold LimeTorrents.searchEpisode.
  apply Hs.
Qed.

Lemma search_fetches_search_urls_only_witness :
  (forall u, Vocabulary.search_url u ->
             Examples.any_page u = Samples.strict_network u)
  /\ LimeTorrents.search Examples.any_page Examples.rows_of
       "Foo / Bar?x=1" movie
     = LimeTorrents.search Samples.strict_network Examples.rows_of
         "Foo / Bar?x=1" series.
Proof.
  assert (H : forall u, Vocabulary.search_url u ->
                        Examples.any_page u = Samples.strict_network u).
  { intros u (q & -> & Hq & _). unfold Samples.strict_network.
    rewrite !count_char_append, Hq. reflexivity. }
  split; [exact H|].
  apply (proj1 (search_fetches_search_urls_only
                  Examples.any_page Samples.strict_network Examples.rows_of H)).
Defined.

(** ** Backends that fail *)

Lemma fulfilledValues_empty {A : Type} (outcomes : list (result (list A))) :
  IpcHandlers.fulfilledValues outcomes = []
  <-> (forall o, In o outcomes -> o = Ok [] \/ is_ok o = false).
Proof.
  rewrite fulfilledValues_successes.
  induction outcomes as [|[v|e] r IH]; cbn [Spec.successes List.concat].
  - split; [intros _ o []|reflexivity].
  - split.
    + intros H. apply app_eq_nil in H. destruct H as [-> Hr].
      intros o [<-|Ho]; [left; reflexivity|apply (proj1 IH Hr o Ho)].
    + intros H. destruct (H (Ok v) (or_introl eq_refl)) as [E|E];
        [|discriminate E].
      injection E as ->. cbn [app]. apply IH.
      intros o Ho. apply H. right. exact Ho.
  - split.
    + intros H o [<-|Ho]; [right; reflexivity|apply (proj1 IH H o Ho)].
    + intros H. apply IH. intros o Ho. apply H. right. exact Ho.
Qed.

Lemma sort_empty {A : Type} (key : A -> Z) (l : list A) :
  JS.sort (fun a b => key b - key a) l = [] <-> l = [].
Proof.
  split.
  - intros H. pose proof (sort_permutation key l) as P. rewrite H in P.
    apply Permutation_nil in P. exact P.
  - intros ->. reflexivity.
Qed.

Lemma enabled_not_empty (pm : ProviderManager.t) :
  Spec.enabledScrapers pm <> [] ->
  (List.length (Spec.enabledScrapers pm) =? 0)%nat = false.
Proof.
  destruct (Spec.enabledScrapers pm); [intros H; contradiction H; reflexivity|].
  reflexivity.
Qed.

(** X13. With an enabled backend registered, a valid search is never an
    error: failures of backends are dropped without a trace.  The answer is
    the empty list exactly when every enabled backend failed or found
    nothing, so the caller cannot tell sites that are down from a title
    nobody shares.  The same holds of the episode search. *)
Theorem failing_backends_give_empty_answer :
  forall pm,
    Spec.enabledScrapers pm <> [] ->
    (forall data v,
        IpcHandlers.MediaSearchSchema data = Some v ->
        is_ok (IpcHandlers.torrent_search pm data) = true
        /\ (IpcHandlers.torrent_search pm data = Ok []
            <-> forall o, In o (Spec.search_outcomes pm v) ->
                          o = Ok [] \/ is_ok o = false))
    /\ (forall data v,
           IpcHandlers.EpisodeSearchSchema data = Some v ->
           is_ok (IpcHandlers.torrent_search_episode pm data) = true
           /\ (IpcHandlers.torrent_search_episode pm data = Ok []
               <-> forall o, In o (Spec.episode_outcomes pm v) ->
                             o = Ok [] \/ is_ok o = false)).
Proof.
  intros pm Hne. apply enabled_not_empty in Hne. split; intros data v Hv.
  - rewrite (torrent_search_unfold pm data v Hv), Hne.
    split; [reflexivity|].
    rewrite <- fulfilledValues_empty.
    rewrite <- (sort_empty TorrentResult.seeders).
    split; [intros H; injection H as H; exact H|intros H; f_equal; exact H].
  - rewrite (torrent_search_episode_unfold pm data v Hv), Hne.
    split; [reflexivity|].
    rewrite <- fulfilledValues_empty.
    rewrite <- (sort_empty TorrentResult.seeders).
    split; [intros H; injection H as H; exact H|intros H; f_equal; exact H].
Qed.

Lemma failing_backends_give_empty_answer_witness :
  Spec.enabledScrapers Samples.all_down <> []
  /\ IpcHandlers.MediaSearchSchema Examples.foo_query = Some Examples.foo_search
  /\ IpcHandlers.torrent_search Samples.all_down Examples.foo_query = Ok [].
Proof.
  assert (Hne : Spec.enabledScrapers Samples.all_down <> []) by discriminate.
  split; [exact Hne|]. split; [reflexivity|].
  apply (proj2 (proj1 (failing_backends_give_empty_answer Samples.all_down Hne)
                  Examples.foo_query Examples.foo_search eq_refl)).
  intros o [<-|[<-|[]]]; right; reflexivity.
Defined.

(** ** The registry of providers *)

Lemma map_get_set_same {V : Type} (m : list (string * V)) (k : string) (v : V) :
  ProviderManager.map_get (ProviderManager.map_set m k v) k = Some v.
Proof.
  induction m as [|[k' v'] r IH]; cbn [ProviderManager.map_set ProviderManager.map_get].
  - rewrite String.eqb_refl. reflexivity.
  - destruct (String.eqb k' k) eqn:E; cbn [ProviderManager.map_get].
    + rewrite String.eqb_refl. reflexivity.
    + rewrite E. exact IH.
Qed.

Lemma map_get_set_other {V : Type} (m : list (string * V)) (k k' : string) (v : V) :
  k' <> k ->
  ProviderManager.map_get (ProviderManager.map_set m k v) k'
  = ProviderManager.map_get m k'.
Proof.
  intros Hk.
  induction m as [|[k0 v0] r IH]; cbn [ProviderManager.map_set ProviderManager.map_get].
  - destruct (String.eqb_spec k k'); [congruence|reflexivity].
  - destruct (String.eqb_spec k0 k) as [->|Hne]; cbn [ProviderManager.map_get].
    + destruct (String.eqb_spec k k'); [congruence|reflexivity].
    + destruct (String.eqb k0 k'); [reflexivity|exact IH].
Qed.

Lemma map_get_in {V : Type} (m : list (string * V)) (k : string) (v : V) :
  ProviderManager.map_get m k = Some v -> In (k, v) m.
Proof.
  induction m as [|[k0 v0] r IH]; cbn [ProviderManager.map_get]; [discriminate|].
  destruct (String.eqb_spec k0 k) as [->|_].
  - intros H. injection H as ->. left. reflexivity.
  - intros H. right. apply IH. exact H.
Qed.

Lemma map_set_values {V : Type} (m : list (string * V)) (k : string) (v x : V) :
  In x (map snd (ProviderManager.map_set m k v)) -> x = v \/ In x (map snd m).
Proof.
  induction m as [|[k0 v0] r IH]; cbn [ProviderManager.map_set map snd In].
  - intros [<-|[]]. left. reflexivity.
  - destruct (String.eqb k0 k); cbn [map snd In].
    + intros [<-|H]; [left; reflexivity|right; right; exact H].
    + intros [<-|H]; [right; left; reflexivity|].
      destruct (IH H) as [->|H']; [left; reflexivity|right; right; exact H'].
Qed.

Lemma map_set_values_nodup {V : Type} (m : list (string * V)) (k : string) (v : V) :
  NoDup (map snd m) -> ~ In v (map snd m) ->
  NoDup (map snd (ProviderManager.map_set m k v)).
Proof.
  induction m as [|[k0 v0] r IH]; cbn [ProviderManager.map_set map snd].
  - intros _ _. constructor; [intros []|constructor].
  - intros Hn Hv. inversion Hn as [|? ? Hv0 Hr]; subst.
    destruct (String.eqb k0 k); cbn [map snd].
    + constructor; [|exact Hr]. intros H. apply Hv. right. exact H.
    + constructor.
      * intros H. apply map_set_values in H. destruct H as [->|H].
        -- apply Hv. left. reflexivity.
        -- exact (Hv0 H).
      * apply IH; [exact Hr|]. intros H. apply Hv. right. exact H.
Qed.

Lemma map_set_keys {V : Type} (m : list (string * V)) (k : string) (v : V) (x : string) :
  In x (map fst (ProviderManager.map_set m k v)) <-> x = k \/ In x (map fst m).
Proof.
  induction m as [|[k0 v0] r IH]; cbn [ProviderManager.map_set map fst In].
  - split; [intros [<-|[]]; left; reflexivity|intros [->|[]]; left; reflexivity].
  - destruct (String.eqb_spec k0 k) as [->|Hne]; cbn [map fst In].
    + split; [intros [<-|H]; [left; reflexivity|right; right; exact H]|].
      intros [->|[<-|H]]; [left; reflexivity|left; reflexivity|right; exact H].
    + rewrite IH. split.
      * intros [<-|[->|H]]; [right; left; reflexivity|left; reflexivity|
                             right; right; exact H].
      * intros [->|[<-|H]]; [right; left; reflexivity|left; reflexivity|
                             right; right; exact H].
Qed.

Lemma map_set_keys_nodup {V : Type} (m : list (string * V)) (k : string) (v : V) :
  NoDup (map fst m) -> NoDup (map fst (ProviderManager.map_set m k v)).
Proof.
  induction m as [|[k0 v0] r IH]; cbn [ProviderManager.map_set map fst].
  - intros _. constructor; [intros []|constructor].
  - intros Hn. inversion Hn as [|? ? Hk0 Hr]; subst.
    destruct (String.eqb_spec k0 k) as [->|Hne]; cbn [map fst].
    + constructor; assumption.
    + constructor; [|apply IH; exact Hr].
      intros H. apply map_set_keys in H. destruct H as [->|H];
        [apply Hne; reflexivity|exact (Hk0 H)].
Qed.

Section RegistryFacts.

Context {P : Type}.
Variable id_of : P -> string.
Variable type_of : P -> Registry.ProviderType.

Lemma tidy_grow (objs : list P) (m : list (string * nat)) (p : P) :
  Registry.tidy id_of objs m -> Registry.tidy id_of (objs ++ [p]) m.
Proof.
  intros (Hk & Ha & Hin). split; [exact Hk|]. split; [exact Ha|].
  intros k a H. destruct (Hin k a H) as (q & Hq & Hid).
  exists q. split; [|exact Hid].
  rewrite nth_error_app1; [exact Hq|].
  apply nth_error_Some. rewrite Hq. discriminate.
Qed.

Lemma map_set_in {V : Type} (m : list (string * V)) (k : string) (v : V)
      (k' : string) (v' : V) :
  In (k', v') (ProviderManager.map_set m k v) ->
  (k' = k /\ v' = v) \/ In (k', v') m.
Proof.
  induction m as [|[k0 v0] r IH]; cbn [ProviderManager.map_set In].
  - intros [H|[]]. injection H as <- <-. left. split; reflexivity.
  - destruct (String.eqb k0 k); cbn [In].
    + intros [H|H]; [injection H as <- <-; left; split; reflexivity|
                     right; right; exact H].
    + intros [H|H]; [right; left; exact H|].
      destruct (IH H) as [E|H']; [left; exact E|right; right; exact H'].
Qed.

Lemma tidy_set (objs : list P) (m : list (string * nat)) (p : P) :
  Registry.tidy id_of objs m ->
  Registry.tidy id_of (objs ++ [p]) (ProviderManager.map_set m (id_of p) (List.length objs)).
Proof.
  intros (Hk & Ha & Hin). split; [apply map_set_keys_nodup; exact Hk|]. split.
  - apply map_set_values_nodup; [exact Ha|].
    intros H. apply in_map_iff in H. destruct H as ([k a] & E & H).
    cbn [snd] in E. subst a. destruct (Hin k _ H) as (q & Hq & _).
    assert (List.length objs < List.length objs)%nat; [|lia].
    apply nth_error_Some. rewrite Hq. discriminate.
  - intros k a H. apply map_set_in in H. destruct H as [[-> ->]|H].
    + exists p. split; [|reflexivity].
      rewrite nth_error_app2, Nat.sub_diag; [reflexivity|lia].
    + destruct (tidy_grow objs m p (conj Hk (conj Ha Hin))) as (_ & _ & Hg).
      apply (Hg k a H).
Qed.

End RegistryFacts.

Lemma map_set_has {V : Type} (m : list (string * V)) (k : string) (v : V) :
  In (k, v) (ProviderManager.map_set m k v).
Proof.
  induction m as [|[k0 v0] r IH]; cbn [ProviderManager.map_set In].
  - left. reflexivity.
  - destruct (String.eqb k0 k); [left; reflexivity|right; exact IH].
Qed.

Lemma map_set_keeps {V : Type} (m : list (string * V)) (k : string) (v : V)
      (k' : string) (v' : V) :
  k' <> k -> In (k', v') m -> In (k', v') (ProviderManager.map_set m k v).
Proof.
  intros Hk.
  induction m as [|[k0 v0] r IH]; cbn [ProviderManager.map_set In]; [intros []|].
  destruct (String.eqb_spec k0 k) as [->|Hne]; cbn [In].
  - intros [H|H]; [injection H as -> _; contradiction Hk; reflexivity|
                   right; exact H].
  - intros [H|H]; [left; exact H|right; apply IH; exact H].
Qed.

Lemma map_set_in_other {V : Type} (m : list (string * V)) (k : string) (v : V)
      (k' : string) (v' : V) :
  NoDup (map fst m) ->
  In (k', v') (ProviderManager.map_set m k v) ->
  (k' = k /\ v' = v) \/ (k' <> k /\ In (k', v') m).
Proof.
  induction m as [|[k0 v0] r IH]; cbn [ProviderManager.map_set In map fst].
  - intros _ [H|[]]. injection H as <- <-. left. split; reflexivity.
  - intros Hn. inversion Hn as [|? ? Hk0 Hr]; subst.
    destruct (String.eqb_spec k0 k) as [->|Hne]; cbn [In].
    + intros [H|H]; [injection H as <- <-; left; split; reflexivity|].
      right. split; [|right; exact H].
      intros ->. apply Hk0. apply in_map_iff. exists (k, v'). split;
        [reflexivity|exact H].
    + intros [H|H].
      * injection H as <- <-. right. split; [exact Hne|left; reflexivity].
      * destruct (IH Hr H) as [E|[E H']]; [left; exact E|].
        right. split; [exact E|right; exact H'].
Qed.

Lemma map_get_of_in {V : Type} (m : list (string * V)) (k : string) (v : V) :
  NoDup (map fst m) -> In (k, v) m -> ProviderManager.map_get m k = Some v.
Proof.
  induction m as [|[k0 v0] r IH]; cbn [ProviderManager.map_get In map fst];
    [intros _ []|].
  intros Hn. inversion Hn as [|? ? Hk0 Hr]; subst.
  intros [H|H].
  - injection H as -> ->. rewrite String.eqb_refl. reflexivity.
  - destruct (String.eqb_spec k0 k) as [->|_]; [|apply IH; assumption].
    exfalso. apply Hk0. apply in_map_iff. exists (k, v). split;
      [reflexivity|exact H].
Qed.

Section RegistryLaws.

Context {P : Type}.
Variable id_of : P -> string.
Variable type_of : P -> Registry.ProviderType.

Lemma built_tidy (r : Registry.t) :
  Registry.built id_of type_of r ->
  Registry.tidy id_of (Registry.objects r) (Registry.providers r)
  /\ Registry.tidy id_of (Registry.objects r) (Registry.scrapers r)
  /\ Registry.tidy id_of (Registry.objects r) (Registry.debridProviders r).
Proof.
  induction 1 as [|r p Hb (Hp & Hs & Hd)].
  - repeat split; try constructor; intros k a [].
  - cbn [Registry.registerProvider Registry.objects Registry.providers
         Registry.scrapers Registry.debridProviders].
    split; [apply tidy_set; exact Hp|].
    split; destruct (type_of p);
      first [apply tidy_set; assumption | apply tidy_grow; assumption].
Qed.

Lemma old_address (r : Registry.t) (m : list (string * nat)) (p q : P)
      (k : string) (a : nat) :
  Registry.tidy id_of (Registry.objects r) m -> In (k, a) m ->
  nth_error (Registry.objects r ++ [q]) a = nth_error (Registry.objects r) a.
Proof.
  intros (_ & _ & Hin) H. destruct (Hin k a H) as (x & Hx & _).
  apply nth_error_app1. apply nth_error_Some. rewrite Hx. discriminate.
Qed.

(** The objects of a typed map have its type. *)
Lemma built_typed (r : Registry.t) :
  Registry.built id_of type_of r ->
  (forall k a, In (k, a) (Registry.scrapers r) ->
               exists p, nth_error (Registry.objects r) a = Some p
                         /\ type_of p = Registry.scraper)
  /\ (forall k a, In (k, a) (Registry.debridProviders r) ->
                  exists p, nth_error (Registry.objects r) a = Some p
                            /\ type_of p = Registry.debrid).
Proof.
  induction 1 as [|r p Hb [Hs Hd]].
  - split; intros k a [].
  - destruct (built_tidy r Hb) as (Tp & Ts & Td).
    cbn [Registry.registerProvider Registry.objects Registry.providers
         Registry.scrapers Registry.debridProviders].
    assert (Hold_s : forall k a, In (k, a) (Registry.scrapers r) ->
              exists x, nth_error (Registry.objects r ++ [p]) a = Some x
                        /\ type_of x = Registry.scraper).
    { intros k a H. rewrite (old_address r _ p p k a Ts H). apply (Hs k a H). }
    assert (Hold_d : forall k a, In (k, a) (Registry.debridProviders r) ->
              exists x, nth_error (Registry.objects r ++ [p]) a = Some x
                        /\ type_of x = Registry.debrid).
    { intros k a H. rewrite (old_address r _ p p k a Td H). apply (Hd k a H). }
    assert (Hnew : nth_error (Registry.objects r ++ [p])
                     (List.length (Registry.objects r)) = Some p).
    { rewrite nth_error_app2, Nat.sub_diag; [reflexivity|lia]. }
    destruct (type_of p) eqn:Et; split; try assumption.
    + intros k a H. apply map_set_in in H. destruct H as [[-> ->]|H].
      * exists p. split; [exact Hnew|exact Et].
      * apply (Hold_s k a H).
    + intros k a H. apply map_set_in in H. destruct H as [[-> ->]|H].
      * exists p. split; [exact Hnew|exact Et].
      * apply (Hold_d k a H).
Qed.

(** The entry of a provider in [providers] is its entry in the map of its
    type. *)
Lemma built_current (r : Registry.t) :
  Registry.built id_of type_of r ->
  forall k a p,
    In (k, a) (Registry.providers r) ->
    nth_error (Registry.objects r) a = Some p ->
    (type_of p = Registry.scraper -> In (k, a) (Registry.scrapers r))
    /\ (type_of p = Registry.debrid -> In (k, a) (Registry.debridProviders r)).
Proof.
  induction 1 as [|r q Hb IH]; [intros k a p []|].
  destruct (built_tidy r Hb) as (Tp & Ts & Td).
  intros k a p.
  cbn [Registry.registerProvider Registry.objects Registry.providers
       Registry.scrapers Registry.debridProviders].
  intros Hin Hobj.
  apply map_set_in_other in Hin; [|exact (proj1 Tp)].
  destruct Hin as [[-> ->]|[Hk Hin]].
  - rewrite nth_error_app2, Nat.sub_diag in Hobj; [|lia].
    injection Hobj as <-.
    split; intros Et; rewrite Et; apply map_set_has.
  - rewrite (old_address r _ q q k a Tp Hin) in Hobj.
    destruct (IH k a p Hin Hobj) as [Is Id].
    split; intros Et.
    + destruct (type_of q); [apply map_set_keeps; [exact Hk|]| |]; apply Is, Et.
    + destruct (type_of q); [|apply map_set_keeps; [exact Hk|]|]; apply Id, Et.
Qed.

Lemma lookup_in (r : Registry.t) (m : list (string * nat)) (id : string) (p : P) :
  Registry.lookup r m id = Some p ->
  exists a, In (id, a) m /\ nth_error (Registry.objects r) a = Some p.
Proof.
  unfold Registry.lookup.
  destruct (ProviderManager.map_get m id) as [a|] eqn:E; [|discriminate].
  intros H. exists a. split; [apply map_get_in; exact E|exact H].
Qed.

Lemma lookup_grow (r : Registry.t) (m : list (string * nat)) (q : P) (id : string) :
  Registry.tidy id_of (Registry.objects r) m ->
  Registry.lookup
    (Registry.with_objects r (Registry.objects r ++ [q])) m id
  = Registry.lookup r m id.
Proof.
  intros T. unfold Registry.lookup. cbn [Registry.with_objects Registry.objects].
  destruct (ProviderManager.map_get m id) as [a|] eqn:E; [|reflexivity].
  apply (old_address r m q q id a T). apply map_get_in. exact E.
Qed.

End RegistryLaws.

Section RegistryTheorems.

Context {P : Type}.
Variable id_of : P -> string.
Variable type_of : P -> Registry.ProviderType.

Lemma lookup_new (r : Registry.t) (m : list (string * nat)) (p : P) :
  Registry.lookup
    (Registry.with_objects r (Registry.objects r ++ [p]))
    (ProviderManager.map_set m (id_of p) (List.length (Registry.objects r)))
    (id_of p)
  = Some p.
Proof.
  unfold Registry.lookup. rewrite map_get_set_same.
  cbn [Registry.with_objects Registry.objects].
  rewrite nth_error_app2, Nat.sub_diag; [reflexivity|lia].
Qed.

Lemma lookup_other (r : Registry.t) (m : list (string * nat)) (p : P) (id : string) :
  Registry.tidy id_of (Registry.objects r) m -> id <> id_of p ->
  Registry.lookup
    (Registry.with_objects r (Registry.objects r ++ [p]))
    (ProviderManager.map_set m (id_of p) (List.length (Registry.objects r))) id
  = Registry.lookup r m id.
Proof.
  intros T Hid. rewrite <- (lookup_grow id_of r m p id T).
  unfold Registry.lookup. rewrite map_get_set_other; [reflexivity|exact Hid].
Qed.

End RegistryTheorems.

(** X14. Registration and lookup.  A provider registered is found under its
    id by [getProvider], and by the getter of its type; the providers of
    other ids are found as before.  Nothing is ever taken out of a typed
    map: when an id is registered again with a provider of another type,
    the getter of the earlier type still answers the earlier provider,
    while [getProvider] answers the new one. *)
Theorem register_then_get :
  forall (P : Type) (id_of : P -> string) (type_of : P -> Registry.ProviderType)
         (r : Registry.t) (p : P),
    Registry.built id_of type_of r ->
    Registry.getProvider (Registry.registerProvider id_of type_of r p) (id_of p)
    = Some p
    /\ (type_of p = Registry.scraper ->
        Registry.getScraper (Registry.registerProvider id_of type_of r p) (id_of p)
        = Some p)
    /\ (type_of p = Registry.debrid ->
        Registry.getDebridProvider (Registry.registerProvider id_of type_of r p)
          (id_of p)
        = Some p)
    /\ (forall id,
           id <> id_of p ->
           Registry.getProvider (Registry.registerProvider id_of type_of r p) id
           = Registry.getProvider r id
           /\ Registry.getScraper (Registry.registerProvider id_of type_of r p) id
              = Registry.getScraper r id
           /\ Registry.getDebridProvider
                (Registry.registerProvider id_of type_of r p) id
              = Registry.getDebridProvider r id)
    /\ (type_of p <> Registry.scraper ->
        forall id,
          Registry.getScraper (Registry.registerProvider id_of type_of r p) id
          = Registry.getScraper r id)
    /\ (type_of p <> Registry.debrid ->
        forall id,
          Registry.getDebridProvider
            (Registry.registerProvider id_of type_of r p) id
          = Registry.getDebridProvider r id).
Proof.
  intros P id_of type_of r p Hb.
  destruct (built_tidy id_of type_of r Hb) as (Tp & Ts & Td).
  unfold Registry.getProvider, Registry.getScraper, Registry.getDebridProvider,
    Registry.registerProvider.
  cbn [Registry.providers Registry.scrapers Registry.debridProviders].
  pose proof (lookup_new id_of r (Registry.providers r) p) as Np.
  pose proof (lookup_new id_of r (Registry.scrapers r) p) as Ns.
  pose proof (lookup_new id_of r (Registry.debridProviders r) p) as Nd.
  pose proof (fun id => lookup_other id_of r (Registry.providers r) p id Tp) as Op.
  pose proof (fun id => lookup_other id_of r (Registry.scrapers r) p id Ts) as Os.
  pose proof (fun id => lookup_other id_of r (Registry.debridProviders r) p id Td)
    as Od.
  pose proof (fun id => lookup_grow id_of r (Registry.scrapers r) p id Ts) as Gs.
  pose proof (fun id => lookup_grow id_of r (Registry.debridProviders r) p id Td)
    as Gd.
  unfold Registry.lookup, Registry.with_objects in *.
  cbn [Registry.objects] in *.
  split; [exact Np|].
  split; [intros Et; rewrite Et; exact Ns|].
  split; [intros Et; rewrite Et; exact Nd|].
  split.
  - intros id Hid. split; [apply Op; exact Hid|].
    split; destruct (type_of p);
      first [apply Os; exact Hid | apply Od; exact Hid | apply Gs | apply Gd].
  - split; intros Et id; destruct (type_of p);
      first [contradiction Et; reflexivity | apply Gs | apply Gd].
Qed.

Lemma plain_registry_built :
  Registry.built Samples.plain_id Samples.plain_type Samples.plain_registry.
Proof. repeat constructor. Qed.

Lemma register_then_get_witness :
  Registry.built Samples.plain_id Samples.plain_type Samples.plain_registry
  /\ Samples.plain_type Samples.impostor <> Registry.scraper
  /\ Registry.getProvider
       (Registry.registerProvider Samples.plain_id Samples.plain_type
          Samples.plain_registry Samples.impostor) "limetorrents"
     = Some Samples.impostor
  /\ Registry.getScraper
       (Registry.registerProvider Samples.plain_id Samples.plain_type
          Samples.plain_registry Samples.impostor) "limetorrents"
     = Some Samples.lime.
Proof.
  assert (Ht : Samples.plain_type Samples.impostor <> Registry.scraper)
    by discriminate.
  split; [exact plain_registry_built|]. split; [exact Ht|].
  destruct (register_then_get Samples.Plain Samples.plain_id Samples.plain_type
              Samples.plain_registry Samples.impostor plain_registry_built)
    as (Hp & _ & _ & _ & Hs & _).
  split; [exact Hp|]. rewrite (Hs Ht "limetorrents"%string). reflexivity.
Defined.

Section RegistryInvariants.

Context {P : Type}.
Variable id_of : P -> string.
Variable type_of : P -> Registry.ProviderType.

Lemma values_ids (r : Registry.t) (m : list (string * nat)) :
  Registry.tidy id_of (Registry.objects r) m ->
  map id_of (Registry.values r m) = map fst m.
Proof.
  intros (_ & _ & Hin). induction m as [|[k a] rest IH]; [reflexivity|].
  cbn [Registry.values map fst].
  destruct (Hin k a (or_introl eq_refl)) as (p & -> & Hid).
  cbn [map]. rewrite Hid. f_equal. apply IH.
  intros k' a' H. apply Hin. right. exact H.
Qed.

Lemma values_in (r : Registry.t) (m : list (string * nat)) (p : P) :
  In p (Registry.values r m) ->
  exists k a, In (k, a) m /\ nth_error (Registry.objects r) a = Some p.
Proof.
  induction m as [|[k a] rest IH]; cbn [Registry.values]; [intros []|].
  destruct (nth_error (Registry.objects r) a) as [q|] eqn:E.
  - intros [<-|H].
    + exists k, a. split; [left; reflexivity|exact E].
    + destruct (IH H) as (k' & a' & Hin & Ha).
      exists k', a'. split; [right; exact Hin|exact Ha].
  - intros H. destruct (IH H) as (k' & a' & Hin & Ha).
    exists k', a'. split; [right; exact Hin|exact Ha].
Qed.

End RegistryInvariants.

(** X15. What holds of every registry built by registrations.  A getter
    answers a provider of the id asked for, and a typed getter one of its
    type; no list of providers names an id twice; an id of a typed map is an
    id of [providers]; a metadata provider is in [providers] only. *)
Theorem registry_invariants :
  forall (P : Type) (id_of : P -> string) (type_of : P -> Registry.ProviderType)
         (r : Registry.t),
    Registry.built id_of type_of r ->
    (forall id p, Registry.getProvider r id = Some p -> id_of p = id)
    /\ (forall id p,
           Registry.getScraper r id = Some p ->
           id_of p = id /\ type_of p = Registry.scraper
           /\ Registry.getProvider r id <> None)
    /\ (forall id p,
           Registry.getDebridProvider r id = Some p ->
           id_of p = id /\ type_of p = Registry.debrid
           /\ Registry.getProvider r id <> None)
    /\ NoDup (map id_of (Registry.getAllProviders r))
    /\ NoDup (map id_of (Registry.getAllScrapers r))
    /\ NoDup (map id_of (Registry.getAllDebridProviders r))
    /\ (forall p, In p (Registry.getAllScrapers r) -> type_of p = Registry.scraper)
    /\ (forall p,
           In p (Registry.getAllDebridProviders r) -> type_of p = Registry.debrid).
Proof.
  intros P id_of type_of r Hb.
  destruct (built_tidy id_of type_of r Hb) as (Tp & Ts & Td).
  destruct (built_typed id_of type_of r Hb) as (Hs & Hd).
  assert (Keys : forall k,
             (In k (map fst (Registry.scrapers r)) ->
              In k (map fst (Registry.providers r)))
             /\ (In k (map fst (Registry.debridProviders r)) ->
                 In k (map fst (Registry.providers r)))).
  { clear Tp Ts Td Hs Hd. induction Hb as [|r q Hb IH]; [split; intros []|].
    intros k.
    cbn [Registry.registerProvider Registry.providers Registry.scrapers
         Registry.debridProviders].
    destruct (IH k) as [Is Id].
    split; intros H; apply map_set_keys; destruct (type_of q);
      first [ apply map_set_keys in H; destruct H as [->|H];
              [left; reflexivity|right; auto]
            | right; auto ]. }
  assert (Some_of : forall m id,
             Registry.tidy id_of (Registry.objects r) m ->
             In id (map fst m) -> Registry.lookup r m id <> None).
  { intros m id T H. apply in_map_iff in H. destruct H as ([k a] & E & H).
    cbn [fst] in E. subst k. unfold Registry.lookup.
    rewrite (map_get_of_in m id a (proj1 T) H).
    destruct T as (_ & _ & Hin). destruct (Hin id a H) as (p & -> & _).
    discriminate. }
  assert (Key_of : forall m id p,
             Registry.lookup r m id = Some p -> In id (map fst m)).
  { intros m id p H. apply lookup_in in H. destruct H as (a & H & _).
    apply in_map_iff. exists (id, a). split; [reflexivity|exact H]. }
  split.
  { intros id p H. apply lookup_in in H. destruct H as (a & Hin & Ha).
    destruct Tp as (_ & _ & T). destruct (T id a Hin) as (q & Hq & Hid).
    congruence. }
  split.
  { intros id p H. pose proof (Key_of _ _ _ H) as Hk.
    apply lookup_in in H. destruct H as (a & Hin & Ha).
    destruct (Hs id a Hin) as (q & Hq & Ht).
    destruct Ts as (_ & _ & T). destruct (T id a Hin) as (q' & Hq' & Hid).
    split; [congruence|]. split; [congruence|].
    apply Some_of; [exact Tp|]. apply (proj1 (Keys id)). exact Hk. }
  split.
  { intros id p H. pose proof (Key_of _ _ _ H) as Hk.
    apply lookup_in in H. destruct H as (a & Hin & Ha).
    destruct (Hd id a Hin) as (q & Hq & Ht).
    destruct Td as (_ & _ & T). destruct (T id a Hin) as (q' & Hq' & Hid).
    split; [congruence|]. split; [congruence|].
    apply Some_of; [exact Tp|]. apply (proj2 (Keys id)). exact Hk. }
  unfold Registry.getAllProviders, Registry.getAllScrapers,
    Registry.getAllDebridProviders.
  rewrite (values_ids id_of r _ Tp), (values_ids id_of r _ Ts),
    (values_ids id_of r _ Td).
  split; [exact (proj1 Tp)|]. split; [exact (proj1 Ts)|].
  split; [exact (proj1 Td)|]. split.
  - intros p H. apply values_in in H. destruct H as (k & a & Hin & Ha).
    destruct (Hs k a Hin) as (q & Hq & Ht). congruence.
  - intros p H. apply values_in in H. destruct H as (k & a & Hin & Ha).
    destruct (Hd k a Hin) as (q & Hq & Ht). congruence.
Qed.


Lemma registry_invariants_witness :
  Registry.built Samples.plain_id Samples.plain_type Samples.plain_registry
  /\ NoDup (map Samples.plain_id (Registry.getAllProviders Samples.plain_registry))
  /\ (Registry.getScraper Samples.plain_registry "limetorrents" = Some Samples.lime ->
      Samples.plain_type Samples.lime = Registry.scraper).
Proof.
  split; [exact plain_registry_built|].
  destruct (registry_invariants Samples.Plain Samples.plain_id Samples.plain_type
              Samples.plain_registry plain_registry_built)
    as (_ & Hs & _ & Hn & _).
  split; [exact Hn|].
  intros H. exact (proj1 (proj2 (Hs "limetorrents"%string Samples.lime H))).
Defined.

(** ** [initializeAll] and [shutdownAll] *)

Section RegistryRounds.

Context {P : Type}.
Variable id_of : P -> string.
Variable type_of : P -> Registry.ProviderType.
Variable method : P -> result unit * P.

Lemma store_at_length (objs : list P) (a : nat) (p : P) :
  List.length (Registry.store_at objs a p) = List.length objs.
Proof.
  revert a. induction objs as [|x rest IH]; intros a; [reflexivity|].
  destruct a; cbn [Registry.store_at List.length]; [reflexivity|].
  rewrite IH. reflexivity.
Qed.

Lemma store_at_same (objs : list P) (a : nat) (p : P) :
  (a < List.length objs)%nat ->
  nth_error (Registry.store_at objs a p) a = Some p.
Proof.
  revert a. induction objs as [|x rest IH]; intros a; cbn [List.length]; [lia|].
  destruct a; cbn [Registry.store_at nth_error]; [reflexivity|].
  intros H. apply IH. lia.
Qed.

Lemma store_at_other (objs : list P) (a b : nat) (p : P) :
  b <> a -> nth_error (Registry.store_at objs a p) b = nth_error objs b.
Proof.
  revert a b. induction objs as [|x rest IH]; intros a b Hb; [reflexivity|].
  destruct a, b; cbn [Registry.store_at nth_error]; try reflexivity.
  - contradiction Hb. reflexivity.
  - apply IH. intros ->. apply Hb. reflexivity.
Qed.

(** Each address of the round has its object replaced by what the method
    left of it, once; the other objects are as they were. *)
Lemma each_spec (addresses : list nat) :
  NoDup addresses ->
  forall objs,
    (forall a, In a addresses -> (a < List.length objs)%nat) ->
    forall b,
      (In b addresses ->
       nth_error (Registry.each method addresses objs) b
       = option_map (fun p => snd (method p)) (nth_error objs b))
      /\ (~ In b addresses ->
          nth_error (Registry.each method addresses objs) b = nth_error objs b).
Proof.
  induction 1 as [|a rest Ha Hn IH]; intros objs Hv b.
  - split; [intros []|reflexivity].
  - cbn [Registry.each].
    assert (Hlt : (a < List.length objs)%nat) by (apply Hv; left; reflexivity).
    destruct (nth_error objs a) as [p|] eqn:Ea;
      [|apply nth_error_None in Ea; lia].
    assert (Hv' : forall x, In x rest ->
                (x < List.length (Registry.store_at objs a (snd (method p))))%nat).
    { intros x Hx. rewrite store_at_length. apply Hv. right. exact Hx. }
    destruct (IH _ Hv' b) as [Hin Hout]. split.
    + intros [<-|Hb].
      * rewrite (Hout Ha), store_at_same, Ea; [reflexivity|exact Hlt].
      * rewrite (Hin Hb), store_at_other; [reflexivity|].
        intros ->. exact (Ha Hb).
    + intros Hb. rewrite Hout; [|intros H'; apply Hb; right; exact H'].
      apply store_at_other. intros ->. apply Hb. left. reflexivity.
Qed.

Lemma values_round (r : Registry.t) (objs : list P) (f : P -> P)
      (m : list (string * nat)) :
  (forall k a, In (k, a) m ->
               nth_error objs a = option_map f (nth_error (Registry.objects r) a)) ->
  Registry.values (Registry.with_objects r objs) m = map f (Registry.values r m).
Proof.
  induction m as [|[k a] rest IH]; intros H; [reflexivity|].
  cbn [Registry.values Registry.with_objects Registry.objects].
  rewrite (H k a (or_introl eq_refl)).
  assert (IH' := IH (fun k' a' Hin => H k' a' (or_intror Hin))).
  cbn [Registry.with_objects Registry.objects] in IH'.
  destruct (nth_error (Registry.objects r) a); cbn [option_map map];
    rewrite <- IH'; reflexivity.
Qed.

Lemma round_spec (r : Registry.t) :
  Registry.built id_of type_of r ->
  forall a,
    (In a (map snd (Registry.providers r)) ->
     nth_error (Registry.each method (map snd (Registry.providers r))
                  (Registry.objects r)) a
     = option_map (fun p => snd (method p)) (nth_error (Registry.objects r) a))
    /\ (~ In a (map snd (Registry.providers r)) ->
        nth_error (Registry.each method (map snd (Registry.providers r))
                     (Registry.objects r)) a
        = nth_error (Registry.objects r) a).
Proof.
  intros Hb a. destruct (built_tidy id_of type_of r Hb) as ((_ & Hn & Hin) & _).
  apply each_spec; [exact Hn|].
  intros x Hx. apply in_map_iff in Hx. destruct Hx as ([k a'] & E & Hx).
  cbn [snd] in E. subst a'. destruct (Hin k x Hx) as (p & Hp & _).
  apply nth_error_Some. rewrite Hp. discriminate.
Qed.

(** The registry after a round of [method]. *)
Lemma round_getters (r : Registry.t) :
  Registry.built id_of type_of r ->
  (forall id,
      Registry.getProvider
        (Registry.with_objects r
           (Registry.each method (map snd (Registry.providers r))
              (Registry.objects r))) id
      = option_map (fun p => snd (method p)) (Registry.getProvider r id))
  /\ (forall id p,
         Registry.getProvider r id = Some p ->
         (type_of p = Registry.scraper ->
          Registry.getScraper
            (Registry.with_objects r
               (Registry.each method (map snd (Registry.providers r))
                  (Registry.objects r))) id
          = Some (snd (method p)))
         /\ (type_of p = Registry.debrid ->
             Registry.getDebridProvider
               (Registry.with_objects r
                  (Registry.each method (map snd (Registry.providers r))
                     (Registry.objects r))) id
             = Some (snd (method p))))
  /\ Registry.getAllProviders
       (Registry.with_objects r
          (Registry.each method (map snd (Registry.providers r))
             (Registry.objects r)))
     = map (fun p => snd (method p)) (Registry.getAllProviders r).
Proof.
  intros Hb. destruct (built_tidy id_of type_of r Hb) as (Tp & Ts & Td).
  pose proof (round_spec r Hb) as R.
  assert (Hp : forall k a, In (k, a) (Registry.providers r) ->
             nth_error (Registry.each method (map snd (Registry.providers r))
                          (Registry.objects r)) a
             = option_map (fun p => snd (method p))
                          (nth_error (Registry.objects r) a)).
  { intros k a H. apply (proj1 (R a)). apply in_map_iff.
    exists (k, a). split; [reflexivity|exact H]. }
  split; [|split].
  - intros id. unfold Registry.getProvider, Registry.lookup.
    cbn [Registry.with_objects Registry.providers Registry.objects].
    destruct (ProviderManager.map_get (Registry.providers r) id) as [a|] eqn:E;
      [|reflexivity].
    apply (Hp id a). apply map_get_in. exact E.
  - intros id p H. apply lookup_in in H. destruct H as (a & Hin & Ha).
    destruct (built_current id_of type_of r Hb id a p Hin Ha) as [Cs Cd].
    unfold Registry.getScraper, Registry.getDebridProvider, Registry.lookup.
    cbn [Registry.with_objects Registry.scrapers Registry.debridProviders
         Registry.objects].
    split; intros Et.
    + rewrite (map_get_of_in _ id a (proj1 Ts) (Cs Et)), (Hp id a Hin), Ha.
      reflexivity.
    + rewrite (map_get_of_in _ id a (proj1 Td) (Cd Et)), (Hp id a Hin), Ha.
      reflexivity.
  - unfold Registry.getAllProviders.
    cbn [Registry.with_objects Registry.providers].
    apply (values_round r _ (fun p => snd (method p)) (Registry.providers r)).
    exact Hp.
Qed.

Lemma round_typed (r : Registry.t) :
  Registry.built id_of type_of r ->
  forall id p,
    Registry.getProvider r id = Some p ->
    (Registry.getScraper r id = Some p ->
     Registry.getScraper
       (Registry.with_objects r
          (Registry.each method (map snd (Registry.providers r))
             (Registry.objects r))) id
     = Some (snd (method p)))
    /\ (Registry.getDebridProvider r id = Some p ->
        Registry.getDebridProvider
          (Registry.with_objects r
             (Registry.each method (map snd (Registry.providers r))
                (Registry.objects r))) id
        = Some (snd (method p))).
Proof.
  intros Hb id p Hp.
  destruct (built_typed id_of type_of r Hb) as (Hs & Hd).
  destruct (proj1 (proj2 (round_getters r Hb)) id p Hp) as [Gs Gd].
  split; intros H; [apply Gs|apply Gd];
    apply lookup_in in H; destruct H as (a & Hin & Ha).
  - destruct (Hs id a Hin) as (q & Hq & Ht). congruence.
  - destruct (Hd id a Hin) as (q & Hq & Ht). congruence.
Qed.

End RegistryRounds.

(** X16. [initializeAll] and [shutdownAll] never fail, and call the method
    on every registered provider once, whatever the calls of the other
    providers did: afterwards each getter answers the provider as its own
    [initialize] (or [shutdown]) left it, a provider whose call threw
    included, and the list of all providers is the earlier list with the
    method applied to each. *)
Theorem rounds_reach_every_provider :
  forall (P : Type) (id_of : P -> string) (type_of : P -> Registry.ProviderType)
         (initialize_of shutdown_of : P -> result unit * P) (r : Registry.t),
    Registry.built id_of type_of r ->
    (fst (Registry.initializeAll initialize_of r) = Ok tt
     /\ (forall id,
            Registry.getProvider (snd (Registry.initializeAll initialize_of r)) id
            = option_map (fun p => snd (initialize_of p))
                         (Registry.getProvider r id))
     /\ (forall id p,
            Registry.getProvider r id = Some p ->
            (Registry.getScraper r id = Some p ->
             Registry.getScraper
               (snd (Registry.initializeAll initialize_of r)) id
             = Some (snd (initialize_of p)))
            /\ (Registry.getDebridProvider r id = Some p ->
                Registry.getDebridProvider
                  (snd (Registry.initializeAll initialize_of r)) id
                = Some (snd (initialize_of p))))
     /\ Registry.getAllProviders (snd (Registry.initializeAll initialize_of r))
        = map (fun p => snd (initialize_of p)) (Registry.getAllProviders r))
    /\ (fst (Registry.shutdownAll shutdown_of r) = Ok tt
        /\ (forall id,
               Registry.getProvider (snd (Registry.shutdownAll shutdown_of r)) id
               = option_map (fun p => snd (shutdown_of p))
                            (Registry.getProvider r id))
        /\ (forall id p,
               Registry.getProvider r id = Some p ->
               (Registry.getScraper r id = Some p ->
                Registry.getScraper
                  (snd (Registry.shutdownAll shutdown_of r)) id
                = Some (snd (shutdown_of p)))
               /\ (Registry.getDebridProvider r id = Some p ->
                   Registry.getDebridProvider
                     (snd (Registry.shutdownAll shutdown_of r)) id
                   = Some (snd (shutdown_of p))))
        /\ Registry.getAllProviders (snd (Registry.shutdownAll shutdown_of r))
           = map (fun p => snd (shutdown_of p)) (Registry.getAllProviders r)).
Proof.
  intros P id_of type_of initialize_of shutdown_of r Hb.
  unfold Registry.initializeAll, Registry.shutdownAll. cbn [fst snd].
  split.
  - destruct (round_getters id_of type_of initialize_of r Hb) as (Gp & _ & Ga).
    split; [reflexivity|]. split; [exact Gp|].
    split; [exact (round_typed id_of type_of initialize_of r Hb)|exact Ga].
  - destruct (round_getters id_of type_of shutdown_of r Hb) as (Gp & _ & Ga).
    split; [reflexivity|]. split; [exact Gp|].
    split; [exact (round_typed id_of type_of shutdown_of r Hb)|exact Ga].
Qed.

Lemma rounds_reach_every_provider_witness :
  Registry.built Samples.plain_id Samples.plain_type Samples.plain_registry
  /\ Registry.getAllProviders
       (snd (Registry.initializeAll (Samples.plain_set true)
               Samples.plain_registry))
     = [ Samples.broken;
         {| Samples.plain_id := "limetorrents";
            Samples.plain_type := Registry.scraper;
            Samples.plain_on := true |} ].
Proof.
  split; [exact plain_registry_built|].
  destruct (rounds_reach_every_provider Samples.Plain Samples.plain_id
              Samples.plain_type (Samples.plain_set true)
              (Samples.plain_set false) Samples.plain_registry
              plain_registry_built)
    as ((_ & _ & _ & Ha) & _).
  rewrite Ha. reflexivity.
Defined.

(** ** The providers of the application *)

Lemma sort_of_sorted {A : Type} (key : A -> Z) (l : list A) :
  StronglySorted (fun a b => key b <= key a) l ->
  JS.sort (fun a b => key b - key a) l = l.
Proof.
  induction 1 as [|x r Hr IH Hx]; [reflexivity|].
  cbn [JS.sort]. rewrite IH.
  destruct r as [|y r']; [reflexivity|].
  cbn [JS.insert]. inversion Hx as [|? ? Hy _]; subst.
  destruct (Z.ltb_spec 0 (key y - key x)); [lia|reflexivity].
Qed.

Lemma sort_idempotent {A : Type} (key : A -> Z) (l : list A) :
  JS.sort (fun a b => key b - key a) (JS.sort (fun a b => key b - key a) l)
  = JS.sort (fun a b => key b - key a) l.
Proof. apply sort_of_sorted, sort_descending. Qed.

Lemma aggregate_of_one (outcome : result (list TorrentResult.t)) :
  (forall l, outcome = Ok l ->
             StronglySorted
               (fun a b => TorrentResult.seeders b <= TorrentResult.seeders a) l) ->
  JS.sort IpcHandlers.bySeeders (IpcHandlers.fulfilledValues [outcome])
  = match outcome with Ok l => l | Err _ => [] end.
Proof.
  intros H. destruct outcome as [l|e]; [|reflexivity].
  unfold IpcHandlers.fulfilledValues. cbn [filter is_ok flat_map].
  rewrite app_nil_r.
  apply (sort_of_sorted TorrentResult.seeders). apply H. reflexivity.
Qed.

Lemma lime_search_descending http_get table_rows query mediaType l :
  LimeTorrents.search http_get table_rows query mediaType = Ok l ->
  StronglySorted (fun a b => TorrentResult.seeders b <= TorrentResult.seeders a) l.
Proof.
  unfold LimeTorrents.search.
  destruct (http_get _) as [html|e]; [|discriminate].
  intros H. injection H as <-.
  apply (sort_descending TorrentResult.seeders).
Qed.

(** X17. The providers of the application from start to quit.  The registry
    of the constructor holds the LimeTorrents scraper and the Real-Debrid
    provider, both born disabled: before [initializeAll] a valid search
    fails with 'No scrapers available'.  After [initializeAll] a valid
    search returns the list of LimeTorrents as it is, ranked once, and the
    empty list when the site cannot be reached; an episode search likewise.
    After [shutdownAll] searches fail again as before the start. *)
Theorem default_providers_lifecycle :
  forall (http_get : string -> result string)
         (table_rows : string -> list LimeTorrents.Row),
    (forall data v,
        IpcHandlers.MediaSearchSchema data = Some v ->
        IpcHandlers.torrent_search
          (App.manager http_get table_rows App.registerDefaultProviders) data
        = Err NoScrapersAvailable
        /\ IpcHandlers.torrent_search
             (App.manager http_get table_rows
                (snd (Registry.initializeAll App.initialize_of
                        App.registerDefaultProviders))) data
           = match LimeTorrents.search http_get table_rows
                     (IpcHandlers.ms_query v) movie with
             | Ok l => Ok l
             | Err _ => Ok []
             end
        /\ IpcHandlers.torrent_search
             (App.manager http_get table_rows
                (snd (Registry.shutdownAll App.shutdown_of
                        (snd (Registry.initializeAll App.initialize_of
                                App.registerDefaultProviders))))) data
           = Err NoScrapersAvailable)
    /\ (forall data v,
           IpcHandlers.EpisodeSearchSchema data = Some v ->
           IpcHandlers.torrent_search_episode
             (App.manager http_get table_rows App.registerDefaultProviders) data
           = Err NoScrapersAvailable
           /\ IpcHandlers.torrent_search_episode
                (App.manager http_get table_rows
                   (snd (Registry.initializeAll App.initialize_of
                           App.registerDefaultProviders))) data
              = match LimeTorrents.searchEpisode http_get table_rows
                        (IpcHandlers.es_seriesName v) (IpcHandlers.es_season v)
                        (IpcHandlers.es_episode v) with
                | Ok l => Ok l
                | Err _ => Ok []
                end
           /\ IpcHandlers.torrent_search_episode
                (App.manager http_get table_rows
                   (snd (Registry.shutdownAll App.shutdown_of
                           (snd (Registry.initializeAll App.initialize_of
                                   App.registerDefaultProviders))))) data
              = Err NoScrapersAvailable).
Proof.
  intros http_get table_rows. split; intros data v Hv.
  - rewrite !(torrent_search_unfold _ data v Hv).
    split; [reflexivity|]. split; [|reflexivity].
    change (Ok (JS.sort IpcHandlers.bySeeders
                  (IpcHandlers.fulfilledValues
                     [LimeTorrents.search http_get table_rows
                        (IpcHandlers.ms_query v)
                        (match IpcHandlers.ms_type v with
                         | Some t => t
                         | None => movie
                         end)]))
            = match LimeTorrents.search http_get table_rows
                      (IpcHandlers.ms_query v) movie with
              | Ok l => Ok l
              | Err _ => Ok []
              end).
    rewrite aggregate_of_one; [|intros l; apply lime_search_descending].
    unfold LimeTorrents.search.
    destruct (http_get _); reflexivity.
  - rewrite !(torrent_search_episode_unfold _ data v Hv).
    split; [reflexivity|]. split; [|reflexivity].
    change (Ok (JS.sort IpcHandlers.bySeeders
                  (IpcHandlers.fulfilledValues
                     [LimeTorrents.searchEpisode http_get table_rows
                        (IpcHandlers.es_seriesName v) (IpcHandlers.es_season v)
                        (IpcHandlers.es_episode v)]))
            = match LimeTorrents.searchEpisode http_get table_rows
                      (IpcHandlers.es_seriesName v) (IpcHandlers.es_season v)
                      (IpcHandlers.es_episode v) with
              | Ok l => Ok l
              | Err _ => Ok []
              end).
    rewrite aggregate_of_one;
      [|intros l; unfold LimeTorrents.searchEpisode; apply lime_search_descending].
    destruct (LimeTorrents.searchEpisode _ _ _ _ _); reflexivity.
Qed.

Lemma default_providers_lifecycle_witness :
  IpcHandlers.MediaSearchSchema Examples.foo_query = Some Examples.foo_search
  /\ IpcHandlers.torrent_search
       (App.manager Examples.any_page Examples.rows_of
          (snd (Registry.initializeAll App.initialize_of
                  App.registerDefaultProviders))) Examples.foo_query
     = LimeTorrents.search Examples.any_page Examples.rows_of "Foo" movie.
Proof.
  split; [reflexivity|].
  rewrite (proj1 (proj2 (proj1 (default_providers_lifecycle
                                  Examples.any_page Examples.rows_of)
                           Examples.foo_query Examples.foo_search eq_refl))).
  reflexivity.
Defined.

(** X18. [shutdown] ends the session and nothing else: the key and the
    account are dropped and the provider is disabled, so that every method
    guarded by the key fails with 'Not authenticated with Real-Debrid' and
    sends nothing; the [Authorization] header of the client is not taken
    back, and stays what it was. *)
Theorem shutdown_ends_session :
  forall remote s,
    fst (RealDebrid.shutdown s) = Ok tt
    /\ RealDebrid.enabled (snd (RealDebrid.shutdown s)) = false
    /\ RealDebrid.apiKey (snd (RealDebrid.shutdown s)) = None
    /\ RealDebrid.account (snd (RealDebrid.shutdown s)) = None
    /\ RealDebrid.authorization (snd (RealDebrid.shutdown s))
       = RealDebrid.authorization s
    /\ RealDebrid.log (snd (RealDebrid.shutdown s)) = RealDebrid.log s
    /\ RealDebrid.checkStatus remote (snd (RealDebrid.shutdown s))
       = (Err NotAuthenticated, snd (RealDebrid.shutdown s))
    /\ (forall magnetUri,
           RealDebrid.addMagnet remote magnetUri (snd (RealDebrid.shutdown s))
           = (Err NotAuthenticated, snd (RealDebrid.shutdown s)))
    /\ (forall transferId,
           RealDebrid.getTransferStatus remote transferId
             (snd (RealDebrid.shutdown s))
           = (Err NotAuthenticated, snd (RealDebrid.shutdown s)))
    /\ (forall transferId fileId,
           RealDebrid.getStreamUrl remote transferId fileId
             (snd (RealDebrid.shutdown s))
           = (Err NotAuthenticated, snd (RealDebrid.shutdown s)))
    /\ (forall transferId,
           RealDebrid.deleteTransfer remote transferId
             (snd (RealDebrid.shutdown s))
           = (Err NotAuthenticated, snd (RealDebrid.shutdown s))).
Proof.
  intros remote s.
  assert (Hk : RealDebrid.apiKey (snd (RealDebrid.shutdown s)) = None)
    by reflexivity.
  destruct (unauthenticated_methods_fail remote _ Hk) as (U1 & U2 & U3 & U4 & U5).
  split; [reflexivity|]. split; [reflexivity|]. split; [reflexivity|].
  split; [reflexivity|]. split; [reflexivity|]. split; [reflexivity|].
  split; [exact U1|]. split; [exact U2|]. split; [exact U3|].
  split; [exact U4|exact U5].
Qed.

(** ** From a search to the debrid provider *)

Lemma searched_magnet http_get table_rows query mediaType results c :
  LimeTorrents.search http_get table_rows query mediaType = Ok results ->
  In c results ->
  TorrentResult.magnetUri c
  = LimeTorrents.buildMagnetUri (TorrentResult.infoHash c) (TorrentResult.name c).
Proof.
  intros Hs Hin. unfold LimeTorrents.search in Hs.
  destruct (http_get _) as [html|e]; [|discriminate]. injection Hs as <-.
  apply parseSearchResults_in in Hin. destruct Hin as (row & _ & Hrow).
  unfold LimeTorrents.parseRow in Hrow.
  destruct (JS.is_empty _); [discriminate|].
  destruct (LimeTorrents.extractInfoHashFromLink _) as [h|]; [|discriminate].
  injection Hrow as <-. reflexivity.
Qed.

Lemma on_provider_found {A : Type} (r : Registry.t (P := App.Instance))
      (providerId : string) (s : RealDebrid.State) (method : RealDebrid.M A) :
  Registry.getDebridProvider r providerId = Some (App.RealDebridProvider s) ->
  fst (DebridHandlers.on_provider r providerId method)
  = DebridHandlers.settled (fst (method s))
  /\ Registry.getDebridProvider
       (snd (DebridHandlers.on_provider r providerId method)) providerId
     = Some (App.RealDebridProvider (snd (method s))).
Proof.
  intros H. unfold DebridHandlers.on_provider. rewrite H.
  unfold Registry.getDebridProvider, Registry.lookup in H |- *.
  destruct (ProviderManager.map_get (Registry.debridProviders r) providerId)
    as [a|] eqn:E; [|discriminate].
  cbn [fst snd Registry.with_objects Registry.debridProviders Registry.objects].
  rewrite E. split; [reflexivity|].
  assert (Hlt : (a < List.length (Registry.objects r))%nat).
  { apply nth_error_Some. rewrite H. discriminate. }
  clear H E. revert a Hlt.
  induction (Registry.objects r) as [|x rest IH]; intros a Hlt;
    cbn [List.length] in Hlt; [lia|].
  destruct a; cbn [Registry.store_at nth_error]; [reflexivity|].
  apply IH. lia.
Qed.

(** X19. Every candidate of a search can be handed on: the magnet of a
    candidate that LimeTorrents returned passes the validation of
    ['debrid:resolve-magnet'], and the handler is [addMagnet] of the
    provider named, on that magnet, whose failure it throws on unchanged;
    the provider of the registry is left as the call left it.  Under an id
    with no debrid provider the handler throws 'Debrid provider not found'
    and the registry is as before. *)
Theorem searched_candidates_resolve :
  forall remote http_get table_rows query mediaType results c
         (r : Registry.t (P := App.Instance)) providerId,
    LimeTorrents.search http_get table_rows query mediaType = Ok results ->
    In c results ->
    (forall s,
        Registry.getDebridProvider r providerId = Some (App.RealDebridProvider s) ->
        fst (DebridHandlers.debrid_resolve_magnet remote r
               (Vocabulary.resolve_request c providerId))
        = DebridHandlers.settled
            (fst (RealDebrid.addMagnet remote (TorrentResult.magnetUri c) s))
        /\ Registry.getDebridProvider
             (snd (DebridHandlers.debrid_resolve_magnet remote r
                     (Vocabulary.resolve_request c providerId))) providerId
           = Some (App.RealDebridProvider
                     (snd (RealDebrid.addMagnet remote
                             (TorrentResult.magnetUri c) s))))
    /\ (Registry.getDebridProvider r providerId = None ->
        DebridHandlers.debrid_resolve_magnet remote r
          (Vocabulary.resolve_request c providerId)
        = (DebridHandlers.Failed (DebridHandlers.ProviderNotFound providerId), r)).
Proof.
  intros remote http_get table_rows query mediaType results c r providerId Hs Hin.
  assert (Hv : DebridHandlers.MagnetResolveSchema
                 (Vocabulary.resolve_request c providerId)
               = Some {| DebridHandlers.mr_magnetUri := TorrentResult.magnetUri c;
                         DebridHandlers.mr_providerId := providerId |}).
  { unfold Vocabulary.resolve_request.
    rewrite (searched_magnet _ _ _ _ _ _ Hs Hin). reflexivity. }
  unfold DebridHandlers.debrid_resolve_magnet, IpcHandlers.validateInput.
  rewrite Hv. cbn [DebridHandlers.mr_magnetUri DebridHandlers.mr_providerId].
  split.
  - intros s H. apply on_provider_found. exact H.
  - intros H. unfold DebridHandlers.on_provider. rewrite H. reflexivity.
Qed.

Lemma searched_candidates_resolve_witness :
  LimeTorrents.search Examples.any_page Examples.rows_of "Foo" movie
  = Ok (LimeTorrents.parseSearchResults Examples.rows_of "<html>")
  /\ In Samples.best_candidate
       (LimeTorrents.parseSearchResults Examples.rows_of "<html>")
  /\ Registry.getDebridProvider Samples.running "real-debrid"
     = Some (App.RealDebridProvider Examples.signed_in)
  /\ fst (DebridHandlers.debrid_resolve_magnet
            (Examples.service Examples.season_pack) Samples.running
            (Vocabulary.resolve_request Samples.best_candidate "real-debrid"))
     = DebridHandlers.Returned
         (RealDebrid.mapTorrentToTransfer Examples.season_pack)
  /\ Registry.getDebridProvider Samples.running "limetorrents" = None.
Proof.
  assert (Hin : In Samples.best_candidate
                  (LimeTorrents.parseSearchResults Examples.rows_of "<html>"))
    by (left; reflexivity).
  split; [reflexivity|]. split; [exact Hin|]. split; [reflexivity|].
  split; [|reflexivity].
  rewrite (proj1 (proj1 (searched_candidates_resolve
                           (Examples.service Examples.season_pack)
                           Examples.any_page Examples.rows_of "Foo"%string movie
                           (LimeTorrents.parseSearchResults Examples.rows_of "<html>")
                           Samples.best_candidate Samples.running
                           "real-debrid"%string eq_refl Hin)
                    Examples.signed_in eq_refl)).
  reflexivity.
Defined.

Lemma on_provider_keeps {A : Type} (r : Registry.t (P := App.Instance))
      (providerId id : string) (s : RealDebrid.State) (method : RealDebrid.M A) :
  Session.keeps method ->
  Registry.getDebridProvider r id = Some (App.RealDebridProvider s) ->
  exists s',
    Registry.getDebridProvider
      (snd (DebridHandlers.on_provider r providerId method)) id
    = Some (App.RealDebridProvider s')
    /\ Session.continues s s'.
Proof.
  intros Hk Hid. unfold DebridHandlers.on_provider.
  destruct (Registry.getDebridProvider r providerId) as [[en|s0]|] eqn:Ep;
    try (exists s; split; [exact Hid|apply continues_refl]).
  destruct (ProviderManager.map_get (Registry.debridProviders r) providerId)
    as [a|] eqn:Ea;
    try (exists s; split; [exact Hid|apply continues_refl]).
  cbn [snd]. unfold Registry.getDebridProvider, Registry.lookup in *.
  cbn [Registry.with_objects Registry.debridProviders Registry.objects].
  rewrite Ea in Ep.
  destruct (ProviderManager.map_get (Registry.debridProviders r) id)
    as [a'|]; [|discriminate].
  destruct (Nat.eq_dec a' a) as [->|Hne].
  - rewrite Ep in Hid. injection Hid as <-.
    exists (snd (method s0)). split; [|apply Hk].
    apply store_at_same. apply nth_error_Some. rewrite Ep. discriminate.
  - exists s. split; [|apply continues_refl].
    rewrite store_at_other; [exact Hid|exact Hne].
Qed.

(** X20. The two handlers keep every session: whatever the request, valid
    or not, and whatever the service answers, a Real-Debrid provider of the
    registry has afterwards the key, the header, the account and the flag
    it had, and its log has grown by requests under that header only.  A
    magnet that cannot be added or a transfer that is not ready never costs
    the user the session. *)
Theorem debrid_handlers_keep_sessions :
  forall remote (r : Registry.t (P := App.Instance)) data id s,
    Registry.getDebridProvider r id = Some (App.RealDebridProvider s) ->
    (exists s',
        Registry.getDebridProvider
          (snd (DebridHandlers.debrid_resolve_magnet remote r data)) id
        = Some (App.RealDebridProvider s')
        /\ Session.continues s s')
    /\ (exists s',
           Registry.getDebridProvider
             (snd (DebridHandlers.debrid_get_stream_url remote r data)) id
           = Some (App.RealDebridProvider s')
           /\ Session.continues s s').
Proof.
  intros remote r data id s H.
  unfold DebridHandlers.debrid_resolve_magnet,
    DebridHandlers.debrid_get_stream_url.
  split.
  - destruct (IpcHandlers.validateInput DebridHandlers.MagnetResolveSchema data)
      as [v|e].
    + apply on_provider_keeps; [apply keeps_addMagnet|exact H].
    + exists s. split; [exact H|apply continues_refl].
  - destruct (IpcHandlers.validateInput DebridHandlers.StreamUrlSchema data)
      as [v|e].
    + apply on_provider_keeps; [apply keeps_getStreamUrl|exact H].
    + exists s. split; [exact H|apply continues_refl].
Qed.

Lemma debrid_handlers_keep_sessions_witness :
  Registry.getDebridProvider Samples.running "real-debrid"
  = Some (App.RealDebridProvider Examples.signed_in)
  /\ exists s',
      Registry.getDebridProvider
        (snd (DebridHandlers.debrid_resolve_magnet
                (Examples.service Examples.season_pack) Samples.running
                (Vocabulary.resolve_request Samples.best_candidate "real-debrid")))
        "real-debrid"
      = Some (App.RealDebridProvider s')
      /\ Session.continues Examples.signed_in s'.
Proof.
  split; [reflexivity|].
  exact (proj1 (debrid_handlers_keep_sessions
                  (Examples.service Examples.season_pack) Samples.running
                  (Vocabulary.resolve_request Samples.best_candidate "real-debrid")
                  "real-debrid"%string Examples.signed_in eq_refl)).
Defined.

(** ** The statement of a settings update *)

Lemma lower_char_no_capital (c : ascii) :
  Settings.is_capital (JS.lower_char c) = false.
Proof. destruct c as [[] [] [] [] [] [] [] []]; vm_compute; reflexivity. Qed.

Lemma lower_char_not_mark (c : ascii) :
  Settings.is_capital c = true -> JS.lower_char c <> "?"%char.
Proof.
  destruct c as [[] [] [] [] [] [] [] []]; vm_compute; intros H;
    discriminate.
Qed.

Lemma dbKey_marks (key : string) :
  Vocabulary.count_char "?" (Settings.dbKey key) = Vocabulary.count_char "?" key.
Proof.
  induction key as [|c r IH]; [reflexivity|].
  cbn [Settings.dbKey]. destruct (Settings.is_capital c) eqn:E.
  - cbn [Vocabulary.count_char].
    destruct (Ascii.eqb_spec (JS.lower_char c) "?"%char) as [H|_];
      [contradiction (lower_char_not_mark c E H)|].
    destruct (Ascii.eqb_spec c "?"%char) as [->|_]; [discriminate E|].
    change (Ascii.eqb "_" "?") with false. cbv iota. exact IH.
  - cbn [Vocabulary.count_char]. rewrite IH. reflexivity.
Qed.

Lemma dbKey_no_capital (key : string) :
  forallb (fun c => negb (Settings.is_capital c))
          (list_ascii_of_string (Settings.dbKey key)) = true.
Proof.
  induction key as [|c r IH]; [reflexivity|].
  cbn [Settings.dbKey]. destruct (Settings.is_capital c) eqn:E;
    cbn [list_ascii_of_string forallb].
  - rewrite lower_char_no_capital, IH. reflexivity.
  - rewrite E, IH. reflexivity.
Qed.

Lemma dbKey_plain (key : string) :
  forallb (fun c => negb (Settings.is_capital c)) (list_ascii_of_string key) = true ->
  Settings.dbKey key = key.
Proof.
  induction key as [|c r IH]; [reflexivity|].
  cbn [list_ascii_of_string forallb Settings.dbKey].
  destruct (Settings.is_capital c); [discriminate|].
  cbn [negb andb]. intros H. rewrite (IH H). reflexivity.
Qed.

Lemma joined_marks (entries : list (string * Settings.Value)) :
  (forall k v, In (k, v) entries -> Vocabulary.count_char "?" k = O) ->
  Vocabulary.count_char "?" (String.concat ", " (Settings.updates entries))
  = List.length entries.
Proof.
  induction entries as [|[k v] rest IH]; intros H; [reflexivity|].
  assert (Hk : Vocabulary.count_char "?" (Settings.dbKey k ++ " = ?") = 1%nat).
  { rewrite count_char_append, dbKey_marks, (H k v (or_introl eq_refl)).
    reflexivity. }
  assert (IH' := IH (fun k' v' Hin => H k' v' (or_intror Hin))).
  cbn [Settings.updates map fst List.length] in *.
  fold (Settings.updates rest) in *.
  destruct (Settings.updates rest) as [|u us] eqn:Eu.
  - destruct rest; [|discriminate Eu]. cbn [String.concat]. exact Hk.
  - cbn [String.concat] in *. rewrite count_char_append, Hk.
    rewrite count_char_append. cbn [Vocabulary.count_char] in *.
    change (Ascii.eqb "," "?") with false. change (Ascii.eqb " " "?") with false.
    cbv iota. cbn [plus]. rewrite IH'. reflexivity.
Qed.

Lemma unquoted_append (a b : string) :
  Vocabulary.unquoted (a ++ b) = Vocabulary.unquoted a && Vocabulary.unquoted b.
Proof.
  unfold Vocabulary.unquoted, Vocabulary.chars.
  induction a as [|c r IH]; [reflexivity|].
  cbn [append list_ascii_of_string forallb]. rewrite IH, andb_assoc. reflexivity.
Qed.

Lemma word_char_opens_no_quote (c : ascii) :
  Vocabulary.is_word_char c = true ->
  Vocabulary.opens_quote c = false
  /\ (Settings.is_capital c = true ->
      Vocabulary.opens_quote (JS.lower_char c) = false).
Proof.
  destruct c as [[] [] [] [] [] [] [] []]; vm_compute; intros H;
    first [discriminate H | split; [reflexivity|intros X; first [reflexivity|discriminate X]]].
Qed.

Lemma dbKey_unquoted (key : string) :
  Vocabulary.identifier key = true -> Vocabulary.unquoted (Settings.dbKey key) = true.
Proof.
  unfold Vocabulary.identifier, Vocabulary.unquoted, Vocabulary.chars.
  induction key as [|c r IH]; [reflexivity|].
  cbn [list_ascii_of_string forallb]. rewrite andb_true_iff. intros [Hc Hr].
  destruct (word_char_opens_no_quote c Hc) as [H1 H2].
  cbn [Settings.dbKey]. destruct (Settings.is_capital c) eqn:E;
    cbn [list_ascii_of_string forallb].
  - rewrite (H2 eq_refl), (IH Hr). reflexivity.
  - rewrite H1, (IH Hr). reflexivity.
Qed.

Lemma identifier_no_mark (key : string) :
  Vocabulary.identifier key = true -> Vocabulary.count_char "?" key = O.
Proof.
  unfold Vocabulary.identifier, Vocabulary.chars.
  induction key as [|c r IH]; [reflexivity|].
  cbn [list_ascii_of_string forallb Vocabulary.count_char].
  rewrite andb_true_iff. intros [Hc Hr].
  destruct (Ascii.eqb_spec c "?"%char) as [->|_]; [discriminate Hc|].
  exact (IH Hr).
Qed.

Lemma joined_unquoted (entries : list (string * Settings.Value)) :
  (forall k v, In (k, v) entries -> Vocabulary.identifier k = true) ->
  Vocabulary.unquoted (String.concat ", " (Settings.updates entries)) = true.
Proof.
  induction entries as [|[k v] rest IH]; intros H; [reflexivity|].
  assert (Hk : Vocabulary.unquoted (Settings.dbKey k ++ " = ?") = true).
  { rewrite unquoted_append, (dbKey_unquoted k (H k v (or_introl eq_refl))).
    reflexivity. }
  assert (IH' := IH (fun k' v' Hin => H k' v' (or_intror Hin))).
  cbn [Settings.updates map fst] in *.
  fold (Settings.updates rest) in *.
  destruct (Settings.updates rest) as [|u us] eqn:Eu.
  - cbn [String.concat]. exact Hk.
  - cbn [String.concat] in *. rewrite unquoted_append, Hk.
    rewrite unquoted_append, IH'. reflexivity.
Qed.

(** X21. The statement of ['settings:update'].  No statement is prepared
    for a request without entries.  Otherwise one value is bound for each
    entry, in order, and ['default'] last, a boolean as 1 or 0.  Keys go
    into the text unchecked, each capital replaced by an underscore and its
    small letter, everything else as it is; so what the text holds depends
    on the keys.  When no key holds a question mark, the text has as many
    question mark characters as values are bound.  When every key is made
    of letters, digits and underscores, as the field names of the settings
    are, the text has moreover no quote, back quote, bracket, dash or slash:
    no question mark of it is inside a string, a quoted name or a comment.
    Each field the handlers answer is written to the column it is read
    from. *)
Theorem settings_update_statement :
  forall entries,
    (Settings.update_statement entries = None <-> entries = [])
    /\ (forall text bound,
           Settings.update_statement entries = Some (text, bound) ->
           bound = (map (fun e => Settings.bound (snd e)) entries
                    ++ [Settings.VString "default"])%list
           /\ (forall b, ~ In (Settings.VBoolean b) bound)
           /\ ((forall k v, In (k, v) entries ->
                            Vocabulary.count_char "?" k = O) ->
               Vocabulary.count_char "?" text = List.length bound)
           /\ ((forall k v, In (k, v) entries ->
                            Vocabulary.identifier k = true) ->
               Vocabulary.count_char "?" text = List.length bound
               /\ Vocabulary.unquoted text = true))
    /\ (forall key,
           forallb (fun c => negb (Settings.is_capital c))
                   (list_ascii_of_string (Settings.dbKey key)) = true
           /\ (forallb (fun c => negb (Settings.is_capital c))
                       (list_ascii_of_string key) = true ->
               Settings.dbKey key = key))
    /\ (forall field column,
           In (field, column) Settings.answered_fields ->
           Settings.dbKey field = column
           /\ Vocabulary.identifier field = true).
Proof.
  intros entries. split; [|split; [|split]].
  - unfold Settings.update_statement, Settings.updates.
    rewrite length_map. destruct entries; split; intros H;
      first [reflexivity | discriminate H].
  - intros text bound. unfold Settings.update_statement.
    destruct (0 <? List.length (Settings.updates entries))%nat; [|discriminate].
    intros H. injection H as <- <-. split; [reflexivity|]. split.
    + intros b Hin. apply in_app_or in Hin. destruct Hin as [Hin|[Hin|[]]];
        [|discriminate Hin].
      unfold Settings.values in Hin. apply in_map_iff in Hin.
      destruct Hin as ([k v] & E & _). destruct v; discriminate E.
    + assert (forall Hk : (forall k v, In (k, v) entries ->
                                       Vocabulary.count_char "?" k = O),
                 Vocabulary.count_char "?"
                   (Settings.update_text (Settings.updates entries))
                 = List.length (Settings.values entries
                                ++ [Settings.VString "default"])%list) as Hcount.
      { intros Hk. unfold Settings.update_text.
        rewrite !count_char_append, (joined_marks entries Hk).
        unfold Settings.values. rewrite length_app, length_map.
        cbn. lia. }
      split; [exact Hcount|].
      intros Hid. split.
      * apply Hcount. intros k v Hin. apply identifier_no_mark.
        exact (Hid k v Hin).
      * unfold Settings.update_text.
        rewrite !unquoted_append, (joined_unquoted entries Hid). reflexivity.
  - intros key. split; [apply dbKey_no_capital|apply dbKey_plain].
  - intros field column Hin. cbn in Hin.
    repeat (destruct Hin as [Hin|Hin];
            [injection Hin as <- <-; split; reflexivity|]).
    contradiction.
Qed.

Lemma settings_update_statement_witness :
  (forall k v,
      In (k, v) [("autoPlay"%string, Settings.VBoolean true);
                 ("volume"%string, Settings.VNumber 80)] ->
      Vocabulary.identifier k = true)
  /\ exists text,
      Settings.update_statement
        [("autoPlay"%string, Settings.VBoolean true);
         ("volume"%string, Settings.VNumber 80)]
      = Some (text, [Settings.VNumber 1; Settings.VNumber 80;
                     Settings.VString "default"])
      /\ Vocabulary.count_char "?" text = 3%nat
      /\ Vocabulary.unquoted text = true.
Proof.
  assert (Hk : forall k v,
             In (k, v) [("autoPlay"%string, Settings.VBoolean true);
                        ("volume"%string, Settings.VNumber 80)] ->
             Vocabulary.identifier k = true).
  { intros k v [H|[H|[]]]; injection H as <- _; reflexivity. }
  split; [exact Hk|].
  eexists. split; [reflexivity|].
  exact (proj2 (proj2 (proj2 (proj1 (proj2 (settings_update_statement
                                       [("autoPlay"%string, Settings.VBoolean true);
                                        ("volume"%string, Settings.VNumber 80)]))
                         _ _ eq_refl))) Hk).
Defined.

(** A key that is no such name puts what it holds into the statement: the
    key [x = 1 --] makes a text of two question marks for two values, the
    first of them after two dashes on its line. *)
Lemma update_text_of_an_unchecked_key :
  Vocabulary.identifier "x = 1 --" = false
  /\ exists text,
      Settings.update_statement [("x = 1 --"%string, Settings.VNumber 5)]
      = Some (text, [Settings.VNumber 5; Settings.VString "default"])
      /\ Vocabulary.count_char "?" text = 2%nat
      /\ Vocabulary.unquoted text = false.
Proof.
  split; [reflexivity|]. eexists. split; [reflexivity|].
  split; reflexivity.
Qed.
